(** * Orbis: a shallow embedding of the FAF5 CSV pipeline ([orbis.py])

    The development follows the file top to bottom: Python string
    primitives, the pandas operations the pipeline relies on (as pure
    functions over an explicit frame type), then [read_all_faf5_csvs], the
    five cleaning steps, [profile_columns], [gather_validation_issues] and
    [main]; then the notions the statements use; the properties come
    last. *)

From Stdlib Require Import Ascii QArith Qcanon.
From Equations Require Import Equations.
From stdpp Require Import base decidable option list numbers strings gmap pretty sorting.

Set Warnings "-clear-no-such-hyp".

(** ** Python [str] primitives

    A Python string is modelled by a Rocq [string]; a character is a code
    point below 256 (Latin-1), on which [str.isspace], [str.isalnum] and
    [str.lower] are given by the Unicode tables. *)

Definition code (c : ascii) : N := N_of_ascii c.

Definition in_range (lo hi : N) (c : ascii) : bool :=
  ((lo <=? code c) && (code c <=? hi))%N.

(** [c.isspace()] *)
Definition isspace (c : ascii) : bool :=
  in_range 9 13 c || in_range 28 32 c || (code c =? 133)%N || (code c =? 160)%N.

(** [c.isupper()] restricted to the characters [c.lower()] changes. *)
Definition has_lower (c : ascii) : bool :=
  in_range 65 90 c || (in_range 192 222 c && negb (code c =? 215)%N).

(** [c.lower()] *)
Definition lower_char (c : ascii) : ascii :=
  if has_lower c then ascii_of_N (code c + 32) else c.

(** [c.isalpha()] *)
Definition isalpha (c : ascii) : bool :=
  in_range 65 90 c || in_range 97 122 c
  || (code c =? 170)%N || (code c =? 181)%N || (code c =? 186)%N
  || in_range 192 214 c || in_range 216 246 c || in_range 248 255 c.

(** [c.isdecimal() or c.isdigit() or c.isnumeric()] *)
Definition isnumeric (c : ascii) : bool :=
  in_range 48 57 c || in_range 178 179 c || (code c =? 185)%N || in_range 188 190 c.

(** [c.isalnum()] *)
Definition isalnum (c : ascii) : bool := isalpha c || isnumeric c.

Definition underscore : ascii := "_"%char.

Definition is_underscore (c : ascii) : bool := bool_decide (c = underscore).

Abbreviation chars := (list ascii) (only parsing).

(** [s.lstrip()], [s.rstrip()] and [s.strip()] with the set of stripped
    characters given as a predicate. *)
Fixpoint lstrip (p : ascii → bool) (s : chars) : chars :=
  match s with
  | [] => []
  | c :: r => if p c then lstrip p r else s
  end.

Definition rstrip (p : ascii → bool) (s : chars) : chars :=
  reverse (lstrip p (reverse s)).

Definition strip (p : ascii → bool) (s : chars) : chars :=
  rstrip p (lstrip p s).

(** ["__" in s] *)
Fixpoint has_dunder (s : chars) : bool :=
  match s with
  | [] => false
  | c :: r =>
      match r with
      | [] => false
      | d :: _ => (is_underscore c && is_underscore d) || has_dunder r
      end
  end.

(** [s.replace("__", "_")]: the occurrences are replaced from the left and
    do not overlap. *)
Fixpoint replace_dunder (s : chars) : chars :=
  match s with
  | [] => []
  | c :: r =>
      match r with
      | [] => [c]
      | d :: t =>
          if is_underscore c && is_underscore d
          then underscore :: replace_dunder t
          else c :: replace_dunder r
      end
  end.

Definition inspect {A} (a : A) : {b : A | a = b} := exist _ a eq_refl.

(** [while "__" in s: s = s.replace("__", "_")] *)
Equations? collapse_loop (s : chars) : chars by wf (length s) lt :=
  collapse_loop s with inspect (has_dunder s) := {
    | exist _ true _ => collapse_loop (replace_dunder s)
    | exist _ false _ => s }.
Proof.
  (* one replacement pass removes at least one character *)
  cut (length (replace_dunder s) ≤ length s
       ∧ (has_dunder s = true → length (replace_dunder s) < length s));
    [intros [_ Hlt]; by apply Hlt |].
  clear. induction s as [s IH] using (induction_ltof1 _ (@length ascii)).
  unfold ltof in IH.
  destruct s as [|c [|d t]]; [by simpl; split; [lia | idtac] ..|].
  change (has_dunder (c :: d :: t))
    with ((is_underscore c && is_underscore d) || has_dunder (d :: t)).
  change (replace_dunder (c :: d :: t))
    with (if is_underscore c && is_underscore d
          then underscore :: replace_dunder t
          else c :: replace_dunder (d :: t)).
  destruct (is_underscore c && is_underscore d); simpl orb.
  - destruct (IH t) as [Hle _]; [simpl; lia |]. simpl. split; [lia | intros _; lia].
  - destruct (IH (d :: t)) as [Hle Hlt]; [simpl; lia |].
    simpl in *. split; [lia | intros H; specialize (Hlt H); lia].
Qed.

Definition column_literal : chars := String.list_ascii_of_string "column".

(** [normalize_column_name], on the characters of the name. *)
Definition normalize_chars (name : chars) : chars :=
  let normalized := map lower_char (strip isspace name) in
  let safe_chars := map (λ c, if isalnum c then c else underscore) normalized in
  let normalized := safe_chars in
  let normalized := collapse_loop normalized in
  let normalized := strip is_underscore normalized in
  match normalized with
  | [] => column_literal
  | _ => normalized
  end.

Definition normalize_column_name (name : string) : string :=
  String.string_of_list_ascii (normalize_chars (String.list_ascii_of_string name)).

(** [s.lower()], [s.strip()] and [s.lower().endswith(".csv")] on strings. *)
Definition str_lower (s : string) : string :=
  String.string_of_list_ascii (map lower_char (String.list_ascii_of_string s)).

Definition str_strip (s : string) : string :=
  String.string_of_list_ascii (strip isspace (String.list_ascii_of_string s)).

Definition endswith (s suffix : string) : bool :=
  let cs := String.list_ascii_of_string s in
  let suf := String.list_ascii_of_string suffix in
  bool_decide (drop (length cs - length suf) cs = suf).

(** [sep.join(parts)] *)
Fixpoint join (sep : string) (parts : list string) : string :=
  match parts with
  | [] => ""
  | [p] => p
  | p :: rest => p +:+ sep +:+ join sep rest
  end.

(** ** Numbers

    pandas' [int64]/[float64] cells are modelled by exact rationals. *)

Definition Qc_of_nat (n : nat) : Qc := Q2Qc (inject_Z (Z.of_nat n)).

(** ** The pandas data model

    A cell is null ([None], [NaN], [pd.NA]), a string or a number; cells
    of other kinds (booleans, dates) are outside the model.  A [Series] is
    a labelled column with its dtype; a [DataFrame] is a row index (the row
    labels) and the columns in order. *)

Inductive value :=
| NA
| Str (s : string)
| Num (q : Qc).

#[global] Instance value_eq_dec : EqDecision value.
Proof. solve_decision. Defined.

Inductive Dtype :=
| DObject          (* "object": text or mixed *)
| DString          (* "string": pandas' StringDtype *)
| DNumber          (* int64, float64: numpy numbers, a null is [NaN] *)
| DNullableNumber. (* Int64, Float64: masked numbers, a null is [pd.NA] *)

#[global] Instance Dtype_eq_dec : EqDecision Dtype.
Proof. solve_decision. Defined.

(** The dtypes that [include=["number"]] selects and that
    [is_numeric_dtype] accepts. *)
Definition number : list Dtype := [DNumber; DNullableNumber].

Record Series := {
  name : string;
  dtype : Dtype;
  values : list value;
}.

#[global] Instance Series_eq_dec : EqDecision Series.
Proof. solve_decision. Defined.

Record DataFrame := {
  index : list nat;
  columns : list Series;
}.

#[global] Instance DataFrame_eq_dec : EqDecision DataFrame.
Proof. solve_decision. Defined.

(** [pd.DataFrame()] *)
Definition empty_frame : DataFrame := {| index := []; columns := [] |}.

(** [len(df)] *)
Definition len (df : DataFrame) : nat := length (index df).

(** [df.empty]: some axis has length zero. *)
Definition empty (df : DataFrame) : bool :=
  bool_decide (index df = []) || bool_decide (columns df = []).

(** [pd.isna(v)] and [pd.notna(v)] *)
Definition isna (v : value) : bool :=
  match v with NA => true | _ => false end.

Definition notna (v : value) : bool := negb (isna v).

(** [mask.sum()] for a boolean mask. *)
Definition mask_sum (mask : list bool) : nat :=
  length (filter (λ b, b = true) mask).

(** [mask.mean()] for a boolean mask. *)
Definition mask_mean (mask : list bool) : Qc :=
  (Qc_of_nat (mask_sum mask) / Qc_of_nat (length mask))%Qc.

(** [xs[mask]]: the entries of [xs] where the aligned mask is true. *)
Fixpoint mask_select {A} (mask : list bool) (xs : list A) : list A :=
  match mask, xs with
  | b :: mask', x :: xs' =>
      if b then x :: mask_select mask' xs' else mask_select mask' xs'
  | _, _ => []
  end.

(** [df[label]]: the column carrying the label. *)
Fixpoint get_column_in (cols : list Series) (label : string) : option Series :=
  match cols with
  | [] => None
  | c :: rest => if decide (name c = label) then Some c else get_column_in rest label
  end.

Definition get_column (df : DataFrame) (label : string) : option Series :=
  get_column_in (columns df) label.

(** [df[label]] is a series only when one column carries the label: when
    several do, pandas answers with a frame, and the statement that uses
    it as a series raises. *)
Definition repeated (df : DataFrame) (label : string) : Prop :=
  1 < length (filter (λ c, name c = label) (columns df)).

#[global] Instance repeated_dec df label : Decision (repeated df label).
Proof. unfold repeated. apply _. Defined.

(** [df[label] = s]: replaces the column carrying the label, or appends a
    new last column. *)
Fixpoint set_column_in (cols : list Series) (label : string) (s : Series) : list Series :=
  match cols with
  | [] => [s]
  | c :: rest =>
      if decide (name c = label) then s :: rest
      else c :: set_column_in rest label s
  end.

Definition set_column (df : DataFrame) (label : string) (vs : Series) : DataFrame :=
  {| index := index df;
     columns := set_column_in (columns df) label
                  {| name := label; dtype := dtype vs; values := values vs |} |}.

(** [df.select_dtypes(include=...)], as the list of selected columns. *)
Definition select_dtypes (include : list Dtype) (df : DataFrame) : list Series :=
  filter (λ c, dtype c ∈ include) (columns df).

(** [s.unique()]: the distinct values in order of first appearance. *)
Fixpoint unique_go {A} `{EqDecision A} (seen : list A) (l : list A) : list A :=
  match l with
  | [] => []
  | x :: r =>
      if decide (x ∈ seen) then unique_go seen r
      else x :: unique_go (x :: seen) r
  end.

Definition unique {A} `{EqDecision A} (l : list A) : list A := unique_go [] l.

(** [df.iloc[i]] as the list of the cells of row position [i]. *)
Definition row_at (df : DataFrame) (i : nat) : list value :=
  map (λ c, nth i (values c) NA) (columns df).

(** [df[mask]]: the rows where the mask is true, with their labels. *)
Definition select_rows (mask : list bool) (df : DataFrame) : DataFrame :=
  {| index := mask_select mask (index df);
     columns := map (λ c, {| name := name c; dtype := dtype c;
                             values := mask_select mask (values c) |})
                    (columns df) |}.

(** [df.duplicated()]: a row is marked when an earlier row has the same
    cells (nulls compare equal); pandas answers with an empty mask for an
    empty frame. *)
Fixpoint duplicated_go (seen : list (list value)) (rows : list (list value)) : list bool :=
  match rows with
  | [] => []
  | r :: rest => bool_decide (r ∈ seen) :: duplicated_go (r :: seen) rest
  end.

Definition duplicated (df : DataFrame) : list bool :=
  if empty df then []
  else duplicated_go [] (map (row_at df) (seq 0 (len df))).

(** [df.drop_duplicates()]: an empty frame is returned as it is, otherwise
    [df[~df.duplicated()]]; the row labels are kept. *)
Definition drop_duplicates (df : DataFrame) : DataFrame :=
  if empty df then df
  else select_rows (map negb (duplicated df)) df.

(** [df.dropna(axis=1, how="all")] *)
Definition dropna_columns_all (df : DataFrame) : DataFrame :=
  {| index := index df;
     columns := filter (λ c, Exists (λ v, notna v = true) (values c)) (columns df) |}.

(** [df.rename(columns=rename_map)] for a dict kept as an association list. *)
Fixpoint dict_get {V} (d : list (string * V)) (k : string) : option V :=
  match d with
  | [] => None
  | (k', v) :: rest => if decide (k' = k) then Some v else dict_get rest k
  end.

(** [d[k] = v]: an existing key keeps its place, a new key goes last. *)
Fixpoint dict_set {V} (d : list (string * V)) (k : string) (v : V) : list (string * V) :=
  match d with
  | [] => [(k, v)]
  | (k', v') :: rest =>
      if decide (k' = k) then (k, v) :: rest else (k', v') :: dict_set rest k v
  end.

Definition rename_columns (rename_map : list (string * string)) (df : DataFrame) : DataFrame :=
  {| index := index df;
     columns := map (λ c, {| name := default (name c) (dict_get rename_map (name c));
                             dtype := dtype c; values := values c |})
                    (columns df) |}.

(** [pd.concat(dataframes, ignore_index=True, sort=False)]: the columns are
    the union of the labels in order of first appearance, a frame lacking a
    column contributes nulls, and the rows are relabelled [0 .. n-1].  A
    column whose parts have one dtype keeps it; numpy and masked numbers
    together give masked numbers; any other mix gives object. *)
Definition concat_dtype (label : string) (dfs : list DataFrame) : Dtype :=
  match unique (omap (λ df, dtype <$> get_column df label) dfs) with
  | [d] => d
  | ds => if decide (ds ≠ [] ∧ Forall (λ d, d ∈ number) ds)
          then DNullableNumber else DObject
  end.

Definition concat_values (label : string) (dfs : list DataFrame) : list value :=
  flat_map (λ df, match get_column df label with
                  | Some c => values c
                  | None => replicate (len df) NA
                  end) dfs.

Definition concat (dfs : list DataFrame) : DataFrame :=
  let labels := unique (flat_map (λ df, map name (columns df)) dfs) in
  {| index := seq 0 (sum_list (map len dfs));
     columns := map (λ label, {| name := label;
                                 dtype := concat_dtype label dfs;
                                 values := concat_values label dfs |}) labels |}.

(** ** The directory and the errors of the pipeline

    [FileSystem] is the state of the FAF5 directory as the pipeline sees
    it: whether the path is a directory, what [os.listdir] answers ([None]
    when it raises), what [pd.read_csv] answers for a file name, and the
    files written so far. *)

Inductive outcome (E A : Type) :=
| Raise (e : E)
| Return (a : A).
Arguments Raise {E A} e.
Arguments Return {E A} a.

(** A statement that raises ends the computation. *)
Definition and_then {E A B} (m : outcome E A) (k : A → outcome E B) : outcome E B :=
  match m with
  | Raise e => Raise e
  | Return a => k a
  end.

Notation "'try!' x := m 'in' k" := (and_then m (λ x, k))
  (at level 10, x name, m at level 100, k at level 200).

(** The underlying failure of [pd.read_csv], kept as its message. *)
Definition exception := string.

Inductive error :=
| FileNotFoundError                                   (* DirectoryNotFound *)
| RuntimeError (file_name : string) (cause : exception) (* CsvParseError, [raise ... from exc] *)
| OSError                                             (* [os.listdir] failed *)
| AttributeError                                      (* [.str] on a frame *)
| ValueError                                          (* the truth value of a series *)
| TypeError.                                          (* [float(pd.NA)], [int] of a series *)

(** ** Scalar conversions of pandas

    The parser behind [pd.to_numeric] (a string that yields no number, or
    yields [NaN], gives [None]), [str] of a number, and Python's
    [round(x, 6)]. *)
Class Scalars := {
  to_number : string → option Qc;
  str_of_number : Qc → string;
  round6 : Qc → Qc;
}.

(** ** Validation records *)

Inductive Details :=
| Text (s : string)
| SampleRowIndices (sample_idx : list nat)   (* f"Sample row indices: {sample_idx}" *)
| ValuesNotInDir (sample_vals : list string). (* f"Values not in FAF5 directory: {sample_vals}" *)

Module Issue.
Record t := {
  issue_type : string;
  column : string;
  count : nat;
  pct : Qc;
  details : Details;
}.
End Issue.

(** The standard deviation is kept by its radicand: [Sqrt v] stands for the
    square root of [v]. *)
Inductive Root := Sqrt (radicand : Qc).

Inductive Summary :=
| Numeric (min max mean : option Qc) (std : option Root)
| Samples (sample_values : string).

Module Profile.
Record t := {
  column_name : string;
  dtype : Dtype;
  count : nat;
  non_null_count : nat;
  null_count : nat;
  null_pct : Qc;
  num_unique : nat;
  summary : Summary;
}.
End Profile.

Inductive Table :=
| Frame (df : DataFrame)
| Profiles (rows : list Profile.t)
| Issues (rows : list Issue.t).

Record FileSystem := {
  isdir : bool;
  listdir : option (list string);
  read_csv : string → outcome exception DataFrame;
  written : list (string * Table);
}.

(** [table.to_csv(os.path.join(faf5_dir, file_name), index=False)] *)
Definition to_csv (file_name : string) (table : Table) (fs : FileSystem) : FileSystem :=
  {| isdir := isdir fs;
     listdir := (λ l, if decide (file_name ∈ l) then l else l ++ [file_name]) <$> listdir fs;
     read_csv := read_csv fs;
     written := written fs ++ [(file_name, table)] |}.

(** ** Ingestion *)

Definition excluded_filenames : list string :=
  ["FAF5_MERGED.csv"; "FAF5_MERGED_CLEANED.csv";
   "FAF5_VALIDATION_COLUMNS.csv"; "FAF5_VALIDATION_ISSUES.csv"].

(** [sorted(names)]: by code points. *)
Definition sorted (names : list string) : list string :=
  merge_sort String.le names.

(** A constant column: the broadcast of a scalar over the rows of [df]. *)
Definition broadcast (df : DataFrame) (label : string) (v : value) : Series :=
  {| name := label; dtype := DObject; values := replicate (len df) v |}.

(** The loop of [read_all_faf5_csvs], with [dataframes] as its state. *)
Fixpoint read_loop (fs : FileSystem) (file_names : list string)
    (dataframes : list DataFrame) : outcome error (list DataFrame) :=
  match file_names with
  | [] => Return dataframes
  | file_name :: rest =>
      if negb (endswith (str_lower file_name) ".csv") then
        read_loop fs rest dataframes
      else if decide (file_name ∈ excluded_filenames) then
        read_loop fs rest dataframes
      else
        match read_csv fs file_name with
        | Raise exc => Raise (RuntimeError file_name exc)
        | Return df =>
            let df := set_column df "source_file"
                        (broadcast df "source_file" (Str file_name)) in
            read_loop fs rest (dataframes ++ [df])
        end
  end.

Definition read_all_faf5_csvs (fs : FileSystem) : outcome error DataFrame :=
  if negb (isdir fs) then Raise FileNotFoundError
  else
    match listdir fs with
    | None => Raise OSError
    | Some names =>
        match read_loop fs (sorted names) [] with
        | Raise e => Raise e
        | Return dataframes =>
            match dataframes with
            | [] => Return empty_frame
            | _ => Return (concat dataframes)
            end
        end
    end.

(** ** Cleaning *)

Section Cleaning.
Context {scalars : Scalars}.

(** [series.astype("string")] *)
Definition astype_string (v : value) : value :=
  match v with
  | NA => NA
  | Str s => Str s
  | Num q => Str (str_of_number q)
  end.

(** [.str.strip()] on one cell. *)
Definition strip_value (v : value) : value :=
  match v with
  | Str s => Str (str_strip s)
  | _ => v
  end.

(** [.replace({"": pd.NA})] on one cell. *)
Definition empty_to_na (v : value) : value :=
  if decide (v = Str "") then NA else v.

Definition strip_step (cleaned : DataFrame) (column_name : string) : DataFrame :=
  match get_column cleaned column_name with
  | None => cleaned
  | Some series =>
      set_column cleaned column_name
        {| name := column_name; dtype := DString;
           values := map (λ v, empty_to_na (strip_value (astype_string v)))
                         (values series) |}
  end.

Definition strip_and_standardize_strings (df : DataFrame) : DataFrame :=
  let cleaned := df in
  let object_columns := map name (select_dtypes [DObject] cleaned) in
  fold_left strip_step object_columns cleaned.

(** [pd.to_numeric(series, errors="coerce")]: the numbers are numpy
    numbers when parsed from an object column and masked numbers when
    parsed from a string column. *)
Definition to_numeric_value (v : value) : value :=
  match v with
  | NA => NA
  | Num q => Num q
  | Str s => match to_number s with Some q => Num q | None => NA end
  end.

Definition to_numeric (series : Series) : Series :=
  {| name := name series;
     dtype := if decide (dtype series ∈ [DString; DNullableNumber])
              then DNullableNumber else DNumber;
     values := map to_numeric_value (values series) |}.

Definition convert_step (threshold : Qc) (converted_df : DataFrame)
    (column_name : string) : DataFrame :=
  match get_column converted_df column_name with
  | None => converted_df
  | Some original_series =>
      let non_null_mask := map notna (values original_series) in
      if decide (mask_sum non_null_mask = 0) then converted_df
      else
        let coerced := to_numeric original_series in
        let convertible_ratio :=
          mask_mean (map notna (mask_select non_null_mask (values coerced))) in
        if decide (threshold ≤ convertible_ratio)%Qc
        then set_column converted_df column_name coerced
        else converted_df
  end.

Definition convert_mostly_numeric_columns (df : DataFrame) (threshold : Qc) : DataFrame :=
  let converted_df := df in
  let object_columns := map name (select_dtypes [DObject; DString] converted_df) in
  fold_left (convert_step threshold) object_columns converted_df.

Definition drop_empty_columns (df : DataFrame) : DataFrame :=
  dropna_columns_all df.

Definition remove_duplicate_rows (df : DataFrame) : DataFrame :=
  drop_duplicates df.

(** One turn of the collision loop of [normalize_column_names]; the state
    is [seen] and [rename_map]. *)
Definition collision_step (st : gmap string nat * list (string * string))
    (item : string * string) : gmap string nat * list (string * string) :=
  let '(seen, rename_map) := st in
  let '(original, normalized) := item in
  match seen !! normalized with
  | None => (<[normalized := 1]> seen, rename_map)
  | Some k =>
      let seen := <[normalized := k + 1]> seen in
      (seen, dict_set rename_map original (normalized +:+ "_" +:+ pretty (k + 1)))
  end.

Definition normalize_column_names (df : DataFrame) : DataFrame :=
  let rename_map :=
    fold_left (λ d name, dict_set d name (normalize_column_name name))
              (map name (columns df)) [] in
  let '(seen, rename_map) := fold_left collision_step rename_map (∅, rename_map) in
  rename_columns rename_map df.

Definition default_threshold : Qc := Q2Qc (9 # 10).

Definition clean_dataframe (df : DataFrame) : DataFrame :=
  let step1 := normalize_column_names df in
  let step2 := strip_and_standardize_strings step1 in
  let step3 := convert_mostly_numeric_columns step2 default_threshold in
  let step4 := drop_empty_columns step3 in
  let step5 := remove_duplicate_rows step4 in
  step5.
End Cleaning.

(** ** Profiling *)

Definition Qc_min (a b : Qc) : Qc := if decide (a ≤ b)%Qc then a else b.
Definition Qc_max (a b : Qc) : Qc := if decide (a ≤ b)%Qc then b else a.

Definition Qc_sum (xs : list Qc) : Qc := foldr Qcplus 0%Qc xs.

(** The numbers of a numeric column, nulls skipped ([skipna=True]). *)
Definition numbers (vs : list value) : list Qc :=
  omap (λ v, match v with Num q => Some q | _ => None end) vs.

(** [series.min()], [series.max()], [series.mean()], [series.std()]; [None]
    stands for [NaN]. *)
Definition series_min (vs : list value) : option Qc :=
  match numbers vs with
  | [] => None
  | x :: rest => Some (foldl Qc_min x rest)
  end.

Definition series_max (vs : list value) : option Qc :=
  match numbers vs with
  | [] => None
  | x :: rest => Some (foldl Qc_max x rest)
  end.

Definition series_mean (vs : list value) : option Qc :=
  match numbers vs with
  | [] => None
  | xs => Some (Qc_sum xs / Qc_of_nat (length xs))%Qc
  end.

Definition series_std (vs : list value) : option Root :=
  let xs := numbers vs in
  match series_mean vs with
  | None => None
  | Some m =>
      if decide (length xs ≤ 1) then None
      else Some (Sqrt (Qc_sum (map (λ x, (x - m) * (x - m)) xs)
                       / Qc_of_nat (length xs - 1))%Qc)
  end.

(** [pd.api.types.is_numeric_dtype(series)] *)
Definition is_numeric_dtype (series : Series) : bool :=
  bool_decide (dtype series ∈ number).

(** [float(x)] on the result of a reduction, [None] standing for a missing
    result: a numpy column answers [nan], which [float] takes; a masked
    column answers [pd.NA], which [float] rejects. *)
Definition float_of {A} (series : Series) (x : option A) : outcome error (option A) :=
  match x with
  | Some a => Return (Some a)
  | None =>
      if decide (dtype series = DNullableNumber) then Raise TypeError
      else Return None
  end.

Section Validation.
Context {scalars : Scalars}.

(** [str(v)] of a cell, as [astype(str)] does. *)
Definition py_str (v : value) : string :=
  match v with
  | NA => "nan"
  | Str s => s
  | Num q => str_of_number q
  end.

(** [series.dropna()] *)
Definition dropna (vs : list value) : list value :=
  filter (λ v, notna v = true) vs.

Definition profile_step (df : DataFrame) (profiles : list Profile.t)
    (column_name : string) : outcome error (list Profile.t) :=
  match get_column df column_name with
  | None => Return profiles
  | Some series =>
      (* [int(series.notna().sum())] when [df[column_name]] is a frame *)
      if decide (repeated df column_name) then Raise TypeError
      else
        let non_null_count := mask_sum (map notna (values series)) in
        let null_count := mask_sum (map isna (values series)) in
        let total_count := length (values series) in
        let null_pct :=
          if decide (total_count = 0) then 0%Qc
          else (Qc_of_nat null_count / Qc_of_nat total_count)%Qc in
        let num_unique := length (unique (dropna (values series))) in
        let dtype_str := dtype series in
        try! summary :=
          if is_numeric_dtype series then
            try! min := (if decide (non_null_count = 0) then Return None
                         else float_of series (series_min (values series))) in
            try! max := (if decide (non_null_count = 0) then Return None
                         else float_of series (series_max (values series))) in
            try! mean := (if decide (non_null_count = 0) then Return None
                          else float_of series (series_mean (values series))) in
            try! std := (if decide (non_null_count = 0) then Return None
                         else float_of series (series_std (values series))) in
            Return (Numeric min max mean std)
          else
            let sample_values :=
              take 5 (unique (map py_str (dropna (values series)))) in
            Return (Samples (join ", " sample_values)) in
        Return (profiles ++ [ {| Profile.column_name := column_name;
                                 Profile.dtype := dtype_str;
                                 Profile.count := total_count;
                                 Profile.non_null_count := non_null_count;
                                 Profile.null_count := null_count;
                                 Profile.null_pct := round6 null_pct;
                                 Profile.num_unique := num_unique;
                                 Profile.summary := summary |} ])
  end.

(** The loop of [profile_columns], with [profiles] as its state. *)
Fixpoint profile_loop (df : DataFrame) (column_names : list string)
    (profiles : list Profile.t) : outcome error (list Profile.t) :=
  match column_names with
  | [] => Return profiles
  | column_name :: rest =>
      try! profiles := profile_step df profiles column_name in
      profile_loop df rest profiles
  end.

Definition profile_columns (df : DataFrame) : outcome error (list Profile.t) :=
  let profiles := [] in
  profile_loop df (map name (columns df)) profiles.

(** [round(count / len(df), 6) if len(df) else 0.0] *)
Definition pct_of (count : nat) (df : DataFrame) : Qc :=
  if decide (len df = 0) then 0%Qc
  else round6 (Qc_of_nat count / Qc_of_nat (len df))%Qc.

(** The names [os.listdir] gives that end in [.csv] and are not outputs
    of the pipeline; the empty set when listing fails. *)
Definition allowed_files (fs : FileSystem) : gset string :=
  match listdir fs with
  | Some names =>
      list_to_set
        (filter (λ name, endswith (str_lower name) ".csv" = true
                         ∧ name ∉ excluded_filenames) names)
  | None => ∅
  end.

(** 1) Missing data by column *)
Definition missing_step (df : DataFrame) (issues : list Issue.t)
    (column_name : string) : list Issue.t :=
  match get_column df column_name with
  | None => issues
  | Some series =>
      let null_count := mask_sum (map isna (values series)) in
      if decide (0 < null_count) then
        issues ++ [ {| Issue.issue_type := "missing_values";
                       Issue.column := column_name;
                       Issue.count := null_count;
                       Issue.pct := pct_of null_count df;
                       Issue.details := Text "Column contains missing values" |} ]
      else issues
  end.

(** [v < 0] on one cell; a null compares false. *)
Definition is_negative (v : value) : bool :=
  match v with
  | Num q => bool_decide (q < 0)%Qc
  | _ => false
  end.

(** 2) Negative values for numeric columns *)
Definition negative_step (df : DataFrame) (issues : list Issue.t)
    (column_name : string) : list Issue.t :=
  match get_column df column_name with
  | None => issues
  | Some series =>
      let neg_mask := map is_negative (values series) in
      let neg_count := mask_sum neg_mask in
      if decide (0 < neg_count) then
        let sample_idx := take 10 (mask_select neg_mask (index df)) in
        issues ++ [ {| Issue.issue_type := "negative_values";
                       Issue.column := column_name;
                       Issue.count := neg_count;
                       Issue.pct := pct_of neg_count df;
                       Issue.details := SampleRowIndices sample_idx |} ]
      else issues
  end.

(** [sf_series.str.strip() == ""] on one cell; a null compares false. *)
Definition is_blank (v : value) : bool :=
  match v with
  | Str s => bool_decide (str_strip s = "")
  | _ => false
  end.

(** [~sf_series.isna() & ~sf_series.isin(list(allowed_files))] on one cell. *)
Definition is_invalid (allowed : gset string) (v : value) : bool :=
  match v with
  | Str s => bool_decide (s ∉ allowed)
  | _ => false
  end.

(** The strings of a string series, nulls skipped. *)
Definition strings (vs : list value) : list string :=
  omap (λ v, match v with Str s => Some s | _ => None end) vs.

(** 3) source_file integrity *)
Definition source_file_check (df : DataFrame) (allowed : gset string)
    (issues : list Issue.t) : list Issue.t :=
  match get_column df "source_file" with
  | None =>
      issues ++ [ {| Issue.issue_type := "source_file_missing";
                     Issue.column := "source_file";
                     Issue.count := len df;
                     Issue.pct := if decide (len df = 0) then 0%Qc else 1%Qc;
                     Issue.details := Text "Column 'source_file' not found" |} ]
  | Some series =>
      let sf_series := map astype_string (values series) in
      let null_count := mask_sum (map isna sf_series) in
      let issues :=
        if decide (0 < null_count) then
          issues ++ [ {| Issue.issue_type := "source_file_null";
                         Issue.column := "source_file";
                         Issue.count := null_count;
                         Issue.pct := pct_of null_count df;
                         Issue.details := Text "Null values present in 'source_file'" |} ]
        else issues in
      let empty_count := mask_sum (map is_blank sf_series) in
      let issues :=
        if decide (0 < empty_count) then
          issues ++ [ {| Issue.issue_type := "source_file_empty";
                         Issue.column := "source_file";
                         Issue.count := empty_count;
                         Issue.pct := pct_of empty_count df;
                         Issue.details := Text "Empty string values present in 'source_file'" |} ]
        else issues in
      if decide (allowed ≠ ∅) then
        let invalid_mask := map (is_invalid allowed) sf_series in
        let invalid_count := mask_sum invalid_mask in
        if decide (0 < invalid_count) then
          let sample_vals :=
            take 10 (unique (strings (mask_select invalid_mask sf_series))) in
          issues ++ [ {| Issue.issue_type := "source_file_invalid";
                         Issue.column := "source_file";
                         Issue.count := invalid_count;
                         Issue.pct := pct_of invalid_count df;
                         Issue.details := ValuesNotInDir sample_vals |} ]
        else issues
      else issues
  end.

(** 4) Duplicate rows *)
Definition duplicate_check (df : DataFrame) (issues : list Issue.t) : list Issue.t :=
  let dup_count := mask_sum (duplicated df) in
  if decide (0 < dup_count) then
    issues ++ [ {| Issue.issue_type := "duplicate_rows";
                   Issue.column := "";
                   Issue.count := dup_count;
                   Issue.pct := pct_of dup_count df;
                   Issue.details := Text "Exact duplicate rows detected" |} ]
  else issues.

Definition gather_validation_issues (df : DataFrame) (fs : FileSystem) : list Issue.t :=
  let issues := [] in
  let allowed_files := allowed_files fs in
  let issues := fold_left (missing_step df) (map name (columns df)) issues in
  let issues :=
    fold_left (negative_step df) (map name (select_dtypes number df)) issues in
  let issues := source_file_check df allowed_files issues in
  let issues := duplicate_check df issues in
  issues.

(** ** The pipeline

    [main] threads the directory through its steps; a step either returns
    a value and the new state of the directory, or raises and leaves the
    directory as the steps before it made it.  Logging, the run identifier
    and the optional DuckDB export do not touch the directory and are left
    out; writing a file is taken to succeed. *)

Definition M (A : Type) : Type :=
  FileSystem → outcome (error * FileSystem) (A * FileSystem).

Definition ret {A} (a : A) : M A := λ fs, Return (a, fs).

Definition bind {A B} (m : M A) (k : A → M B) : M B :=
  λ fs, match m fs with
        | Raise e => Raise e
        | Return (a, fs') => k a fs'
        end.

Notation "'let!' x := m 'in' k" := (bind m (λ x, k))
  (at level 10, x name, m at level 100, k at level 200).

(** A step that reads the directory. *)
Definition reading {A} (f : FileSystem → outcome error A) : M A :=
  λ fs, match f fs with
        | Raise e => Raise (e, fs)
        | Return a => Return (a, fs)
        end.

(** A step that computes on tables only. *)
Definition computing {A} (r : outcome error A) : M A :=
  reading (λ _, r).

(** A step that writes one file and returns its name. *)
Definition writing (file_name : string) (table : Table) : M string :=
  λ fs, Return (file_name, to_csv file_name table fs).

Definition save_merged_dataframe (df : DataFrame) : M string :=
  writing "FAF5_MERGED.csv" (Frame df).

Definition save_cleaned_dataframe (df : DataFrame) : M string :=
  writing "FAF5_MERGED_CLEANED.csv" (Frame df).

Definition save_validation_profiles (df_profile : list Profile.t) : M string :=
  writing "FAF5_VALIDATION_COLUMNS.csv" (Profiles df_profile).

Definition save_validation_issues (df_issues : list Issue.t) : M string :=
  writing "FAF5_VALIDATION_ISSUES.csv" (Issues df_issues).

(** [clean_dataframe(merged_df)] as [main] runs it.  The cleaning steps
    are modelled on tables whose labels are distinct; [main] is where a
    table that repeats a label can arise, from a clash of a suffixed name
    in [normalize_column_names].  There [df[label]] answers with a frame:
    in [strip_and_standardize_strings] its [.str] raises AttributeError
    for an object column, and in [convert_mostly_numeric_columns] the test
    [non_null_mask.sum() == 0] raises ValueError for a text column that
    got that far.  Columns of other dtypes are not read by label. *)
Definition run_clean_dataframe (df : DataFrame) : outcome error DataFrame :=
  let step1 := normalize_column_names df in
  if decide (Exists (λ c, dtype c = DObject ∧ repeated step1 (name c)) (columns step1))
  then Raise AttributeError
  else
    let step2 := strip_and_standardize_strings step1 in
    if decide (Exists (λ c, dtype c ∈ [DObject; DString] ∧ repeated step2 (name c))
                      (columns step2))
    then Raise ValueError
    else Return (clean_dataframe df).

(** The validation reports of [main]: computed and written once inside
    the [try] block and once more after it. *)
Definition validation_reports (cleaned_df : DataFrame) : M unit :=
  let! profile_df := computing (profile_columns cleaned_df) in
  let! issues_df := reading (λ fs, Return (gather_validation_issues cleaned_df fs)) in
  let! profile_path := save_validation_profiles profile_df in
  let! issues_path := save_validation_issues issues_df in
  ret ().

Definition main : M unit :=
  let! merged_df := reading read_all_faf5_csvs in
  if empty merged_df then ret ()
  else
    let! merged_output_path := save_merged_dataframe merged_df in
    let! cleaned_df := computing (run_clean_dataframe merged_df) in
    let! cleaned_output_path := save_cleaned_dataframe cleaned_df in
    let! _ := validation_reports cleaned_df in
    validation_reports cleaned_df.
End Validation.

(** ** The words of the specification

    Column-name normalisation as the specification puts it: lowercase,
    trim, replace every non-alphanumeric character with [_], collapse runs
    of [_] to one, trim leading and trailing [_]; an empty result becomes
    the literal [column]. *)

Fixpoint collapse_runs (s : chars) : chars :=
  match s with
  | [] => []
  | c :: r =>
      if is_underscore c && match r with d :: _ => is_underscore d | [] => false end
      then collapse_runs r
      else c :: collapse_runs r
  end.

Definition normalize_spec (name : chars) : chars :=
  let lowered := map lower_char name in
  let trimmed := strip isspace lowered in
  let replaced := map (λ c, if isalnum c then c else underscore) trimmed in
  let collapsed := collapse_runs replaced in
  let result := strip is_underscore collapsed in
  if decide (result = []) then column_literal else result.

(** A character of a normalised name: [_], or alphanumeric and unchanged
    by [lower]. *)
Definition normal_char (c : ascii) : Prop :=
  c = underscore ∨ (isalnum c = true ∧ lower_char c = c).

(** A name in normalised form: not empty, made of normalised characters,
    without two [_] in a row and without [_] at either end. *)
Definition is_normalized (s : chars) : Prop :=
  s ≠ []
  ∧ Forall normal_char s
  ∧ has_dunder s = false
  ∧ head s ≠ Some underscore
  ∧ last s ≠ Some underscore.

(** ** A concrete instance of the scalar conversions

    Signed decimal integers are parsed, integers print in decimal and
    other rationals as [num/den], and rounding is to the nearest millionth
    (half up). *)

Definition digit_of (c : ascii) : option Z :=
  if in_range 48 57 c then Some (Z.of_N (code c) - 48)%Z else None.

Fixpoint digits_value (acc : Z) (s : chars) : option Z :=
  match s with
  | [] => Some acc
  | c :: r =>
      match digit_of c with
      | Some d => digits_value (10 * acc + d)%Z r
      | None => None
      end
  end.

Definition parse_integer (s : string) : option Qc :=
  match String.list_ascii_of_string s with
  | [] => None
  | c :: r =>
      if decide (c = "-"%char) then
        match r with
        | [] => None
        | _ => (λ z, Q2Qc (inject_Z (- z))) <$> digits_value 0 r
        end
      else (λ z, Q2Qc (inject_Z z)) <$> digits_value 0 (c :: r)
  end.

Definition print_number (q : Qc) : string :=
  if decide (Qden q = 1%positive) then pretty (Qnum q)
  else pretty (Qnum q) +:+ "/" +:+ pretty (Qden q).

Definition round_millionth (q : Qc) : Qc :=
  Q2Qc ((Qnum q * 2000000 + Zpos (Qden q)) / (2 * Zpos (Qden q)) # 1000000).

Definition decimal_scalars : Scalars :=
  {| to_number := parse_integer;
     str_of_number := print_number;
     round6 := round_millionth |}.

(** ** Notions used in the statements

    The predicates and the records the theorems are stated with, and the
    frames and directories used as examples. *)

Section Notions.
Context {scalars : Scalars}.

(** *** Tables *)

(** The labels of a table are pairwise distinct. *)
Definition unique_labels (df : DataFrame) : Prop :=
  NoDup (map name (columns df)).

#[global] Instance unique_labels_dec df : Decision (unique_labels df).
Proof. unfold unique_labels. apply _. Defined.

(** The invariant of the data model: every column has one cell per row
    label. *)
Definition aligned (df : DataFrame) : Prop :=
  Forall (λ c, length (values c) = len df) (columns df).

#[global] Instance aligned_dec df : Decision (aligned df).
Proof. unfold aligned. apply _. Defined.

(** A table is its columns: its row count is their common length and row
    [i] is made of the cells at position [i]. *)
Definition nrows (df : DataFrame) : nat :=
  match columns df with
  | [] => 0
  | c :: _ => length (values c)
  end.

Definition rows (df : DataFrame) : list (list value) :=
  map (row_at df) (seq 0 (nrows df)).

(** The same on bare columns. *)
Definition cells_at (cols : list (list value)) (i : nat) : list value :=
  map (λ vs, nth i vs NA) cols.

Definition rows_of (cols : list (list value)) (n : nat) : list (list value) :=
  map (cells_at cols) (seq 0 n).

(** The rows that are not marked. *)
Definition kept (seen rows : list (list value)) : list (list value) :=
  mask_select (map negb (duplicated_go seen rows)) rows.

(** [for label in labels: df[label] = g(df[label])], where [g] may also
    leave the column alone: one turn, and its effect on a column. *)
Definition update_step (g : Series → option Series) (df : DataFrame)
    (label : string) : DataFrame :=
  match get_column df label with
  | None => df
  | Some s =>
      match g s with
      | Some s' => set_column df label s'
      | None => df
      end
  end.

Definition updated (g : Series → option Series) (c : Series) : Series :=
  match g c with
  | Some s' => {| name := name c; dtype := dtype s'; values := values s' |}
  | None => c
  end.

(** *** Names and directory entries *)

(** Normal form of a name is decidable. *)
#[global] Instance normal_char_dec c : Decision (normal_char c).
Proof. unfold normal_char. apply _. Defined.

#[global] Instance is_normalized_dec s : Decision (is_normalized s).
Proof. unfold is_normalized. apply _. Defined.

(** The rule both [read_all_faf5_csvs] and [gather_validation_issues] apply
    to a directory entry. *)
Definition eligible (file_name : string) : Prop :=
  endswith (str_lower file_name) ".csv" = true ∧ file_name ∉ excluded_filenames.

#[global] Instance eligible_dec file_name : Decision (eligible file_name).
Proof. unfold eligible. apply _. Defined.

(** *** Numeric coercion *)

(** A non-null cell that parses as a number. *)
Definition parses_as_number (v : value) : Prop :=
  match v with
  | NA => False
  | Num _ => True
  | Str s => is_Some (to_number s)
  end.

#[global] Instance parses_as_number_dec v : Decision (parses_as_number v).
Proof. destruct v; simpl; apply _. Defined.

(** The non-null values of a column, and those that parse. *)
Definition non_null_values (vs : list value) : list value :=
  filter (λ v, v ≠ NA) vs.

Definition parseable_values (vs : list value) : list value :=
  filter parses_as_number vs.

(** Parseable non-null count over total non-null count. *)
Definition parse_ratio (c : Series) : Qc :=
  (Qc_of_nat (length (parseable_values (values c)))
   / Qc_of_nat (length (non_null_values (values c))))%Qc.

(** A text or mixed column. *)
Definition is_text (c : Series) : Prop := dtype c ∈ [DObject; DString].

(** What one turn of the loop decides for a column. *)
Definition convert_choice (threshold : Qc) (s : Series) : option Series :=
  let non_null_mask := map notna (values s) in
  if decide (mask_sum non_null_mask = 0) then None
  else if decide (threshold ≤ mask_mean
                    (map notna (mask_select non_null_mask (values (to_numeric s)))))%Qc
       then Some (to_numeric s) else None.

(** *** Validation *)

(** A negative cell, a column with a null, a column with a negative cell. *)
Definition negative (v : value) : Prop :=
  match v with
  | Num q => (q < 0)%Qc
  | _ => False
  end.

#[global] Instance negative_dec v : Decision (negative v).
Proof. destruct v; simpl; apply _. Defined.

Definition has_null (c : Series) : Prop := NA ∈ values c.

#[global] Instance has_null_dec c : Decision (has_null c).
Proof. unfold has_null. apply _. Defined.

Definition has_negative (c : Series) : Prop := Exists negative (values c).

#[global] Instance has_negative_dec c : Decision (has_negative c).
Proof. unfold has_negative. apply _. Defined.

(** The counts the first two checks compute. *)
Definition null_count_of (c : Series) : nat := mask_sum (map isna (values c)).

Definition negative_count_of (c : Series) : nat :=
  mask_sum (map is_negative (values c)).

(** The records the first two checks append for a column. *)
Definition missing_issue (df : DataFrame) (c : Series) : Issue.t :=
  {| Issue.issue_type := "missing_values";
     Issue.column := name c;
     Issue.count := null_count_of c;
     Issue.pct := pct_of (null_count_of c) df;
     Issue.details := Text "Column contains missing values" |}.

Definition negative_issue (df : DataFrame) (c : Series) : Issue.t :=
  {| Issue.issue_type := "negative_values";
     Issue.column := name c;
     Issue.count := negative_count_of c;
     Issue.pct := pct_of (negative_count_of c) df;
     Issue.details :=
       SampleRowIndices (take 10 (mask_select (map is_negative (values c)) (index df))) |}.

(** The kinds of issue the source_file check can add. *)
Definition source_file_kinds : list string :=
  ["source_file_missing"; "source_file_null"; "source_file_empty";
   "source_file_invalid"].

(** A non-null cell as the text [astype("string")] gives it. *)
Definition cell_text (v : value) : option string :=
  match v with
  | NA => None
  | Str s => Some s
  | Num q => Some (str_of_number q)
  end.

(** The non-null values of a source_file column, and those that no
    allowed file name matches. *)
Definition source_file_values (c : Series) : list string :=
  omap cell_text (values c).

Definition offending (allowed : gset string) (c : Series) : list string :=
  filter (λ s, s ∉ allowed) (source_file_values c).

(** The record the invalid-value check appends. *)
Definition invalid_issue (df : DataFrame) (allowed : gset string) (c : Series) : Issue.t :=
  {| Issue.issue_type := "source_file_invalid";
     Issue.column := "source_file";
     Issue.count := length (offending allowed c);
     Issue.pct := pct_of (length (offending allowed c)) df;
     Issue.details := ValuesNotInDir (take 10 (unique (offending allowed c))) |}.

(** *** Profiling *)

(** A column of numbers, numpy or masked. *)
Definition is_number (c : Series) : Prop := dtype c ∈ number.

(** What [profile_step] does for a column: the profile it appends, or the
    error it raises. *)
Definition profile_of (c : Series) : outcome error (list Profile.t) :=
  profile_step {| index := []; columns := [c] |} [] (name c).

(** A masked column with a non-null cell and fewer than two numbers: its
    standard deviation is [pd.NA]. *)
Definition too_few_numbers (c : Series) : Prop :=
  dtype c = DNullableNumber
  ∧ non_null_values (values c) ≠ []
  ∧ length (numbers (values c)) < 2.

#[global] Instance too_few_numbers_dec c : Decision (too_few_numbers c).
Proof. unfold too_few_numbers. apply _. Defined.

(** The profile of a column once its summary is known, and the summary
    when [float] takes every statistic. *)
Definition profile_row (c : Series) (summary : Summary) : Profile.t :=
  {| Profile.column_name := name c;
     Profile.dtype := dtype c;
     Profile.count := length (values c);
     Profile.non_null_count := mask_sum (map notna (values c));
     Profile.null_count := mask_sum (map isna (values c));
     Profile.null_pct :=
       round6 (if decide (length (values c) = 0) then 0%Qc
               else (Qc_of_nat (mask_sum (map isna (values c)))
                     / Qc_of_nat (length (values c)))%Qc);
     Profile.num_unique := length (unique (dropna (values c)));
     Profile.summary := summary |}.

Definition summary_of (c : Series) : Summary :=
  if decide (is_number c) then
    if decide (mask_sum (map notna (values c)) = 0) then Numeric None None None None
    else Numeric (series_min (values c)) (series_max (values c))
                 (series_mean (values c)) (series_std (values c))
  else Samples (join ", " (take 5 (unique (map py_str (dropna (values c)))))).

(** A numeric column holds numbers and nulls only. *)
Definition numeric_cells (c : Series) : Prop :=
  Forall (λ v, v = NA ∨ ∃ q, v = Num q) (values c).

(** The non-null values of a column as text, in row order. *)
Definition texts (c : Series) : list string :=
  map py_str (dropna (values c)).

(** What the profile row [p] says about the column [c]. *)
Definition profile_describes (c : Series) (p : Profile.t) : Prop :=
  Profile.column_name p = name c
  ∧ Profile.count p = length (values c)
  ∧ Profile.non_null_count p = length (non_null_values (values c))
  ∧ (is_number c →
       ∃ lo hi avg sd,
         Profile.summary p = Numeric lo hi avg sd
         ∧ (Profile.non_null_count p = 0 →
              lo = None ∧ hi = None ∧ avg = None ∧ sd = None)
         ∧ (numeric_cells c → Profile.non_null_count p ≠ 0 →
              let xs := numbers (values c) in
              let m := (Qc_sum xs / Qc_of_nat (length xs))%Qc in
              length xs = Profile.non_null_count p
              ∧ (∃ x, lo = Some x ∧ x ∈ xs ∧ ∀ y, y ∈ xs → (x ≤ y)%Qc)
              ∧ (∃ x, hi = Some x ∧ x ∈ xs ∧ ∀ y, y ∈ xs → (y ≤ x)%Qc)
              ∧ avg = Some m
              ∧ sd = if decide (length xs ≤ 1) then None
                     else Some (Sqrt (Qc_sum (map (λ x, (x - m) * (x - m)) xs)
                                      / Qc_of_nat (length xs - 1))%Qc)))
  ∧ (¬ is_number c →
       ∃ samples,
         Profile.summary p = Samples (join ", " samples)
         ∧ length samples ≤ 5
         ∧ NoDup samples
         ∧ (∀ s, s ∈ samples → ∃ v, v ∈ values c ∧ v ≠ NA ∧ py_str v = s)
         ∧ (length (unique (texts c)) ≤ 5 →
            ∀ v, v ∈ values c → v ≠ NA → py_str v ∈ samples)
         ∧ (∀ i j s t, samples !! i = Some s → samples !! j = Some t → i < j →
              ∃ k, texts c !! k = Some s ∧ ∀ k', texts c !! k' = Some t → k < k')).

(** *** Renaming *)

(** How many of the labels [before] normalise to [s]. *)
Definition normalized_before (before : list string) (s : string) : nat :=
  length (filter (λ label, normalize_column_name label = s) before).

(** The name a column gets when the columns [before] precede it: its
    normalised name, followed by [_k] when it is the [k]-th column with
    that normalised name and [k] is at least two. *)
Definition new_name (before : list string) (label : string) : string :=
  let normalized := normalize_column_name label in
  let earlier := normalized_before before normalized in
  if decide (earlier = 0) then normalized
  else normalized +:+ "_" +:+ pretty (earlier + 1).

(** The final [rename_map] for the labels that follow [before]. *)
Fixpoint renames (before labels : list string) : list (string * string) :=
  match labels with
  | [] => []
  | label :: rest => (label, new_name before label) :: renames (before ++ [label]) rest
  end.

(** *** Text cells *)

(** A string that begins or ends with a whitespace character. *)
Definition padded (s : string) : Prop :=
  let cs := String.list_ascii_of_string s in
  (∃ c, head cs = Some c ∧ isspace c = true)
  ∨ (∃ c, last cs = Some c ∧ isspace c = true).

(** What [strip_and_standardize_strings] makes of an object column. *)
Definition standardized (c : Series) : Series :=
  {| name := name c; dtype := DString;
     values := map (λ v, empty_to_na (strip_value (astype_string v))) (values c) |}.

(** A cell whose text is empty once stripped. *)
Definition blank (v : value) : Prop :=
  match cell_text v with
  | Some s => str_strip s = ""
  | None => False
  end.

#[global] Instance blank_dec v : Decision (blank v).
Proof. unfold blank. destruct (cell_text v); apply _. Defined.

(** *** Ingestion and the run *)

(** A frame read from [file_name], tagged with its source. *)
Definition tagged (df : DataFrame) (file_name : string) : DataFrame :=
  set_column df "source_file" (broadcast df "source_file" (Str file_name)).

(** What [pd.read_csv] gives for a file that parses. *)
Definition read_frame (fs : FileSystem) (file_name : string) : DataFrame :=
  match read_csv fs file_name with
  | Return df => df
  | Raise _ => empty_frame
  end.

(** The files [read_all_faf5_csvs] reads, in the order it reads them, and
    the frames it concatenates. *)
Definition inputs (names : list string) : list string :=
  filter eligible (sorted names).

Definition input_frames (fs : FileSystem) (names : list string) : list DataFrame :=
  map (λ f, tagged (read_frame fs f) f) (inputs names).

(** The rows of a profile that was returned. *)
Definition returned {A} (r : outcome error (list A)) : list A :=
  match r with
  | Return rows => rows
  | Raise _ => []
  end.

(** The files a complete run of [main] writes, in order: the reports are
    written twice. *)
Definition outputs (fs : FileSystem) (merged_df : DataFrame) : list (string * Table) :=
  let cleaned_df := clean_dataframe merged_df in
  let reports :=
    [ ("FAF5_VALIDATION_COLUMNS.csv", Profiles (returned (profile_columns cleaned_df)));
      ("FAF5_VALIDATION_ISSUES.csv", Issues (gather_validation_issues cleaned_df fs)) ] in
  [ ("FAF5_MERGED.csv", Frame merged_df);
    ("FAF5_MERGED_CLEANED.csv", Frame cleaned_df) ] ++ reports ++ reports.

Definition write_all (files : list (string * Table)) (fs : FileSystem) : FileSystem :=
  fold_left (λ fs file, to_csv file.1 file.2 fs) files fs.

(** *** Examples *)

(** Columns and frames as the tests of the repository build them. *)
Definition numbers_column (label : string) (cells : list Z) : Series :=
  {| name := label; dtype := DNumber;
     values := map (λ z, Num (Q2Qc (inject_Z z))) cells |}.

Definition float_column (label : string) (cells : list value) : Series :=
  {| name := label; dtype := DNumber; values := cells |}.

Definition object_column (label : string) (cells : list value) : Series :=
  {| name := label; dtype := DObject; values := cells |}.

Definition frame (cols : list Series) : DataFrame :=
  {| index := seq 0 (match cols with [] => 0 | c :: _ => length (values c) end);
     columns := cols |}.

(** A column of strings. *)
Definition text_column (label : string) (cells : list string) : Series :=
  {| name := label; dtype := DObject; values := map Str cells |}.

(** The column [{"a": ["1", "2", "x", None]}]. *)
Definition column_a : Series :=
  {| name := "a"; dtype := DObject; values := [Str "1"; Str "2"; Str "x"; NA] |}.

Definition frame_a : DataFrame :=
  {| index := [0; 1; 2; 3]; columns := [column_a] |}.

(** A frame with a repeated row. *)
Definition repeated_rows_frame : DataFrame :=
  {| index := [0; 1; 2; 3];
     columns := [ {| name := "a"; dtype := DNumber;
                     values := [Num 1%Qc; Num 2%Qc; Num 1%Qc; NA] |};
                  {| name := "b"; dtype := DObject;
                     values := [Str "x"; NA; Str "x"; NA] |} ] |}.

(** Directories: one with a file that does not parse, one holding only
    outputs, one with names in mixed case. *)
Definition one_row_frame : DataFrame :=
  {| index := [0];
     columns := [ {| name := "qty"; dtype := DNumber; values := [Num 1%Qc] |} ] |}.

Definition broken_dir : FileSystem :=
  {| isdir := true;
     listdir := Some ["b.csv"; "a.csv"; "notes.txt"];
     read_csv := λ f, if decide (f = "b.csv") then Raise "EmptyDataError"
                      else Return one_row_frame;
     written := [] |}.

Definition outputs_only_dir : FileSystem :=
  {| isdir := true;
     listdir := Some ["FAF5_MERGED.csv"; "readme.txt"];
     read_csv := λ _, Return one_row_frame;
     written := [] |}.

Definition mixed_case_dir : FileSystem :=
  {| isdir := true;
     listdir := Some ["faf5_merged.csv"; "FAF5_MERGED.csv"; "notes.txt"; "DATA.CSV"];
     read_csv := λ _, Return one_row_frame;
     written := [] |}.

(** The frame and a directory of [test_gather_validation_issues]. *)
Definition test_frame : DataFrame :=
  {| index := [0; 1; 2];
     columns := [ {| name := "source_file"; dtype := DObject;
                     values := [Str "a.csv"; NA; Str "bad.csv"] |};
                  {| name := "qty"; dtype := DNumber;
                     values := [Num 1%Qc; Num (Q2Qc (-1)); Num (Q2Qc 2)] |} ] |}.

Definition test_dir : FileSystem :=
  {| isdir := true;
     listdir := Some ["a.csv"; "FAF5_MERGED.csv"];
     read_csv := λ _, Return one_row_frame;
     written := [] |}.

(** A frame whose only source file is unknown, and a directory without
    CSV input. *)
Definition bad_source_column : Series :=
  {| name := "source_file"; dtype := DObject; values := [Str "bad.csv"] |}.

Definition bad_source_frame : DataFrame :=
  {| index := [0]; columns := [bad_source_column] |}.

Definition no_csv_dir : FileSystem :=
  {| isdir := true;
     listdir := Some ["notes.txt"; "FAF5_MERGED.csv"];
     read_csv := λ _, Return one_row_frame;
     written := [] |}.

(** What [pd.read_csv] gives for a file holding only a header line, and a
    directory of such files. *)
Definition header_only_frame : DataFrame :=
  {| index := [];
     columns := [ {| name := "qty"; dtype := DObject; values := [] |} ] |}.

Definition header_only_dir : FileSystem :=
  {| isdir := true;
     listdir := Some ["a.csv"; "notes.txt"];
     read_csv := λ _, Return header_only_frame;
     written := [] |}.

(** The merged table of [mixed_case_dir], and the same files listed in
    another order beside another entry. *)
Definition mixed_case_merged : DataFrame :=
  {| index := [0; 1];
     columns := [ {| name := "qty"; dtype := DNumber;
                     values := [Num 1%Qc; Num 1%Qc] |};
                  {| name := "source_file"; dtype := DObject;
                     values := [Str "DATA.CSV"; Str "faf5_merged.csv"] |} ] |}.

(** A text column with one value that parses, and the masked column
    cleaning makes of it. *)
Definition lone_text_frame : DataFrame :=
  {| index := [0];
     columns := [ {| name := "n"; dtype := DObject; values := [Str "5"] |} ] |}.

Definition lone_number_frame : DataFrame :=
  {| index := [0];
     columns := [ {| name := "n"; dtype := DNullableNumber;
                     values := [Num (Q2Qc 5)] |} ] |}.




Definition relisted_dir : FileSystem :=
  {| isdir := true;
     listdir := Some ["DATA.CSV"; "readme.md"; "faf5_merged.csv"];
     read_csv := λ _, Return one_row_frame;
     written := [] |}.
End Notions.

(** * Properties *)

(** ** The tests of the repository

    [tests/test_cleaning.py] and [tests/test_validation.py], replayed on
    the embedding with the concrete scalar conversions. *)

Module Tests.
#[local] Existing Instance decimal_scalars.

Example test_normalize_column_names :
  map name (columns (normalize_column_names
                       (frame [numbers_column "Total Cost ($)" [1%Z];
                               object_column "SKU-ID" [Str "A"]])))
  = ["total_cost"; "sku_id"].
Proof. by vm_compute. Qed.

Example test_strip_and_standardize_strings :
  get_column (strip_and_standardize_strings
                (frame [object_column "a" [Str " x "; Str ""; NA];
                        numbers_column "b" [1; 2; 3]%Z])) "a"
  = Some {| name := "a"; dtype := DString; values := [Str "x"; NA; NA] |}.
Proof. by vm_compute. Qed.

Example test_convert_mostly_numeric_columns :
  map dtype (columns (convert_mostly_numeric_columns
                        (frame [object_column "a" [Str "1"; Str "2"; Str "x"; NA];
                                object_column "b" [Str "x"; Str "y"; Str "z"; NA]])
                        (Q2Qc (1 # 2))))
  = [DNumber; DObject].
Proof. by vm_compute. Qed.

Example test_drop_empty_columns :
  map name (columns (drop_empty_columns
                       (frame [object_column "a" [NA; NA];
                               float_column "b" [Num 1%Qc; NA]])))
  = ["b"].
Proof. by vm_compute. Qed.

Example test_remove_duplicate_rows :
  len (remove_duplicate_rows
         (frame [numbers_column "a" [1; 1]%Z; numbers_column "b" [2; 2]%Z]))
  = 1.
Proof. by vm_compute. Qed.

Example test_clean_dataframe_end_to_end :
  let out := clean_dataframe
               (frame [object_column " Total Cost ($) " [Str "10 "; Str " 10"; Str ""];
                       object_column "SKU-ID" [Str " A "; Str "A"; Str "B"];
                       object_column "empty" [NA; NA; NA]]) in
  map name (columns out) = ["total_cost"; "sku_id"] ∧ len out = 2.
Proof. by vm_compute. Qed.

Example test_profile_columns_basic :
  match profile_columns
          (frame [float_column "a" [Num 1%Qc; Num (Q2Qc 2); NA];
                  object_column "b" [Str "x"; NA; Str "y"]]) with
  | Return prof =>
      length prof = 2
      ∧ map Profile.count prof = [3; 3]
      ∧ map Profile.null_count prof = [1; 1]
  | Raise _ => False
  end.
Proof. by vm_compute. Qed.

Example test_gather_validation_issues :
  let issues :=
    gather_validation_issues
      (frame [object_column "source_file" [Str "a.csv"; NA; Str "bad.csv"];
              numbers_column "qty" [1; -1; 2]%Z])
      {| isdir := true; listdir := Some []; read_csv := λ _, Raise "";
         written := [] |} in
  "negative_values" ∈ map Issue.issue_type issues
  ∧ "source_file_null" ∈ map Issue.issue_type issues.
Proof. cbv zeta. split; apply (bool_decide_unpack _); by vm_compute. Qed.
End Tests.

(** ** Characters *)

Ltac by_cases_on_char c :=
  destruct c as [[] [] [] [] [] [] [] []]; vm_compute; by intuition.

Lemma lower_char_idem c : lower_char (lower_char c) = lower_char c.
Proof. by_cases_on_char c. Qed.

Lemma isspace_lower_char c : isspace (lower_char c) = isspace c.
Proof. by_cases_on_char c. Qed.

Lemma isspace_not_isalnum c : isspace c = true → isalnum c = false.
Proof. by_cases_on_char c. Qed.

Lemma is_underscore_true c : is_underscore c = true ↔ c = underscore.
Proof. unfold is_underscore. by rewrite bool_decide_eq_true. Qed.

Lemma is_underscore_false c : is_underscore c = false ↔ c ≠ underscore.
Proof. unfold is_underscore. by rewrite bool_decide_eq_false. Qed.

Lemma normal_char_safe c :
  normal_char (if isalnum (lower_char c) then lower_char c else underscore).
Proof.
  destruct (isalnum (lower_char c)) eqn:E; [right | by left].
  split; [done | apply lower_char_idem].
Qed.

Lemma normal_char_not_space c : normal_char c → isspace c = false.
Proof.
  intros [-> | [Hal _]]; [done |].
  destruct (isspace c) eqn:E; [| done].
  apply isspace_not_isalnum in E. congruence.
Qed.

Lemma normal_char_fixed c :
  normal_char c → (if isalnum (lower_char c) then lower_char c else underscore) = c.
Proof.
  intros [-> | [Hal Hlo]]; [done |]. by rewrite Hlo, Hal.
Qed.

(** ** Stripping *)

Section Strip.
Variable p : ascii → bool.

Lemma lstrip_suffix s :
  ∃ k, s = k ++ lstrip p s ∧ Forall (λ c, p c = true) k.
Proof.
  induction s as [|c r [k [Hk Hall]]]; [by exists [] |]. simpl.
  destruct (p c) eqn:E.
  - exists (c :: k). split; [by rewrite Hk at 1 | by constructor].
  - by exists [].
Qed.

Lemma lstrip_head s c : head (lstrip p s) = Some c → p c = false.
Proof.
  induction s as [|d r IH]; [done |]. simpl.
  destruct (p d) eqn:E; [done |]. simpl. congruence.
Qed.

Lemma lstrip_fixed s : (∀ c, head s = Some c → p c = false) → lstrip p s = s.
Proof. destruct s as [|c r]; [done |]. intros H. simpl. by rewrite (H c). Qed.

Lemma rstrip_prefix s :
  ∃ k, s = rstrip p s ++ k ∧ Forall (λ c, p c = true) k.
Proof.
  unfold rstrip. destruct (lstrip_suffix (reverse s)) as [k [Hk Hall]].
  exists (reverse k). split; [| by apply Forall_reverse].
  rewrite <- reverse_app, <- Hk. by rewrite reverse_involutive.
Qed.

Lemma rstrip_last s c : last (rstrip p s) = Some c → p c = false.
Proof. unfold rstrip. rewrite last_reverse. apply lstrip_head. Qed.

Lemma rstrip_fixed s : (∀ c, last s = Some c → p c = false) → rstrip p s = s.
Proof.
  intros H. unfold rstrip. rewrite lstrip_fixed; [apply reverse_involutive |].
  intros c. rewrite head_reverse. apply H.
Qed.

Lemma strip_infix s : ∃ k1 k2, s = k1 ++ strip p s ++ k2.
Proof.
  unfold strip. destruct (lstrip_suffix s) as [k1 [H1 _]].
  destruct (rstrip_prefix (lstrip p s)) as [k2 [H2 _]].
  exists k1, k2. by rewrite <- H2.
Qed.

Lemma strip_head s c : head (strip p s) = Some c → p c = false.
Proof.
  unfold strip. destruct (rstrip_prefix (lstrip p s)) as [k [Hk _]].
  intros Hh. apply (lstrip_head s). rewrite Hk.
  destruct (rstrip p (lstrip p s)); [done | exact Hh].
Qed.

Lemma strip_last s c : last (strip p s) = Some c → p c = false.
Proof. apply rstrip_last. Qed.

Lemma strip_fixed s :
  (∀ c, head s = Some c → p c = false) →
  (∀ c, last s = Some c → p c = false) →
  strip p s = s.
Proof. intros Hh Hl. unfold strip. rewrite lstrip_fixed by done. by apply rstrip_fixed. Qed.

Lemma strip_Forall (P : ascii → Prop) s : Forall P s → Forall P (strip p s).
Proof.
  destruct (strip_infix s) as [k1 [k2 Hs]]. rewrite Hs at 1.
  rewrite !Forall_app. tauto.
Qed.

End Strip.

Lemma lstrip_map (p : ascii → bool) (f : ascii → ascii) s :
  (∀ c, p (f c) = p c) → lstrip p (map f s) = map f (lstrip p s).
Proof.
  intros Hpf. induction s as [|c r IH]; [done |]. simpl.
  rewrite Hpf. by destruct (p c).
Qed.

Lemma strip_map (p : ascii → bool) (f : ascii → ascii) s :
  (∀ c, p (f c) = p c) → strip p (map f s) = map f (strip p s).
Proof.
  intros Hpf. unfold strip, rstrip.
  rewrite (lstrip_map p f s Hpf).
  change (map f) with (fmap (M := list) f).
  rewrite <- fmap_reverse.
  change (fmap (M := list) f) with (map f).
  rewrite (lstrip_map p f _ Hpf).
  change (map f) with (fmap (M := list) f).
  by rewrite fmap_reverse.
Qed.

(** ** Collapsing runs of underscores *)

Lemma chars_pair_ind (P : chars → Prop) :
  P [] → (∀ c, P [c]) →
  (∀ c d t, P t → P (d :: t) → P (c :: d :: t)) →
  ∀ s, P s.
Proof.
  intros Hnil Hone Hstep.
  cut (∀ s, P s ∧ ∀ c, P (c :: s)); [intros H s; apply H |].
  induction s as [|d t [IH1 IH2]]; [by split |].
  split; [apply IH2 |]. intros c. by apply Hstep.
Qed.

Lemma has_dunder_cons c d t :
  has_dunder (c :: d :: t)
  = (is_underscore c && is_underscore d) || has_dunder (d :: t).
Proof. done. Qed.

Lemma replace_dunder_cons c d t :
  replace_dunder (c :: d :: t)
  = if is_underscore c && is_underscore d
    then underscore :: replace_dunder t
    else c :: replace_dunder (d :: t).
Proof. done. Qed.

Lemma has_dunder_app a b :
  has_dunder (a ++ b) = false → has_dunder a = false ∧ has_dunder b = false.
Proof.
  induction a as [|c [|d a'] IH].
  - done.
  - destruct b as [|d t]; [done |]. change ([c] ++ d :: t) with (c :: d :: t).
    rewrite has_dunder_cons. intros [_ H]%orb_false_iff. done.
  - change ((c :: d :: a') ++ b) with (c :: d :: (a' ++ b)).
    rewrite !has_dunder_cons. intros [Hcd H]%orb_false_iff.
    destruct (IH H) as [Ha Hb]. by rewrite Hcd, Ha.
Qed.

Lemma has_dunder_infix k1 s k2 :
  has_dunder (k1 ++ s ++ k2) = false → has_dunder s = false.
Proof. intros [_ [H _]%has_dunder_app]%has_dunder_app. done. Qed.

Lemma replace_dunder_measure s :
  length (replace_dunder s) ≤ length s
  ∧ (has_dunder s = true → length (replace_dunder s) < length s).
Proof.
  induction s as [|c|c d t [IHt _] [IHd IHd']] using chars_pair_ind;
    [by simpl; split; [lia |] ..|].
  rewrite has_dunder_cons, replace_dunder_cons.
  destruct (is_underscore c && is_underscore d); simpl in *.
  - split; [lia | intros _; lia].
  - split; [lia | intros H; specialize (IHd' H); lia].
Qed.

Lemma replace_dunder_Forall (P : ascii → Prop) s :
  P underscore → Forall P s → Forall P (replace_dunder s).
Proof.
  intros Hu. induction s as [|c|c d t IHt IHd] using chars_pair_ind; [done .. |].
  rewrite replace_dunder_cons. intros Hall.
  apply Forall_cons in Hall as [Hc Hall].
  pose proof Hall as [Hd Ht]%Forall_cons.
  destruct (is_underscore c && is_underscore d); constructor; auto.
Qed.

Lemma replace_dunder_head s : head (replace_dunder s) = head s.
Proof.
  destruct s as [|c [|d t]]; [done .. |]. rewrite replace_dunder_cons.
  destruct (is_underscore c && is_underscore d) eqn:E; [| done].
  apply andb_true_iff in E as [->%is_underscore_true _]. done.
Qed.

Lemma collapse_loop_eq s :
  collapse_loop s = if has_dunder s then collapse_loop (replace_dunder s) else s.
Proof. funelim (collapse_loop s); by rewrite e. Qed.

(** The loop ends with the property the loop test asks for, whatever the
    input. *)
Lemma collapse_loop_ind (P : chars → chars → Prop) :
  (∀ s, has_dunder s = false → P s s) →
  (∀ s r, has_dunder s = true → P (replace_dunder s) r → P s r) →
  ∀ s, P s (collapse_loop s).
Proof.
  intros Hstop Hturn s.
  induction s as [s IH] using (induction_ltof1 _ (@length ascii)).
  unfold ltof in IH. rewrite collapse_loop_eq.
  destruct (has_dunder s) eqn:E; [| by apply Hstop].
  apply Hturn; [done |]. apply IH. by apply replace_dunder_measure.
Qed.

Lemma collapse_loop_no_dunder s : has_dunder (collapse_loop s) = false.
Proof. by apply (collapse_loop_ind (λ _ r, has_dunder r = false)). Qed.

Lemma collapse_loop_fixed s : has_dunder s = false → collapse_loop s = s.
Proof. intros H. by rewrite collapse_loop_eq, H. Qed.

Lemma collapse_loop_Forall (P : ascii → Prop) s :
  P underscore → Forall P s → Forall P (collapse_loop s).
Proof.
  intros Hu. apply (collapse_loop_ind (λ s r, Forall P s → Forall P r)); [done |].
  intros s' r _ IH Hall. by apply IH, replace_dunder_Forall.
Qed.

Lemma collapse_runs_fixed s : has_dunder s = false → collapse_runs s = s.
Proof.
  induction s as [|c [|d t] IH]; [done | |].
  - intros _. simpl. by rewrite andb_false_r.
  - rewrite has_dunder_cons. intros [Hcd H]%orb_false_iff.
    change (collapse_runs (c :: d :: t))
      with (if is_underscore c && is_underscore d
            then collapse_runs (d :: t) else c :: collapse_runs (d :: t)).
    rewrite Hcd. by rewrite IH.
Qed.

Lemma collapse_runs_cons c s :
  collapse_runs (c :: s)
  = if is_underscore c && bool_decide (head s = Some underscore)
    then collapse_runs s else c :: collapse_runs s.
Proof.
  destruct s as [|d t]; simpl; [by rewrite andb_false_r |].
  unfold is_underscore at 2.
  by rewrite (bool_decide_ext (d = underscore) (Some d = Some underscore))
    by (split; congruence).
Qed.

Lemma collapse_runs_replace_dunder s :
  collapse_runs (replace_dunder s) = collapse_runs s.
Proof.
  induction s as [|c|c d t IHt IHd] using chars_pair_ind; [done .. |].
  rewrite replace_dunder_cons.
  destruct (is_underscore c && is_underscore d) eqn:E.
  - apply andb_true_iff in E as [->%is_underscore_true ->%is_underscore_true].
    rewrite (collapse_runs_cons underscore (underscore :: t)).
    simpl head. rewrite bool_decide_eq_true_2 by done.
    change (is_underscore underscore && true) with true. cbv iota.
    rewrite !collapse_runs_cons, replace_dunder_head. by rewrite IHt.
  - rewrite !(collapse_runs_cons c), replace_dunder_head. by rewrite IHd.
Qed.

Lemma collapse_loop_runs s : collapse_loop s = collapse_runs s.
Proof.
  apply (collapse_loop_ind (λ s r, r = collapse_runs s)).
  - intros s' H. by rewrite collapse_runs_fixed.
  - intros s' r _ ->. apply collapse_runs_replace_dunder.
Qed.

(** ** Column-name normalisation *)

Lemma is_normalized_column_literal : is_normalized column_literal.
Proof. by apply (bool_decide_unpack _). Qed.

Lemma normalize_chars_normalized name : is_normalized (normalize_chars name).
Proof.
  unfold normalize_chars.
  set (s1 := map _ (map lower_char (strip isspace name))).
  assert (Forall normal_char s1) as H1.
  { subst s1. rewrite map_map. apply Forall_fmap, Forall_forall.
    intros c _. apply normal_char_safe. }
  assert (Forall normal_char (collapse_loop s1)) as H2
    by (apply collapse_loop_Forall; [by left | done]).
  pose proof (collapse_loop_no_dunder s1) as H3.
  set (s2 := collapse_loop s1) in *.
  pose proof (strip_Forall is_underscore _ _ H2) as H4.
  destruct (strip_infix is_underscore s2) as [k1 [k2 Hk]].
  rewrite Hk in H3. apply has_dunder_infix in H3.
  pose proof (strip_head is_underscore s2) as H5.
  pose proof (strip_last is_underscore s2) as H6.
  destruct (strip is_underscore s2) as [|c r] eqn:E;
    [apply is_normalized_column_literal |].
  repeat split; [done | done | done | |].
  - intros Hh. specialize (H5 _ Hh). by apply is_underscore_false in H5.
  - intros Hl. specialize (H6 _ Hl). by apply is_underscore_false in H6.
Qed.

Lemma normalize_chars_fixed name : is_normalized name → normalize_chars name = name.
Proof.
  intros (Hne & Hall & Hdd & Hh & Hl). unfold normalize_chars.
  rewrite (strip_fixed isspace name).
  - rewrite map_map.
    assert (map (λ c, if isalnum (lower_char c) then lower_char c else underscore) name
            = name) as ->.
    { clear -Hall. induction Hall as [|c r Hc _ IH]; [done |]. simpl.
      by rewrite IH, normal_char_fixed. }
    rewrite collapse_loop_fixed by done.
    rewrite (strip_fixed is_underscore name); [by destruct name | |].
    + intros c Hc. apply is_underscore_false. congruence.
    + intros c Hc. apply is_underscore_false. congruence.
  - intros c Hc. apply normal_char_not_space.
    apply (proj1 (Forall_forall _ _) Hall). apply head_Some_elem_of. done.
  - intros c Hc. apply normal_char_not_space.
    apply (proj1 (Forall_forall _ _) Hall). apply last_Some_elem_of. done.
Qed.

Lemma normalize_chars_spec name : normalize_chars name = normalize_spec name.
Proof.
  unfold normalize_chars, normalize_spec.
  rewrite (strip_map isspace lower_char name isspace_lower_char).
  rewrite collapse_loop_runs.
  destruct (strip is_underscore _); by case_decide.
Qed.

(** C5: [normalize_column_name] is idempotent and leaves every name in
    normalised form unchanged; its result is always in normalised form
    (lowercase alphanumerics and single underscores, no underscore at
    either end, never empty); it computes what the specification words
    (lowercase, trim, replace non-alphanumerics by [_], collapse runs of
    [_], trim [_], empty to ["column"]); and it maps ["  Total Cost ($)  "]
    to ["total_cost"] and ["SKU-ID"] to ["sku_id"]. *)
Theorem normalize_column_name_idempotent :
  (∀ name, normalize_column_name (normalize_column_name name)
           = normalize_column_name name)
  ∧ (∀ name, is_normalized (String.list_ascii_of_string name) →
             normalize_column_name name = name)
  ∧ (∀ name, is_normalized (String.list_ascii_of_string (normalize_column_name name)))
  ∧ (∀ name, String.list_ascii_of_string (normalize_column_name name)
             = normalize_spec (String.list_ascii_of_string name))
  ∧ normalize_column_name "  Total Cost ($)  " = "total_cost"
  ∧ normalize_column_name "SKU-ID" = "sku_id"
  ∧ normalize_column_name " $ " = "column".
Proof.
  assert (∀ name, is_normalized (String.list_ascii_of_string name) →
                  normalize_column_name name = name) as Hfixed.
  { intros name H. unfold normalize_column_name.
    rewrite normalize_chars_fixed by done.
    apply String.string_of_list_ascii_of_string. }
  assert (∀ name, is_normalized
                    (String.list_ascii_of_string (normalize_column_name name)))
    as Hnormal.
  { intros name. unfold normalize_column_name.
    rewrite String.list_ascii_of_string_of_list_ascii.
    apply normalize_chars_normalized. }
  split_and!; try done.
  - intros name. apply Hfixed, Hnormal.
  - intros name. unfold normalize_column_name.
    rewrite String.list_ascii_of_string_of_list_ascii.
    apply normalize_chars_spec.
Qed.

Lemma normalize_column_name_idempotent_witness :
  normalize_column_name "total_cost" = "total_cost".
Proof.
  apply (proj1 (proj2 normalize_column_name_idempotent) "total_cost").
  apply (bool_decide_unpack _). vm_compute. exact I.
Defined.

(** ** Collisions of normalised column names *)

(** C3: on the frame with the columns ["a"], ["A"], ["a_2"] (distinct
    labels) [normalize_column_names] gives the second column the name
    ["a_2"], which the third column keeps too: the resulting names are not
    pairwise distinct. *)
Theorem normalize_column_names_suffix_clash :
  let df := {| index := [0];
               columns := [text_column "a" ["x"]; text_column "A" ["y"];
                           text_column "a_2" ["z"]] |} in
  NoDup (map name (columns df))
  ∧ map name (columns (normalize_column_names df)) = ["a"; "a_2"; "a_2"]
  ∧ ¬ NoDup (map name (columns (normalize_column_names df))).
Proof.
  split_and!.
  - by apply (bool_decide_unpack _).
  - by vm_compute.
  - intros H. by apply (bool_decide_pack _) in H.
Qed.

(** ** Ingestion *)

Lemma read_loop_filter fs file_names dataframes :
  read_loop fs file_names dataframes
  = read_loop fs (filter eligible file_names) dataframes.
Proof.
  revert dataframes. induction file_names as [|f rest IH]; intros acc; [done |].
  destruct (decide (eligible f)) as [[Hcsv Hex] | Hn].
  - rewrite filter_cons_True by done. simpl. rewrite !Hcsv. simpl.
    destruct (decide (f ∈ excluded_filenames)); [done |].
    destruct (read_csv fs f); [done | apply IH].
  - rewrite filter_cons_False by done. simpl.
    destruct (endswith (str_lower f) ".csv") eqn:E; simpl; [| apply IH].
    destruct (decide (f ∈ excluded_filenames)); [apply IH |].
    exfalso. apply Hn. by split.
Qed.

Lemma read_loop_raises fs file_names dataframes e :
  read_loop fs file_names dataframes = Raise e →
  ∃ f exc, e = RuntimeError f exc ∧ f ∈ file_names ∧ eligible f
           ∧ read_csv fs f = Raise exc.
Proof.
  rewrite read_loop_filter.
  assert (Forall eligible (filter eligible file_names)) as Hall
    by (apply Forall_forall; intros f Hf; by apply list_elem_of_filter in Hf as [? _]).
  assert (filter eligible file_names ⊆ file_names) as Hsub
    by (intros f Hf; by apply list_elem_of_filter in Hf as [_ ?]).
  revert Hall Hsub dataframes.
  generalize (filter eligible file_names) as l.
  induction l as [|f rest IH]; intros Hall Hsub acc; [done |].
  apply Forall_cons in Hall as [[Hcsv Hex] Hall]. simpl.
  rewrite Hcsv. simpl. rewrite decide_False by done.
  destruct (read_csv fs f) as [exc | df] eqn:E.
  - intros [= <-]. exists f, exc. split_and!; try done.
    apply Hsub. by left.
  - apply IH; [done |]. intros g Hg. apply Hsub. by right.
Qed.

Lemma read_loop_fails fs file_names dataframes :
  (∃ f exc, f ∈ file_names ∧ eligible f ∧ read_csv fs f = Raise exc) →
  ∃ e, read_loop fs file_names dataframes = Raise e.
Proof.
  intros (f & exc & Hin & Hel & Hraise). revert dataframes.
  induction file_names as [|g rest IH]; intros acc; [by apply elem_of_nil in Hin |].
  simpl. destruct (negb (endswith (str_lower g) ".csv")) eqn:E1.
  { apply elem_of_cons in Hin as [-> | Hin]; [| by apply IH].
    destruct Hel as [Hcsv _]. by rewrite Hcsv in E1. }
  destruct (decide (g ∈ excluded_filenames)) as [Hex | Hex].
  { apply elem_of_cons in Hin as [-> | Hin]; [| by apply IH].
    by destruct Hel as [_ Hout]. }
  destruct (read_csv fs g) as [exc' | df] eqn:E2; [by eexists |].
  apply elem_of_cons in Hin as [-> | Hin]; [congruence | by apply IH].
Qed.

Lemma read_loop_nothing fs file_names dataframes :
  (∀ f, f ∈ file_names → ¬ eligible f) →
  read_loop fs file_names dataframes = Return dataframes.
Proof.
  revert dataframes. induction file_names as [|f rest IH]; intros acc Hnone; [done |].
  rewrite read_loop_filter, filter_cons_False by (apply Hnone; by left).
  rewrite <- read_loop_filter. apply IH. intros g Hg. apply Hnone. by right.
Qed.

Lemma elem_of_sorted f names : f ∈ sorted names ↔ f ∈ names.
Proof. unfold sorted. by rewrite merge_sort_Permutation. Qed.

(** C9: [read_all_faf5_csvs] raises [FileNotFoundError] (the
    specification's DirectoryNotFound) exactly when the path is not a
    directory; when the directory lists and some eligible CSV file cannot
    be parsed it raises [RuntimeError] (CsvParseError) carrying the failure
    of [pd.read_csv] on an eligible file of the directory, so no merged
    frame is returned; and it raises [RuntimeError] in no other case. *)
Theorem read_all_faf5_csvs_errors fs :
  (read_all_faf5_csvs fs = Raise FileNotFoundError ↔ isdir fs = false)
  ∧ (∀ names, isdir fs = true → listdir fs = Some names →
       (∃ f exc, f ∈ names ∧ eligible f ∧ read_csv fs f = Raise exc) →
       ∃ f exc, read_all_faf5_csvs fs = Raise (RuntimeError f exc)
                ∧ f ∈ names ∧ eligible f ∧ read_csv fs f = Raise exc)
  ∧ (∀ f exc, read_all_faf5_csvs fs = Raise (RuntimeError f exc) →
       isdir fs = true
       ∧ ∃ names, listdir fs = Some names ∧ f ∈ names ∧ eligible f
                  ∧ read_csv fs f = Raise exc).
Proof.
  unfold read_all_faf5_csvs. split_and!.
  - destruct (isdir fs); simpl; [| done]. split; [| done].
    destruct (listdir fs) as [names |]; [| done].
    destruct (read_loop fs (sorted names) []) as [e | dfs] eqn:E.
    + apply read_loop_raises in E as (f & exc & -> & _). done.
    + by destruct dfs.
  - intros names -> -> (f & exc & Hin & Hel & Hraise). simpl.
    destruct (read_loop_fails fs (sorted names) []) as [e He].
    { exists f, exc. by rewrite elem_of_sorted. }
    rewrite He. apply read_loop_raises in He as (g & exc' & -> & Hg & Hel' & Hr).
    exists g, exc'. by rewrite elem_of_sorted in Hg.
  - intros f exc. destruct (isdir fs); simpl; [| done].
    destruct (listdir fs) as [names |]; [| done].
    destruct (read_loop fs (sorted names) []) as [e | dfs] eqn:E.
    + intros [= ->]. split; [done |]. exists names.
      apply read_loop_raises in E as (g & exc' & [= <- <-] & Hg & Hel & Hr).
      by rewrite elem_of_sorted in Hg.
    + by destruct dfs.
Qed.

Lemma read_all_faf5_csvs_errors_witness :
  ∃ f exc, read_all_faf5_csvs broken_dir = Raise (RuntimeError f exc)
           ∧ f ∈ ["b.csv"; "a.csv"; "notes.txt"] ∧ eligible f
           ∧ read_csv broken_dir f = Raise exc.
Proof.
  apply (proj1 (proj2 (read_all_faf5_csvs_errors broken_dir))
           ["b.csv"; "a.csv"; "notes.txt"]); [reflexivity | reflexivity |].
  exists "b.csv", "EmptyDataError". split_and!; [| | reflexivity].
  - apply (bool_decide_unpack _). vm_compute. exact I.
  - apply (bool_decide_unpack _). vm_compute. exact I.
Defined.

(** C6: when the directory exists and lists but holds no eligible CSV
    file, [read_all_faf5_csvs] returns the empty frame (no column, no row)
    without raising, and [main] returns at once, leaving the directory as
    it found it: nothing is written. *)
Theorem no_eligible_files_early_exit `{Scalars} fs names :
  isdir fs = true → listdir fs = Some names →
  (∀ f, f ∈ names → ¬ eligible f) →
  read_all_faf5_csvs fs = Return empty_frame
  ∧ columns empty_frame = [] ∧ len empty_frame = 0
  ∧ main fs = Return ((), fs).
Proof.
  intros Hdir Hls Hnone.
  assert (read_all_faf5_csvs fs = Return empty_frame) as Hread.
  { unfold read_all_faf5_csvs. rewrite Hdir, Hls. simpl.
    rewrite read_loop_nothing; [done |].
    intros f Hf. apply Hnone. by apply elem_of_sorted. }
  split_and!; [done .. |].
  unfold main, bind, reading. by rewrite Hread.
Qed.

Lemma no_eligible_files_early_exit_witness :
  read_all_faf5_csvs outputs_only_dir = Return empty_frame
  ∧ columns empty_frame = [] ∧ len empty_frame = 0
  ∧ main (scalars := decimal_scalars) outputs_only_dir = Return ((), outputs_only_dir).
Proof.
  apply (no_eligible_files_early_exit (H := decimal_scalars) outputs_only_dir
           ["FAF5_MERGED.csv"; "readme.txt"]); [reflexivity | reflexivity |].
  intros f Hf Hel.
  apply elem_of_cons in Hf as [-> | Hf]; [by apply (bool_decide_pack _) in Hel |].
  apply elem_of_cons in Hf as [-> | Hf]; [by apply (bool_decide_pack _) in Hel |].
  by apply elem_of_nil in Hf.
Defined.

(** C10: the extension test ignores letter case while the reserved output
    names are matched exactly.  A name that equals a reserved name only up
    to letter case is eligible; so ["faf5_merged.csv"] and ["DATA.CSV"] are
    eligible and ["FAF5_MERGED.csv"] is not, and in a directory listing the
    four names [read_all_faf5_csvs] reads ["faf5_merged.csv"] and merges its
    rows, tagged with that name. *)
Theorem reserved_names_are_case_sensitive :
  (∀ f r, r ∈ excluded_filenames → str_lower f = str_lower r →
          f ∉ excluded_filenames → eligible f)
  ∧ eligible "faf5_merged.csv"
  ∧ eligible "DATA.CSV"
  ∧ ¬ eligible "FAF5_MERGED.csv"
  ∧ read_all_faf5_csvs mixed_case_dir
    = Return {| index := [0; 1];
                columns :=
                  [ {| name := "qty"; dtype := DNumber;
                       values := [Num 1%Qc; Num 1%Qc] |};
                    {| name := "source_file"; dtype := DObject;
                       values := [Str "DATA.CSV"; Str "faf5_merged.csv"] |} ] |}.
Proof.
  split_and!.
  - intros f r Hr Hlow Hout. split; [| done]. rewrite Hlow.
    unfold excluded_filenames in Hr.
    repeat (apply elem_of_cons in Hr as [-> | Hr]; [by vm_compute |]).
    by apply elem_of_nil in Hr.
  - apply (bool_decide_unpack _). vm_compute. exact I.
  - apply (bool_decide_unpack _). vm_compute. exact I.
  - intros H. by apply (bool_decide_pack _) in H.
  - by vm_compute.
Qed.

Lemma reserved_names_are_case_sensitive_witness : eligible "Faf5_Merged_Cleaned.CSV".
Proof.
  apply (proj1 reserved_names_are_case_sensitive
           "Faf5_Merged_Cleaned.CSV" "FAF5_MERGED_CLEANED.csv").
  - apply (bool_decide_unpack _). vm_compute. exact I.
  - vm_compute. reflexivity.
  - apply (bool_decide_unpack _). vm_compute. exact I.
Defined.

(** ** Masks *)

Section Masks.
Context {A : Type}.
Implicit Types (mask : list bool) (xs : list A).

Lemma mask_sum_cons b mask :
  mask_sum (b :: mask) = (if b then 1 else 0) + mask_sum mask.
Proof.
  unfold mask_sum. rewrite filter_cons. destruct b; [done |].
  by rewrite decide_False by done.
Qed.

Lemma mask_select_length mask xs :
  length xs = length mask → length (mask_select mask xs) = mask_sum mask.
Proof.
  revert xs. induction mask as [|b mask IH]; intros [|x xs] Hlen; try done.
  rewrite mask_sum_cons. simpl in *. destruct b; simpl; rewrite IH; lia.
Qed.

Lemma mask_select_all xs : mask_select (replicate (length xs) true) xs = xs.
Proof. induction xs as [|x xs IH]; [done |]. simpl. by rewrite IH. Qed.

Lemma mask_select_sublist mask xs : sublist (mask_select mask xs) xs.
Proof.
  revert xs. induction mask as [|b mask IH]; intros [|x xs]; simpl;
    try apply sublist_nil_l.
  destruct b; [by apply sublist_skip | by apply sublist_cons].
Qed.

Lemma mask_select_map {B} (f : A → B) mask xs :
  mask_select mask (map f xs) = map f (mask_select mask xs).
Proof.
  revert xs. induction mask as [|b mask IH]; intros [|x xs]; simpl; try done.
  destruct b; simpl; by rewrite IH.
Qed.

Lemma mask_sum_all_false n : mask_sum (replicate n false) = 0.
Proof. induction n as [|n IH]; [done |]. simpl. by rewrite mask_sum_cons, IH. Qed.
End Masks.

(** ** Duplicate detection *)

Section Duplicated.
Implicit Types (seen rows : list (list value)).

Lemma duplicated_go_length seen rows :
  length (duplicated_go seen rows) = length rows.
Proof.
  revert seen. induction rows as [|r rows IH]; intros seen; [done |].
  simpl. by rewrite IH.
Qed.

Lemma duplicated_go_lookup seen rows i r :
  rows !! i = Some r →
  duplicated_go seen rows !! i = Some (bool_decide (r ∈ seen ∨ r ∈ take i rows)).
Proof.
  revert seen i. induction rows as [|r' rows IH]; intros seen [|i] Hi; try done.
  - simpl in *. injection Hi as ->. f_equal. apply bool_decide_ext.
    split; [by left | intros [? | ?%elem_of_nil]; done].
  - simpl in *. rewrite (IH _ _ Hi). f_equal. apply bool_decide_ext.
    rewrite !elem_of_cons. tauto.
Qed.

Lemma kept_cons seen r rows :
  kept seen (r :: rows)
  = if decide (r ∈ seen) then kept (r :: seen) rows else r :: kept (r :: seen) rows.
Proof.
  unfold kept. simpl.
  by case_decide; [rewrite bool_decide_eq_true_2 | rewrite bool_decide_eq_false_2].
Qed.

Lemma elem_of_kept seen rows r : r ∈ kept seen rows ↔ r ∈ rows ∧ r ∉ seen.
Proof.
  revert seen. induction rows as [|r' rows IH]; intros seen.
  - unfold kept. simpl. rewrite elem_of_nil. naive_solver.
  - rewrite kept_cons. case_decide as Hin.
    + rewrite IH, !elem_of_cons. naive_solver.
    + rewrite elem_of_cons, IH, !elem_of_cons.
      destruct (decide (r = r')) as [-> | Hne]; naive_solver.
Qed.

Lemma kept_NoDup seen rows : NoDup (kept seen rows).
Proof.
  revert seen. induction rows as [|r rows IH]; intros seen; [constructor |].
  rewrite kept_cons. case_decide; [apply IH |].
  constructor; [| apply IH]. rewrite elem_of_kept, elem_of_cons. naive_solver.
Qed.

Lemma duplicated_go_NoDup seen rows :
  NoDup rows → (∀ r, r ∈ rows → r ∉ seen) →
  duplicated_go seen rows = replicate (length rows) false.
Proof.
  revert seen. induction rows as [|r rows IH]; intros seen Hnd Hdisj; [done |].
  apply NoDup_cons in Hnd as [Hr Hnd]. simpl.
  rewrite bool_decide_eq_false_2 by (apply Hdisj; by left).
  rewrite IH; [done | done |].
  intros r' Hr' [-> | Hs]%elem_of_cons; [done |].
  apply (Hdisj r'); [by right | done].
Qed.

End Duplicated.

(** ** Rows of a table

    A table is its columns; its row count is their common length and row
    [i] is made of the cells at position [i]. *)

Lemma rows_rows_of df : rows df = rows_of (map values (columns df)) (nrows df).
Proof.
  unfold rows, rows_of. apply map_ext. intros i.
  unfold row_at, cells_at. by rewrite map_map.
Qed.

Lemma rows_of_S cols n :
  rows_of cols (S n) = cells_at cols 0 :: rows_of (map (drop 1) cols) n.
Proof.
  unfold rows_of. rewrite <- cons_seq, <- fmap_S_seq. simpl. f_equal.
  change (map (cells_at cols) (S <$> seq 0 n)) with (map (cells_at cols) (map S (seq 0 n))).
  rewrite map_map. apply map_ext. intros i.
  unfold cells_at. rewrite map_map. apply map_ext.
  intros [|v vs]; [by destruct i | done].
Qed.

Lemma mask_select_nil_r {A} mask : mask_select (A := A) mask [] = [].
Proof. by destruct mask. Qed.

Lemma rows_of_mask mask cols :
  Forall (λ vs, length vs = length mask) cols →
  rows_of (map (mask_select mask) cols) (mask_sum mask)
  = mask_select mask (rows_of cols (length mask)).
Proof.
  revert cols. induction mask as [|b mask IH]; intros cols Hlen; [done |].
  assert (Forall (λ vs, length vs = length mask) (map (drop 1) cols)) as Hlen'.
  { apply Forall_fmap. eapply Forall_impl; [exact Hlen |].
    intros vs Hvs. simpl in *. rewrite length_drop. lia. }
  assert (map (drop 1) (map (mask_select (true :: mask)) cols)
          = map (mask_select mask) (map (drop 1) cols)) as Htrue.
  { rewrite !map_map. apply map_ext. intros [|v vs]; simpl.
    - by rewrite mask_select_nil_r.
    - by rewrite drop_0. }
  assert (map (mask_select (false :: mask)) cols
          = map (mask_select mask) (map (drop 1) cols)) as Hfalse.
  { rewrite !map_map. apply map_ext. intros [|v vs]; simpl.
    - by rewrite mask_select_nil_r.
    - by rewrite drop_0. }
  assert (cells_at (map (mask_select (true :: mask)) cols) 0 = cells_at cols 0)
    as Hhead.
  { unfold cells_at. rewrite map_map. apply map_ext. by intros [|v vs]. }
  rewrite mask_sum_cons.
  change (length (b :: mask)) with (S (length mask)). rewrite (rows_of_S cols).
  destruct b.
  - change (1 + mask_sum mask) with (S (mask_sum mask)).
    rewrite rows_of_S, Hhead, Htrue. cbn [mask_select]. f_equal. by apply IH.
  - change (0 + mask_sum mask) with (mask_sum mask).
    rewrite Hfalse. cbn [mask_select]. by apply IH.
Qed.

Lemma aligned_select_rows mask df :
  aligned df → length mask = len df → aligned (select_rows mask df).
Proof.
  unfold aligned, len. intros Hal Hmask. simpl.
  apply Forall_fmap. eapply Forall_impl; [exact Hal |].
  intros c Hc. simpl. by rewrite !mask_select_length by congruence.
Qed.

Lemma rows_select_rows mask df :
  aligned df → length mask = len df →
  rows (select_rows mask df) = mask_select mask (rows df).
Proof.
  intros Hal Hmask. rewrite !rows_rows_of. unfold nrows. simpl.
  destruct (columns df) as [|c cs] eqn:Hcols; simpl.
  { by destruct mask. }
  unfold aligned in Hal. rewrite Hcols in Hal.
  pose proof Hal as [Hc _]%Forall_cons.
  rewrite mask_select_length by congruence. rewrite Hc, <- Hmask.
  rewrite <- rows_of_mask.
  - simpl. by rewrite !map_map.
  - change (values c :: map values cs) with (map values (c :: cs)).
    apply Forall_fmap. eapply Forall_impl; [exact Hal |].
    intros c' Hc'. simpl. congruence.
Qed.

Lemma select_rows_all df :
  aligned df → select_rows (replicate (len df) true) df = df.
Proof.
  intros Hal. destruct df as [idx cols]. unfold select_rows, aligned, len in *.
  simpl in *. f_equal; [apply mask_select_all |].
  induction Hal as [|c cs Hc _ IH]; [done |]. simpl. rewrite IH. f_equal.
  destruct c as [n d vs]. simpl in *. by rewrite <- Hc, mask_select_all.
Qed.

Lemma rows_nonempty df :
  aligned df → columns df ≠ [] → rows df = map (row_at df) (seq 0 (len df)).
Proof.
  unfold rows, nrows, aligned. intros Hal Hne.
  destruct (columns df) as [|c cs]; [done |].
  apply Forall_cons in Hal as [-> _]. done.
Qed.

Lemma rows_empty df : aligned df → empty df = true → rows df = [].
Proof.
  unfold rows, nrows, aligned, empty, len. intros Hal Hem.
  destruct (columns df) as [|c cs]; [done |].
  apply Forall_cons in Hal as [-> _].
  apply orb_true_iff in Hem as [Hi | Hc].
  - apply bool_decide_eq_true in Hi. by rewrite Hi.
  - by apply bool_decide_eq_true in Hc.
Qed.

Lemma duplicated_rows df :
  aligned df → empty df = false → duplicated df = duplicated_go [] (rows df).
Proof.
  intros Hal Hem. unfold duplicated. rewrite Hem, rows_nonempty; [done | done |].
  apply orb_false_iff in Hem as [_ Hc]. by apply bool_decide_eq_false in Hc.
Qed.

Lemma length_rows df : aligned df → empty df = false → length (rows df) = len df.
Proof.
  intros Hal Hem. rewrite rows_nonempty; [| done |].
  - by rewrite length_map, length_seq.
  - apply orb_false_iff in Hem as [_ Hc]. by apply bool_decide_eq_false in Hc.
Qed.

Lemma map_negb_all_false n : map negb (replicate n false) = replicate n true.
Proof. induction n as [|n IH]; [done |]. simpl. by rewrite IH. Qed.

(** C4: on a table whose columns are aligned, [remove_duplicate_rows]
    returns a table without two equal rows; its rows are a subsequence of
    the rows of the input and every row of the input still occurs; the row
    kept at position [i] is kept exactly when no earlier row equals it
    (first occurrence, original order); and applying the operation again
    changes nothing. *)
Theorem remove_duplicate_rows_keeps_first df :
  aligned df →
  NoDup (rows (remove_duplicate_rows df))
  ∧ sublist (rows (remove_duplicate_rows df)) (rows df)
  ∧ (∀ r, r ∈ rows df → r ∈ rows (remove_duplicate_rows df))
  ∧ (∃ keep, length keep = len df
       ∧ remove_duplicate_rows df = select_rows keep df
       ∧ rows (remove_duplicate_rows df) = mask_select keep (rows df)
       ∧ ∀ i r, rows df !! i = Some r →
           (keep !! i = Some true ↔ ∀ j, j < i → rows df !! j ≠ Some r))
  ∧ remove_duplicate_rows (remove_duplicate_rows df) = remove_duplicate_rows df.
Proof.
  intros Hal. unfold remove_duplicate_rows, drop_duplicates.
  destruct (empty df) eqn:Hem.
  { rewrite Hem, (rows_empty df) by done. split_and!; try done; [constructor |].
    exists (replicate (len df) true). split_and!.
    - apply length_replicate.
    - by rewrite select_rows_all.
    - by rewrite mask_select_nil_r.
    - done. }
  rewrite (duplicated_rows df) by done.
  set (keep := map negb (duplicated_go [] (rows df))).
  assert (length keep = len df) as Hlen.
  { subst keep. by rewrite length_map, duplicated_go_length, length_rows. }
  pose proof (rows_select_rows keep df Hal Hlen) as Hrows.
  pose proof (aligned_select_rows keep df Hal Hlen) as Hal'.
  change (mask_select keep (rows df)) with (kept [] (rows df)) in Hrows.
  split_and!.
  - rewrite Hrows. apply kept_NoDup.
  - rewrite Hrows. apply mask_select_sublist.
  - intros r Hr. rewrite Hrows. apply elem_of_kept. split; [done | apply not_elem_of_nil].
  - exists keep. split_and!; try done. intros i r Hi. subst keep.
    change (map negb) with (fmap (M := list) negb).
    rewrite list_lookup_fmap, (duplicated_go_lookup _ _ _ _ Hi). simpl.
    split.
    + intros [= Hb] j Hj Hjr. apply negb_true_iff, bool_decide_eq_false in Hb.
      apply Hb. right. apply elem_of_take. eauto.
    + intros Hfirst. f_equal. apply negb_true_iff, bool_decide_eq_false.
      intros [Hn | Ht]; [by apply elem_of_nil in Hn |].
      apply elem_of_take in Ht as (j & Hj & Hlt). by apply (Hfirst j).
  - destruct (empty (select_rows keep df)) eqn:Hem'; [done |].
    rewrite (duplicated_rows _ Hal' Hem'), Hrows.
    rewrite duplicated_go_NoDup;
      [| apply kept_NoDup | intros r _; apply not_elem_of_nil].
    rewrite map_negb_all_false, <- Hrows, length_rows by done.
    by apply select_rows_all.
Qed.

Lemma remove_duplicate_rows_keeps_first_witness :
  remove_duplicate_rows (remove_duplicate_rows repeated_rows_frame)
  = remove_duplicate_rows repeated_rows_frame.
Proof.
  apply (remove_duplicate_rows_keeps_first repeated_rows_frame).
  apply (bool_decide_unpack _). vm_compute. exact I.
Defined.

(** ** Loops that rewrite columns by label

    [for label in labels: df[label] = g(df[label])], where [g] may also
    leave the column alone. *)

Lemma get_column_in_Some cols label c :
  get_column_in cols label = Some c → c ∈ cols ∧ name c = label.
Proof.
  induction cols as [|c' cols IH]; [done |]. simpl.
  case_decide as Hn.
  - intros [= ->]. split; [by left | done].
  - intros [Hin Hname]%IH. split; [by right | done].
Qed.

Lemma get_column_in_None cols label :
  get_column_in cols label = None ↔ label ∉ map name cols.
Proof.
  induction cols as [|c' cols IH]; simpl.
  - split; [intros _; apply not_elem_of_nil | done].
  - rewrite not_elem_of_cons. case_decide as Hn; [naive_solver |].
    rewrite IH. naive_solver.
Qed.

Lemma get_column_in_elem cols c :
  NoDup (map name cols) → c ∈ cols → get_column_in cols (name c) = Some c.
Proof.
  induction cols as [|c' cols IH]; intros Hnd Hin; [by apply elem_of_nil in Hin |].
  simpl in *. apply NoDup_cons in Hnd as [Hc' Hnd].
  apply elem_of_cons in Hin as [-> | Hin]; [by rewrite decide_True |].
  rewrite decide_False; [by apply IH |].
  intros Heq. apply Hc'. rewrite Heq.
  change (map name cols) with (name <$> cols). by apply list_elem_of_fmap_2.
Qed.

Lemma set_column_in_map cols label s :
  NoDup (map name cols) → label ∈ map name cols →
  set_column_in cols label s
  = map (λ c, if decide (name c = label) then s else c) cols.
Proof.
  induction cols as [|c cols IH]; intros Hnd Hin; [by apply elem_of_nil in Hin |].
  simpl in *. apply NoDup_cons in Hnd as [Hc Hnd]. case_decide as Hn.
  - f_equal. subst label. clear IH Hin Hnd.
    induction cols as [|c' cols IH]; [done |]. simpl in *.
    apply not_elem_of_cons in Hc as [Hne Hc].
    rewrite decide_False by done. f_equal. by apply IH.
  - f_equal. apply IH; [done |].
    apply elem_of_cons in Hin as [-> | Hin]; done.
Qed.

Lemma update_step_columns g df label :
  unique_labels df →
  update_step g df label
  = {| index := index df;
       columns := map (λ c, if decide (name c = label) then updated g c else c)
                      (columns df) |}.
Proof.
  intros Hnd. unfold update_step, get_column.
  assert (∀ (f : Series → Series) cols,
            (∀ c, c ∈ cols → f c = c) → map f cols = cols) as Hid.
  { intros f cols. induction cols as [|c cols IH]; intros Hf; [done |].
    simpl. rewrite Hf by (by left). f_equal. apply IH.
    intros c' Hc'. apply Hf. by right. }
  destruct df as [idx cols]. simpl in *.
  destruct (get_column_in cols label) as [s |] eqn:Hget.
  - apply get_column_in_Some in Hget as Hs. destruct Hs as [Hin Hname].
    assert (∀ c, c ∈ cols → name c = label → c = s) as Honly.
    { intros c Hc Hcn. apply (get_column_in_elem cols c Hnd) in Hc.
      rewrite Hcn, Hget in Hc. congruence. }
    unfold updated. destruct (g s) as [s' |] eqn:Hg.
    + unfold set_column. simpl. f_equal.
      rewrite set_column_in_map; [| done |].
      * apply map_ext_in. intros c Hc%list_elem_of_In. case_decide as Hn; [| done].
        rewrite (Honly c Hc Hn), Hg. by rewrite Hname.
      * rewrite <- Hname. change (map name cols) with (name <$> cols).
        by apply list_elem_of_fmap_2.
    + f_equal. symmetry. apply Hid. intros c Hc. case_decide as Hn; [| done].
      by rewrite (Honly c Hc Hn), Hg.
  - f_equal. symmetry. apply Hid. intros c Hc. case_decide as Hn; [| done].
    apply get_column_in_None in Hget. exfalso. apply Hget. rewrite <- Hn.
    change (map name cols) with (name <$> cols). by apply list_elem_of_fmap_2.
Qed.

Lemma name_updated g c : name (updated g c) = name c.
Proof. unfold updated. by destruct (g c). Qed.

Lemma update_loop g labels df :
  unique_labels df → NoDup labels →
  fold_left (update_step g) labels df
  = {| index := index df;
       columns := map (λ c, if decide (name c ∈ labels) then updated g c else c)
                      (columns df) |}.
Proof.
  revert df. induction labels as [|l labels IH]; intros df Hnd Hls.
  - destruct df as [idx cols]. cbn [fold_left index columns]. f_equal. clear.
    induction cols as [|c cols IHc]; [done |]. cbn [map].
    rewrite decide_False by apply not_elem_of_nil. by f_equal.
  - apply NoDup_cons in Hls as [Hl Hls]. simpl.
    rewrite update_step_columns by done. rewrite IH; [| | done].
    + simpl. f_equal. rewrite map_map. apply map_ext. intros c.
      destruct (decide (name c = l)) as [Heq | Hne].
      * rewrite name_updated, Heq. rewrite decide_False by done.
        by rewrite decide_True by (by left).
      * destruct (decide (name c ∈ labels)) as [Hin | Hout].
        -- by rewrite decide_True by (by right).
        -- rewrite decide_False; [done |].
           intros [? | ?]%elem_of_cons; done.
    + unfold unique_labels in *. simpl. rewrite map_map.
      erewrite map_ext; [exact Hnd |].
      intros c. simpl. case_decide; [by rewrite name_updated | done].
Qed.

Lemma get_column_in_map (F : Series → Series) cols c :
  (∀ c', name (F c') = name c') → NoDup (map name cols) → c ∈ cols →
  get_column_in (map F cols) (name c) = Some (F c).
Proof.
  intros HF Hnd Hin. rewrite <- (HF c). apply get_column_in_elem.
  - rewrite map_map. erewrite map_ext; [exact Hnd | done].
  - change (map F cols) with (F <$> cols). by apply list_elem_of_fmap_2.
Qed.

Lemma NoDup_selected_labels (P : Series → Prop) `{∀ c, Decision (P c)} cols :
  NoDup (map name cols) → NoDup (map name (filter P cols)).
Proof.
  intros Hnd. eapply sublist_NoDup; [exact Hnd |].
  change (sublist (name <$> filter P cols) (name <$> cols)).
  apply fmap_sublist, sublist_filter.
Qed.

Lemma elem_of_selected_labels (P : Series → Prop) `{∀ c, Decision (P c)} cols c :
  NoDup (map name cols) → c ∈ cols →
  name c ∈ map name (filter P cols) ↔ P c.
Proof.
  intros Hnd Hin. change (map name (filter P cols)) with (name <$> filter P cols).
  rewrite list_elem_of_fmap. split.
  - intros (c' & Hname & [HP Hin']%list_elem_of_filter).
    pose proof (get_column_in_elem cols c Hnd Hin) as H1.
    pose proof (get_column_in_elem cols c' Hnd Hin') as H2.
    rewrite <- Hname, H1 in H2. by injection H2 as ->.
  - intros HP. exists c. split; [done |]. by apply list_elem_of_filter.
Qed.

Lemma fold_left_ext {A B} (f g : A → B → A) l a :
  (∀ x y, f x y = g x y) → fold_left f l a = fold_left g l a.
Proof.
  intros Hfg. revert a. induction l as [|y l IH]; intros a; [done |].
  simpl. by rewrite Hfg, IH.
Qed.

(** ** Numeric coercion *)

Section Coercion.
Context {scalars : Scalars}.

Lemma convert_step_update threshold df label :
  convert_step threshold df label = update_step (convert_choice threshold) df label.
Proof.
  unfold convert_step, update_step, convert_choice.
  destruct (get_column df label) as [s |]; [| done].
  repeat case_decide; done.
Qed.

Lemma non_null_count vs : mask_sum (map notna vs) = length (non_null_values vs).
Proof.
  unfold non_null_values. induction vs as [|v vs IH]; [done |].
  cbn [map]. rewrite mask_sum_cons, filter_cons, IH.
  destruct v; simpl; by rewrite ?decide_True, ?decide_False by done.
Qed.

Lemma coerced_length vs :
  length (map notna (mask_select (map notna vs) (map to_numeric_value vs)))
  = length (non_null_values vs).
Proof.
  rewrite length_map, mask_select_length by (by rewrite !length_map).
  apply non_null_count.
Qed.

Lemma coerced_count vs :
  mask_sum (map notna (mask_select (map notna vs) (map to_numeric_value vs)))
  = length (parseable_values vs).
Proof.
  unfold parseable_values. induction vs as [|v vs IH]; [done |].
  rewrite filter_cons. destruct v as [|s|q]; cbn [map mask_select notna isna negb].
  - destruct (decide (parses_as_number NA)) as [[] | _]. exact IH.
  - cbn [map to_numeric_value]. rewrite mask_sum_cons, IH.
    destruct (decide (parses_as_number (Str s))) as [[q Hq] | Hn]; simpl in *.
    + by rewrite Hq.
    + destruct (to_number s) as [q |]; [| done]. exfalso. apply Hn. by eexists.
  - cbn [map to_numeric_value]. rewrite mask_sum_cons, IH.
    by destruct (decide (parses_as_number (Num q))) as [_ | []].
Qed.

Lemma convert_choice_spec threshold c :
  convert_choice threshold c
  = if decide (length (non_null_values (values c)) ≠ 0
               ∧ (threshold ≤ parse_ratio c)%Qc)
    then Some (to_numeric c) else None.
Proof.
  unfold convert_choice, parse_ratio, mask_mean. cbn [to_numeric values].
  rewrite coerced_count, coerced_length, non_null_count.
  repeat case_decide; naive_solver.
Qed.

Lemma convert_columns df threshold :
  unique_labels df →
  convert_mostly_numeric_columns df threshold
  = {| index := index df;
       columns := map (λ c, if decide (is_text c) then updated (convert_choice threshold) c
                            else c) (columns df) |}.
Proof.
  intros Hnd. unfold convert_mostly_numeric_columns.
  rewrite (fold_left_ext _ (update_step (convert_choice threshold)))
    by (intros; apply convert_step_update).
  rewrite update_loop; [| done | by apply NoDup_selected_labels].
  f_equal. apply map_ext_in. intros c Hc%list_elem_of_In.
  unfold select_dtypes.
  destruct (decide (is_text c)) as [Ht | Ht].
  - rewrite decide_True; [done |]. by apply (elem_of_selected_labels is_text).
  - rewrite decide_False; [done |]. by rewrite (elem_of_selected_labels is_text).
Qed.

Lemma dtype_to_numeric c : dtype (to_numeric c) ∈ number.
Proof. simpl. unfold number. case_decide; set_solver. Qed.

Lemma to_numeric_not_text c : ¬ is_text (to_numeric c).
Proof.
  unfold is_text. simpl. case_decide; intros Ht; by apply (bool_decide_pack _) in Ht.
Qed.

Lemma to_numeric_changes_text c : is_text c → to_numeric c ≠ c.
Proof.
  unfold is_text. intros Ht Heq. pose proof (dtype_to_numeric c) as Hn.
  rewrite Heq in Hn. unfold number in Hn.
  destruct (dtype c); by apply (bool_decide_pack _) in Ht, Hn.
Qed.

(** C1: on a table with distinct labels and for every threshold, a text or
    mixed column is replaced by its numeric parse exactly when it has a
    non-null value and the number of its non-null values that parse,
    divided by the number of its non-null values, is at least the
    threshold (a column without non-null values has no ratio and stays as
    it is); otherwise it is left unchanged, as is every other column.  The
    numeric parse is a column of numbers (numpy numbers from an object
    column, masked numbers from a string column) in which a value that
    does not parse becomes null.  The
    column [{"a": ["1", "2", "x", None]}] converts at threshold 1/2, with
    ["x"] null, and does not convert at threshold 9/10. *)
Theorem convert_mostly_numeric_columns_threshold df threshold :
  unique_labels df →
  (∀ c, c ∈ columns df → is_text c →
     (get_column (convert_mostly_numeric_columns df threshold) (name c)
        = Some (to_numeric c)
      ↔ length (non_null_values (values c)) ≠ 0 ∧ (threshold ≤ parse_ratio c)%Qc)
     ∧ (get_column (convert_mostly_numeric_columns df threshold) (name c) = Some c
        ↔ ¬ (length (non_null_values (values c)) ≠ 0
             ∧ (threshold ≤ parse_ratio c)%Qc)))
  ∧ (∀ c, c ∈ columns df → ¬ is_text c →
       get_column (convert_mostly_numeric_columns df threshold) (name c) = Some c)
  ∧ (∀ c, dtype (to_numeric c)
          = (if decide (dtype c ∈ [DString; DNullableNumber])
             then DNullableNumber else DNumber)
          ∧ dtype (to_numeric c) ∈ number
          ∧ name (to_numeric c) = name c
          ∧ values (to_numeric c) = map to_numeric_value (values c))
  ∧ (∀ v, (parses_as_number v → ∃ q, to_numeric_value v = Num q)
          ∧ (¬ parses_as_number v → to_numeric_value v = NA))
  ∧ convert_mostly_numeric_columns (scalars := decimal_scalars) frame_a (Q2Qc (1 # 2))
    = {| index := [0; 1; 2; 3];
         columns := [ {| name := "a"; dtype := DNumber;
                         values := [Num 1%Qc; Num (Q2Qc 2); NA; NA] |} ] |}
  ∧ convert_mostly_numeric_columns (scalars := decimal_scalars) frame_a (Q2Qc (9 # 10))
    = frame_a.
Proof.
  intros Hnd. rewrite convert_columns by done. unfold get_column. cbn [columns].
  set (F := λ c, if decide (is_text c) then updated (convert_choice threshold) c else c).
  assert (∀ c, name (F c) = name c) as HF.
  { intros c. unfold F. case_decide; [apply name_updated | done]. }
  split_and!.
  - intros c Hc Ht. rewrite (get_column_in_map F) by done.
    unfold F. rewrite decide_True by done.
    unfold updated. rewrite convert_choice_spec.
    pose proof (to_numeric_changes_text c Ht) as Hneq.
    case_decide as Hcond.
    + change {| name := name c; dtype := dtype (to_numeric c);
                values := values (to_numeric c) |} with (to_numeric c).
      split; [done |]. split; [congruence | done].
    + split; [| done]. split; [congruence | done].
  - intros c Hc Ht. rewrite (get_column_in_map F) by done.
    unfold F. by rewrite decide_False.
  - intros c. split_and!; [done | apply dtype_to_numeric | done | done].
  - intros [|s|q]; simpl.
    + done.
    + destruct (to_number s) as [q |]; split; try done.
      * by eexists.
      * intros Hn. exfalso. apply Hn. by eexists.
    + split; [by eexists | done].
  - by vm_compute.
  - by vm_compute.
Qed.

End Coercion.

Lemma convert_mostly_numeric_columns_threshold_witness :
  get_column (convert_mostly_numeric_columns (scalars := decimal_scalars)
                frame_a (Q2Qc (1 # 2))) "a"
  = Some (to_numeric (scalars := decimal_scalars) column_a).
Proof.
  assert (unique_labels frame_a) as Hnd
    by (apply (bool_decide_unpack _); vm_compute; exact I).
  apply (proj1 (proj1 (convert_mostly_numeric_columns_threshold
                         (scalars := decimal_scalars) frame_a (Q2Qc (1 # 2)) Hnd)
                  column_a ltac:(by left)
                  ltac:(apply (bool_decide_unpack _); vm_compute; exact I))).
  apply (bool_decide_unpack _). vm_compute. exact I.
Defined.

(** ** Distinct values in order of first appearance *)

Section Unique.
Context {A : Type} `{EqDecision A}.
Implicit Types (seen l : list A).

Lemma elem_of_unique_go seen l x : x ∈ unique_go seen l ↔ x ∈ l ∧ x ∉ seen.
Proof.
  revert seen. induction l as [|y l IH]; intros seen; simpl.
  - rewrite elem_of_nil. naive_solver.
  - case_decide as Hin.
    + rewrite IH, elem_of_cons. naive_solver.
    + rewrite elem_of_cons, IH, !elem_of_cons.
      destruct (decide (x = y)) as [-> | Hne]; naive_solver.
Qed.

Lemma unique_go_NoDup seen l : NoDup (unique_go seen l).
Proof.
  revert seen. induction l as [|y l IH]; intros seen; simpl; [constructor |].
  case_decide; [apply IH |]. constructor; [| apply IH].
  rewrite elem_of_unique_go, elem_of_cons. naive_solver.
Qed.

Lemma unique_go_sublist seen l : sublist (unique_go seen l) l.
Proof.
  revert seen. induction l as [|y l IH]; intros seen; simpl; [done |].
  case_decide; [by apply sublist_cons | by apply sublist_skip].
Qed.

Lemma elem_of_unique l x : x ∈ unique l ↔ x ∈ l.
Proof. unfold unique. rewrite elem_of_unique_go, elem_of_nil. naive_solver. Qed.

Lemma unique_NoDup l : NoDup (unique l).
Proof. apply unique_go_NoDup. Qed.

Lemma unique_sublist l : sublist (unique l) l.
Proof. apply unique_go_sublist. Qed.

(** The first value seen stays first. *)
Lemma unique_cons x l : unique (x :: l) = x :: unique_go [x] l.
Proof. done. Qed.
End Unique.

(** ** Loops that append one record per column *)

Lemma label_loop {S} (step : list S → string → list S) (new : Series → list S)
    df cols acc :
  (∀ acc label, step acc label
                = acc ++ match get_column df label with
                         | Some c => new c
                         | None => []
                         end) →
  unique_labels df → cols ⊆ columns df →
  fold_left step (map name cols) acc = acc ++ flat_map new cols.
Proof.
  intros Hstep Hnd. revert acc.
  induction cols as [|c cols IH]; intros acc Hsub; simpl.
  - by rewrite app_nil_r.
  - rewrite IH by (intros c' Hc'; apply Hsub; by right).
    rewrite Hstep. unfold get_column.
    rewrite (get_column_in_elem _ c Hnd) by (apply Hsub; by left).
    by rewrite <- app_assoc.
Qed.

Lemma flat_map_option {S T} (P : S → Prop) `{∀ x, Decision (P x)} (mk : S → T) l :
  flat_map (λ x, if decide (P x) then [mk x] else []) l = map mk (filter P l).
Proof.
  induction l as [|x l IH]; [done |]. simpl. rewrite filter_cons.
  case_decide; simpl; by rewrite IH.
Qed.

Lemma mask_select_lookup {A} (mask : list bool) (xs : list A) x :
  x ∈ mask_select mask xs → ∃ p, mask !! p = Some true ∧ xs !! p = Some x.
Proof.
  revert xs. induction mask as [|b mask IH]; intros [|y xs]; simpl;
    try (by intros ?%elem_of_nil).
  destruct b.
  - intros [-> | Hin]%elem_of_cons; [by exists 0 |].
    destruct (IH _ Hin) as [p Hp]. by exists (S p).
  - intros Hin. destruct (IH _ Hin) as [p Hp]. by exists (S p).
Qed.

(** ** Validation *)

Section ValidationProperties.
Context {scalars : Scalars}.

Lemma missing_step_app df issues label :
  missing_step df issues label
  = issues ++ match get_column df label with
              | Some c => if decide (0 < null_count_of c) then [missing_issue df c] else []
              | None => []
              end.
Proof.
  unfold missing_step. destruct (get_column df label) as [c |] eqn:Hc;
    [| by rewrite app_nil_r].
  apply get_column_in_Some in Hc as [_ <-]. unfold null_count_of.
  case_decide; [done | by rewrite app_nil_r].
Qed.

Lemma negative_step_app df issues label :
  negative_step df issues label
  = issues ++ match get_column df label with
              | Some c => if decide (0 < negative_count_of c)
                          then [negative_issue df c] else []
              | None => []
              end.
Proof.
  unfold negative_step. destruct (get_column df label) as [c |] eqn:Hc;
    [| by rewrite app_nil_r].
  apply get_column_in_Some in Hc as [_ <-]. unfold negative_count_of.
  case_decide; [done | by rewrite app_nil_r].
Qed.

Lemma source_file_check_app df allowed issues :
  source_file_check df allowed issues = issues ++ source_file_check df allowed [].
Proof.
  unfold source_file_check. destruct (get_column df "source_file"); [| done].
  repeat case_decide; simpl; rewrite <- ?app_assoc, ?app_nil_r; done.
Qed.

Lemma duplicate_check_app df issues :
  duplicate_check df issues = issues ++ duplicate_check df [].
Proof. unfold duplicate_check. case_decide; by rewrite ?app_nil_r. Qed.

Lemma gather_phases df fs :
  unique_labels df →
  gather_validation_issues df fs
  = map (missing_issue df) (filter (λ c, 0 < null_count_of c) (columns df))
    ++ map (negative_issue df)
         (filter (λ c, 0 < negative_count_of c) (select_dtypes number df))
    ++ source_file_check df (allowed_files fs) []
    ++ duplicate_check df [].
Proof.
  intros Hnd. unfold gather_validation_issues.
  rewrite duplicate_check_app, source_file_check_app.
  rewrite (label_loop (missing_step df) _ df (columns df) []
             (missing_step_app df) Hnd) by done.
  rewrite (label_loop (negative_step df) _ df (select_dtypes number df) _
             (negative_step_app df) Hnd)
    by (intros c [_ Hc]%list_elem_of_filter; done).
  rewrite !flat_map_option. simpl. by rewrite <- !app_assoc.
Qed.

Lemma Forall2_map_diag {S T} (R : S → T → Prop) (f : S → T) l :
  (∀ x, x ∈ l → R x (f x)) → Forall2 R l (map f l).
Proof.
  induction l as [|x l IH]; intros HR; [constructor |]. simpl. constructor.
  - apply HR. by left.
  - apply IH. intros y Hy. apply HR. by right.
Qed.

Lemma mask_sum_filter {T} (f : T → bool) (l : list T) :
  mask_sum (map f l) = length (filter (λ x, f x = true) l).
Proof.
  induction l as [|x l IH]; [done |]. cbn [map].
  rewrite mask_sum_cons, filter_cons, IH. by destruct (f x).
Qed.


Lemma isna_true v : isna v = true ↔ v = NA.
Proof. by destruct v. Qed.

Lemma null_count_of_filter c :
  null_count_of c = length (filter (λ v, v = NA) (values c)).
Proof.
  unfold null_count_of. rewrite mask_sum_filter. f_equal.
  apply list_filter_iff. intros v. apply isna_true.
Qed.


Lemma length_filter_pos {T} (P : T → Prop) `{∀ x, Decision (P x)} (l : list T) :
  0 < length (filter P l) ↔ ∃ x, x ∈ l ∧ P x.
Proof.
  split.
  - destruct (filter P l) as [|x l'] eqn:E; simpl; [lia |]. intros _.
    exists x. assert (x ∈ filter P l) as Hx by (rewrite E; by left).
    apply list_elem_of_filter in Hx. naive_solver.
  - intros (x & Hx & HP).
    assert (x ∈ filter P l) as Hin by (by apply list_elem_of_filter).
    destruct (filter P l); [by apply elem_of_nil in Hin | simpl; lia].
Qed.



Lemma source_file_check_shape df allowed :
  Forall (λ i, Issue.column i = "source_file"
               ∧ Issue.issue_type i ∈ source_file_kinds)
         (source_file_check df allowed [])
  ∧ length (source_file_check df allowed []) ≤ 3.
Proof.
  unfold source_file_check, source_file_kinds.
  destruct (get_column df "source_file").
  - repeat case_decide; simpl; (split; [| lia]);
      repeat (apply Forall_cons; split; [split; [done | set_solver] |]);
      apply Forall_nil_2.
  - simpl. split; [| lia]. apply Forall_cons. split; [| done].
    split; [done | set_solver].
Qed.

Lemma duplicate_check_shape df :
  Forall (λ i, Issue.issue_type i = "duplicate_rows" ∧ Issue.column i = ""
               ∧ Issue.count i = mask_sum (duplicated df) ∧ 0 < Issue.count i)
         (duplicate_check df [])
  ∧ length (duplicate_check df []) ≤ 1.
Proof.
  unfold duplicate_check. case_decide; simpl; (split; [| lia]); [| done].
  by apply Forall_cons.
Qed.


(** *** The source_file check *)

Lemma strings_astype_string vs : strings (map astype_string vs) = omap cell_text vs.
Proof.
  unfold strings. induction vs as [|v vs IH]; [done |].
  destruct v; simpl; [exact IH | f_equal; exact IH ..].
Qed.

Lemma invalid_strings allowed sf :
  strings (mask_select (map (is_invalid allowed) sf) sf)
  = filter (λ s, s ∉ allowed) (strings sf).
Proof.
  unfold strings. induction sf as [|v sf IH]; [done |].
  destruct v as [|s|q]; cbn [map mask_select is_invalid omap list_omap]; try done.
  rewrite filter_cons. case_bool_decide; case_decide; try done.
  cbn [omap list_omap]. by rewrite IH.
Qed.

Lemma invalid_count allowed sf :
  mask_sum (map (is_invalid allowed) sf)
  = length (filter (λ s, s ∉ allowed) (strings sf)).
Proof.
  unfold strings. induction sf as [|v sf IH]; [done |].
  cbn [map]. rewrite mask_sum_cons, IH.
  destruct v as [|s|q]; cbn [is_invalid omap list_omap]; try done.
  rewrite filter_cons. by case_bool_decide; case_decide.
Qed.

Lemma source_file_invalid_issue df allowed c i :
  get_column df "source_file" = Some c →
  i ∈ source_file_check df allowed [] ∧ Issue.issue_type i = "source_file_invalid"
  ↔ allowed ≠ ∅ ∧ offending allowed c ≠ [] ∧ i = invalid_issue df allowed c.
Proof.
  intros Hc. unfold source_file_check. rewrite Hc.
  rewrite invalid_count, invalid_strings, strings_astype_string.
  change (filter _ (omap cell_text (values c))) with (offending allowed c).
  change {| Issue.issue_type := "source_file_invalid";
            Issue.column := "source_file";
            Issue.count := length (offending allowed c);
            Issue.pct := pct_of (length (offending allowed c)) df;
            Issue.details := ValuesNotInDir (take 10 (unique (offending allowed c))) |}
    with (invalid_issue df allowed c).
  assert (0 < length (offending allowed c) ↔ offending allowed c ≠ []) as Hpos
    by (destruct (offending allowed c); simpl; split; (done || lia)).
  repeat case_decide; simpl;
    rewrite ?elem_of_cons, ?elem_of_nil; split;
    try (intros [Hin Hty]; repeat destruct Hin as [-> | Hin]; try done;
         split_and!; tauto);
    try (intros (? & ? & ->); split; [tauto | done]);
    try (intros (? & ? & ?); exfalso; tauto).
Qed.

Lemma elem_of_allowed_files fs names f :
  listdir fs = Some names → f ∈ allowed_files fs ↔ f ∈ names ∧ eligible f.
Proof.
  intros Hls. unfold allowed_files. rewrite Hls.
  rewrite elem_of_list_to_set, list_elem_of_filter. unfold eligible. tauto.
Qed.

Lemma missing_and_negative_kinds df i :
  i ∈ map (missing_issue df) (filter (λ c, 0 < null_count_of c) (columns df))
      ++ map (negative_issue df)
           (filter (λ c, 0 < negative_count_of c) (select_dtypes number df)) →
  Issue.issue_type i ∈ ["missing_values"; "negative_values"].
Proof.
  change (map (missing_issue df)) with (fmap (M := list) (missing_issue df)).
  change (map (negative_issue df)) with (fmap (M := list) (negative_issue df)).
  intros [(c & -> & _)%list_elem_of_fmap | (c & -> & _)%list_elem_of_fmap]%elem_of_app;
    simpl; set_solver.
Qed.

Lemma invalid_issue_in_gather df fs c i :
  unique_labels df → get_column df "source_file" = Some c →
  i ∈ gather_validation_issues df fs ∧ Issue.issue_type i = "source_file_invalid"
  ↔ allowed_files fs ≠ ∅ ∧ offending (allowed_files fs) c ≠ []
    ∧ i = invalid_issue df (allowed_files fs) c.
Proof.
  intros Hnd Hc. rewrite <- (source_file_invalid_issue df _ c i Hc).
  rewrite gather_phases by done. rewrite app_assoc, !elem_of_app.
  split; [| tauto]. intros [[Hi | [Hi | Hi]] Hty]; [| done |].
  - apply elem_of_app, missing_and_negative_kinds in Hi. rewrite Hty in Hi.
    by apply (bool_decide_pack _) in Hi.
  - destruct (duplicate_check_shape df) as [Hall _].
    apply (proj1 (Forall_forall _ _) Hall) in Hi as [Hty' _]. congruence.
Qed.

Lemma elem_of_offending allowed c s :
  s ∈ offending allowed c
  ↔ (s ∉ allowed) ∧ ∃ v, v ∈ values c ∧ cell_text v = Some s.
Proof.
  unfold offending, source_file_values.
  by rewrite list_elem_of_filter, list_elem_of_omap.
Qed.

(** C2, as the code has it: for a table with distinct labels and a
    source_file column, the allowed names are the eligible names of the
    listing (none when the directory cannot be listed); a
    [source_file_invalid] issue is emitted exactly when there is at least
    one allowed name and some non-null source_file value is not allowed;
    it counts the offending cells and its details list at most ten
    distinct offending values (all of them when there are at most ten);
    there is at most one such issue; and when the directory cannot be
    listed no such issue is emitted. *)
Theorem source_file_invalid_check df fs c :
  unique_labels df → get_column df "source_file" = Some c →
  (∀ names, listdir fs = Some names →
     ∀ f, f ∈ allowed_files fs ↔ f ∈ names ∧ eligible f)
  ∧ (listdir fs = None → allowed_files fs = ∅)
  ∧ (∀ s, s ∈ offending (allowed_files fs) c
          ↔ (s ∉ allowed_files fs) ∧ ∃ v, v ∈ values c ∧ cell_text v = Some s)
  ∧ ((∃ i, i ∈ gather_validation_issues df fs
           ∧ Issue.issue_type i = "source_file_invalid")
     ↔ allowed_files fs ≠ ∅ ∧ offending (allowed_files fs) c ≠ [])
  ∧ (∀ i, i ∈ gather_validation_issues df fs →
          Issue.issue_type i = "source_file_invalid" →
          Issue.column i = "source_file"
          ∧ Issue.count i = length (offending (allowed_files fs) c)
          ∧ ∃ sample_vals,
              Issue.details i = ValuesNotInDir sample_vals
              ∧ NoDup sample_vals
              ∧ length sample_vals ≤ 10
              ∧ (∀ s, s ∈ sample_vals → s ∈ offending (allowed_files fs) c)
              ∧ (length (unique (offending (allowed_files fs) c)) ≤ 10 →
                 ∀ s, s ∈ offending (allowed_files fs) c → s ∈ sample_vals))
  ∧ (∀ i j, i ∈ gather_validation_issues df fs →
            Issue.issue_type i = "source_file_invalid" →
            j ∈ gather_validation_issues df fs →
            Issue.issue_type j = "source_file_invalid" → i = j)
  ∧ (listdir fs = None →
     ¬ ∃ i, i ∈ gather_validation_issues df fs
            ∧ Issue.issue_type i = "source_file_invalid").
Proof.
  intros Hnd Hc.
  assert (listdir fs = None → allowed_files fs = ∅) as Hnone
    by (intros Hls; unfold allowed_files; by rewrite Hls).
  pose proof (λ i, invalid_issue_in_gather df fs c i Hnd Hc) as Hiff.
  split_and!.
  - intros names Hls f. by apply elem_of_allowed_files.
  - done.
  - intros s. apply elem_of_offending.
  - split.
    + intros (i & Hi). apply Hiff in Hi. tauto.
    + intros [Ha Ho]. exists (invalid_issue df (allowed_files fs) c).
      by apply Hiff.
  - intros i Hi Hty. destruct (proj1 (Hiff i) (conj Hi Hty)) as (_ & _ & ->).
    simpl. split_and!; [done | done |]. eexists. split_and!; [done | | | |].
    + eapply sublist_NoDup; [apply unique_NoDup | apply sublist_take].
    + rewrite length_take. lia.
    + intros s Hs. apply elem_of_unique.
      apply (elem_of_sublist _ _ _ Hs), sublist_take.
    + intros Hle s Hs. rewrite take_ge by done. by apply elem_of_unique.
  - intros i j Hi Hti Hj Htj.
    destruct (proj1 (Hiff i) (conj Hi Hti)) as (_ & _ & ->).
    by destruct (proj1 (Hiff j) (conj Hj Htj)) as (_ & _ & ->).
  - intros Hls (i & Hi). apply Hiff in Hi as [Ha _]. by apply Ha, Hnone.
Qed.

End ValidationProperties.

Lemma source_file_invalid_check_witness :
  ∃ i, i ∈ gather_validation_issues (scalars := decimal_scalars) test_frame test_dir
       ∧ Issue.issue_type i = "source_file_invalid".
Proof.
  assert (unique_labels test_frame) as Hnd
    by (apply (bool_decide_unpack _); vm_compute; exact I).
  apply (proj1 (proj2 (proj2 (proj2
           (source_file_invalid_check (scalars := decimal_scalars)
              test_frame test_dir _ Hnd eq_refl))))).
  split.
  - apply (bool_decide_unpack _). vm_compute. exact I.
  - apply (bool_decide_unpack _). vm_compute. exact I.
Defined.

(** The claim of C2 as first stated fails when the directory lists but
    holds no eligible CSV file: the value ["bad.csv"] is not an eligible
    name of the directory, yet no [source_file_invalid] issue is emitted. *)
Lemma source_file_invalid_not_emitted_without_csv :
  listdir no_csv_dir = Some ["notes.txt"; "FAF5_MERGED.csv"]
  ∧ get_column bad_source_frame "source_file" = Some bad_source_column
  ∧ Str "bad.csv" ∈ values bad_source_column
  ∧ ¬ ("bad.csv" ∈ ["notes.txt"; "FAF5_MERGED.csv"] ∧ eligible "bad.csv")
  ∧ ("bad.csv" ∉ allowed_files no_csv_dir)
  ∧ ¬ ∃ i, i ∈ gather_validation_issues (scalars := decimal_scalars)
                 bad_source_frame no_csv_dir
           ∧ Issue.issue_type i = "source_file_invalid".
Proof.
  split_and!.
  - done.
  - done.
  - by left.
  - intros [Hin _]. by apply (bool_decide_pack _) in Hin.
  - apply (bool_decide_unpack _). vm_compute. exact I.
  - assert (gather_validation_issues (scalars := decimal_scalars)
              bad_source_frame no_csv_dir = []) as -> by (by vm_compute).
    intros (i & Hi & _). by apply elem_of_nil in Hi.
Qed.



(** ** Profiling *)

Lemma unique_go_first_seen {A} `{EqDecision A} (seen l : list A) i j x y :
  unique_go seen l !! i = Some x → unique_go seen l !! j = Some y → i < j →
  ∃ k, l !! k = Some x ∧ ∀ k', l !! k' = Some y → k < k'.
Proof.
  revert seen i j. induction l as [|z l IH]; intros seen i j Hx Hy Hij; [done |].
  assert (∀ seen', y ∈ unique_go seen' l → z ∈ seen' →
            ∀ k', (z :: l) !! k' = Some y → 0 < k') as Hpos.
  { intros seen' Hyin Hz [|k'] Hk'; [| lia]. simpl in Hk'. injection Hk' as ->.
    apply elem_of_unique_go in Hyin as [_ Hn]. done. }
  simpl in Hx, Hy. case_decide as Hz.
  - destruct (IH _ _ _ Hx Hy Hij) as (k & Hk & Hfirst).
    exists (S k). split; [done |]. intros [|k'] Hk'.
    + exfalso. pose proof (Hpos seen (list_elem_of_lookup_2 _ _ _ Hy) Hz 0 Hk'). lia.
    + apply Hfirst in Hk'. lia.
  - destruct i as [|i]; destruct j as [|j]; try lia; simpl in Hx, Hy.
    + injection Hx as ->. exists 0. split; [done |].
      apply (Hpos (x :: seen)); [by apply list_elem_of_lookup_2 in Hy | by left].
    + destruct (IH _ _ _ Hx Hy ltac:(lia)) as (k & Hk & Hfirst).
      exists (S k). split; [done |]. intros [|k'] Hk'.
      * exfalso.
        pose proof (Hpos (z :: seen) (list_elem_of_lookup_2 _ _ _ Hy)
                      ltac:(by left) 0 Hk'). lia.
      * apply Hfirst in Hk'. lia.
Qed.

Lemma foldl_Qc_min x rest :
  foldl Qc_min x rest ∈ x :: rest
  ∧ ∀ y, y ∈ x :: rest → (foldl Qc_min x rest ≤ y)%Qc.
Proof.
  revert x. induction rest as [|z rest IH]; intros x; simpl.
  - split; [by left |]. intros y [-> | []%elem_of_nil]%elem_of_cons. apply Qcle_refl.
  - destruct (IH (Qc_min x z)) as [Hin Hle].
    assert (Qc_min x z ≤ x ∧ Qc_min x z ≤ z ∧ (Qc_min x z = x ∨ Qc_min x z = z))%Qc
      as (Hx & Hz & Hor).
    { unfold Qc_min. case_decide as Hxz.
      - split_and!; [apply Qcle_refl | done | by left].
      - apply Qcnot_le_lt, Qclt_le_weak in Hxz.
        split_and!; [done | apply Qcle_refl | by right]. }
    split.
    + apply elem_of_cons in Hin as [-> | Hin].
      * destruct Hor as [-> | ->]; [by left | by right; left].
      * by right; right.
    + intros y [-> | [-> | Hy]%elem_of_cons]%elem_of_cons.
      * eapply Qcle_trans; [apply Hle; by left | done].
      * eapply Qcle_trans; [apply Hle; by left | done].
      * apply Hle. by right.
Qed.

Lemma foldl_Qc_max x rest :
  foldl Qc_max x rest ∈ x :: rest
  ∧ ∀ y, y ∈ x :: rest → (y ≤ foldl Qc_max x rest)%Qc.
Proof.
  revert x. induction rest as [|z rest IH]; intros x; simpl.
  - split; [by left |]. intros y [-> | []%elem_of_nil]%elem_of_cons. apply Qcle_refl.
  - destruct (IH (Qc_max x z)) as [Hin Hle].
    assert (x ≤ Qc_max x z ∧ z ≤ Qc_max x z ∧ (Qc_max x z = x ∨ Qc_max x z = z))%Qc
      as (Hx & Hz & Hor).
    { unfold Qc_max. case_decide as Hxz.
      - split_and!; [done | apply Qcle_refl | by right].
      - apply Qcnot_le_lt, Qclt_le_weak in Hxz.
        split_and!; [apply Qcle_refl | done | by left]. }
    split.
    + apply elem_of_cons in Hin as [-> | Hin].
      * destruct Hor as [-> | ->]; [by left | by right; left].
      * by right; right.
    + intros y [-> | [-> | Hy]%elem_of_cons]%elem_of_cons.
      * eapply Qcle_trans; [done | apply Hle; by left].
      * eapply Qcle_trans; [done | apply Hle; by left].
      * apply Hle. by right.
Qed.

Lemma filter_none {A} (P : A → Prop) `{∀ x, Decision (P x)} l :
  (∀ x, x ∈ l → ¬ P x) → filter P l = [].
Proof.
  induction l as [|x l IH]; intros Hn; [done |].
  rewrite filter_cons_False by (apply Hn; by left).
  apply IH. intros y Hy. apply Hn. by right.
Qed.

Section ProfileProperties.
Context {scalars : Scalars}.

Lemma length_filter_label cols label :
  NoDup (map name cols) → length (filter (λ c, name c = label) cols) ≤ 1.
Proof.
  induction cols as [|c cols IH]; intros Hnd; [simpl; lia |].
  simpl in Hnd. apply NoDup_cons in Hnd as [Hc Hnd]. rewrite filter_cons.
  case_decide as Hl; [| by apply IH].
  rewrite (filter_none (λ c, name c = label)); [simpl; lia |].
  intros c' Hc' Hn. apply Hc. rewrite Hl, <- Hn.
  change (map name cols) with (name <$> cols). by apply list_elem_of_fmap_2.
Qed.

Lemma unique_labels_not_repeated df label : unique_labels df → ¬ repeated df label.
Proof.
  unfold repeated. intros Hnd Hr.
  pose proof (length_filter_label (columns df) label Hnd). lia.
Qed.

Lemma numbers_length c :
  numeric_cells c → length (numbers (values c)) = length (non_null_values (values c)).
Proof.
  unfold numeric_cells, numbers, non_null_values.
  induction 1 as [|v vs [-> | [q ->]] _ IH]; [done | |].
  - rewrite filter_cons_False by (by intros []). exact IH.
  - rewrite filter_cons_True by done. simpl. by f_equal.
Qed.

Lemma elem_of_texts c s :
  s ∈ texts c ↔ ∃ v, v ∈ values c ∧ v ≠ NA ∧ py_str v = s.
Proof.
  unfold texts, dropna. change (map py_str) with (fmap (M := list) py_str).
  rewrite list_elem_of_fmap. split.
  - intros (v & -> & [Hv Hin]%list_elem_of_filter). exists v.
    split_and!; [done | by destruct v | done].
  - intros (v & Hin & Hv & <-). exists v. split; [done |].
    apply list_elem_of_filter. split; [by destruct v | done].
Qed.

(** What [profile_step] does for one column: [float] fails on the missing
    standard deviation of a masked column, and on nothing else. *)
Lemma profile_of_eq c :
  profile_of c
  = if decide (too_few_numbers c) then Raise TypeError
    else Return [profile_row c (summary_of c)].
Proof.
  unfold profile_of, profile_step, get_column. cbn [columns get_column_in].
  destruct (decide (name c = name c)) as [_ | []]; [| done].
  rewrite (decide_False (P := repeated _ _)).
  2:{ apply unique_labels_not_repeated. unfold unique_labels. simpl.
      apply NoDup_singleton. }
  unfold summary_of, is_number, is_numeric_dtype, profile_row.
  assert (mask_sum (map notna (values c)) = 0
          ↔ non_null_values (values c) = []) as Hnil.
  { rewrite non_null_count. by destruct (non_null_values (values c)). }
  unfold float_of, series_std, series_mean, series_min, series_max.
  destruct (decide (too_few_numbers c)) as [(Hd & Hne & Hl) | Ht].
  - rewrite bool_decide_eq_true_2 by (rewrite Hd; set_solver).
    rewrite !(decide_False (P := mask_sum _ = 0)) by (by rewrite Hnil).
    rewrite !(decide_True (P := dtype c = DNullableNumber)) by done.
    destruct (numbers (values c)) as [|x [|y rest]]; [done | | simpl in Hl; lia].
    by rewrite (decide_True (P := length [x] ≤ 1)) by (simpl; lia).
  - case_bool_decide as Hnum;
      [| by rewrite (decide_False (P := dtype c ∈ number)) by done].
    rewrite (decide_True (P := dtype c ∈ number)) by done.
    destruct (decide (mask_sum (map notna (values c)) = 0)) as [Hz | Hz]; [done |].
    destruct (decide (dtype c = DNullableNumber)) as [Hd | Hd].
    + destruct (numbers (values c)) as [|x [|y rest]] eqn:Hxs.
      * exfalso. apply Ht. split_and!; [done | by rewrite <- Hnil | rewrite Hxs; simpl; lia].
      * exfalso. apply Ht. split_and!; [done | by rewrite <- Hnil | rewrite Hxs; simpl; lia].
      * by rewrite (decide_False (P := length (x :: y :: rest) ≤ 1)) by (simpl; lia).
    + destruct (numbers (values c)) as [|x rest] eqn:Hxs; [done |].
      by case_decide.
Qed.

Lemma profile_step_of df profiles c :
  unique_labels df → c ∈ columns df →
  profile_step df profiles (name c)
  = try! rows := profile_of c in Return (profiles ++ rows).
Proof.
  intros Hnd Hc. unfold profile_of, profile_step, get_column.
  rewrite (get_column_in_elem _ c Hnd Hc). cbn [columns get_column_in].
  destruct (decide (name c = name c)) as [_ | []]; [| done].
  rewrite !(decide_False (P := repeated _ _)).
  - match goal with |- and_then ?S _ = _ => destruct S end; done.
  - apply unique_labels_not_repeated. unfold unique_labels. simpl.
    apply NoDup_singleton.
  - by apply unique_labels_not_repeated.
Qed.

Lemma profile_loop_rows df cols profiles :
  unique_labels df → cols ⊆ columns df →
  profile_loop df (map name cols) profiles
  = if decide (Exists too_few_numbers cols) then Raise TypeError
    else Return (profiles ++ map (λ c, profile_row c (summary_of c)) cols).
Proof.
  intros Hnd. revert profiles.
  induction cols as [|c cols IH]; intros profiles Hsub.
  { cbn [map profile_loop].
    destruct (decide (Exists too_few_numbers [])) as [?%Exists_nil | _]; [done |].
    by rewrite app_nil_r. }
  cbn [map profile_loop]. rewrite profile_step_of by (done || (apply Hsub; by left)).
  rewrite profile_of_eq. destruct (decide (too_few_numbers c)) as [Hc | Hc].
  { simpl. by rewrite decide_True by (by left). }
  simpl. rewrite IH by (intros c' Hc'; apply Hsub; by right).
  destruct (decide (Exists too_few_numbers cols)) as [Hex | Hex].
  - by rewrite decide_True by (by right).
  - rewrite decide_False by (by intros [? | ?]%Exists_cons).
    by rewrite <- app_assoc.
Qed.

Lemma profile_columns_eq df :
  unique_labels df →
  profile_columns df
  = if decide (Exists too_few_numbers (columns df)) then Raise TypeError
    else Return (map (λ c, profile_row c (summary_of c)) (columns df)).
Proof.
  intros Hnd. unfold profile_columns. by rewrite profile_loop_rows.
Qed.

Lemma profile_row_describes c : profile_describes c (profile_row c (summary_of c)).
Proof.
  unfold profile_describes, profile_row, summary_of. cbn.
  rewrite non_null_count. split_and!; [done .. | |].
  - intros Hnum. rewrite decide_True by done.
    destruct (decide (length (non_null_values (values c)) = 0)) as [Hz | Hz].
    + eexists _, _, _, _. split; [reflexivity |]. split; [done | done].
    + eexists _, _, _, _. split; [reflexivity |]. split; [done |].
      intros Hcells Hnn.
      pose proof (numbers_length c Hcells) as Hlen.
      unfold series_std, series_mean, series_min, series_max.
      destruct (numbers (values c)) as [|x rest] eqn:Hxs; [simpl in Hlen; lia |].
      destruct (foldl_Qc_min x rest) as [Hmin1 Hmin2].
      destruct (foldl_Qc_max x rest) as [Hmax1 Hmax2].
      split_and!; [done | by eexists | by eexists | done | done].
  - intros Htext. rewrite decide_False by done.
    eexists. split; [reflexivity |]. fold (texts c).
    split_and!.
    + rewrite length_take. lia.
    + eapply sublist_NoDup; [apply unique_NoDup | apply sublist_take].
    + intros s Hs. apply elem_of_texts, elem_of_unique.
      apply (elem_of_sublist _ _ _ Hs), sublist_take.
    + intros Hle v Hv Hna. rewrite take_ge by done.
      apply elem_of_unique, elem_of_texts. by exists v.
    + intros i j s t Hi Hj Hij.
      apply lookup_take_Some in Hi as [Hi _]. apply lookup_take_Some in Hj as [Hj _].
      by apply (unique_go_first_seen [] (texts c) i j).
Qed.

Lemma too_few_numbers_lone c :
  numeric_cells c →
  too_few_numbers c
  ↔ dtype c = DNullableNumber ∧ length (non_null_values (values c)) = 1.
Proof.
  intros Hcells. unfold too_few_numbers. rewrite (numbers_length c Hcells).
  destruct (non_null_values (values c)) as [|v [|w l]]; simpl;
    split; intros H; destruct_and?; split_and?; (done || lia).
Qed.

(** C8: on a table with distinct labels [profile_columns] raises
    TypeError exactly when some column is a masked numeric column with a
    non-null cell and fewer than two numbers, which for a column of
    numbers and nulls means exactly one non-null value: the standard
    deviation of such a column is [pd.NA], which [float] rejects.  It
    raises no other error.  Cleaning makes such a column of a text
    column whose only value parses: on the cleaned one-row table
    [{"n": ["5"]}] [profile_columns] raises.  When it returns, it gives
    one profile row per column, in the column order of the table.  For a
    numeric column the row carries min, max, mean and standard deviation,
    all null when the column has no non-null value; otherwise min and max
    are the least and the greatest of the non-null values, the mean is
    their sum over their number, and the standard deviation is the root
    of the sum of squared deviations over one less than their number
    (null for a single value).  For any other column the row carries at
    most five distinct stringified non-null values joined with [", "]:
    all of them when there are at most five, and in the order in which
    they first appear in the column. *)
Theorem profile_columns_rows df :
  unique_labels df →
  (profile_columns df = Raise TypeError ↔ Exists too_few_numbers (columns df))
  ∧ (∀ e, profile_columns df = Raise e → e = TypeError)
  ∧ ((∃ rows, profile_columns df = Return rows)
     ↔ Forall (λ c, ¬ too_few_numbers c) (columns df))
  ∧ (∀ rows, profile_columns df = Return rows →
       length rows = length (columns df)
       ∧ map Profile.column_name rows = map name (columns df)
       ∧ Forall2 profile_describes (columns df) rows)
  ∧ (∀ c, numeric_cells c →
       (too_few_numbers c
        ↔ dtype c = DNullableNumber ∧ length (non_null_values (values c)) = 1))
  ∧ clean_dataframe (scalars := decimal_scalars) lone_text_frame = lone_number_frame
  ∧ profile_columns (scalars := decimal_scalars) lone_number_frame = Raise TypeError.
Proof.
  intros Hnd. rewrite profile_columns_eq by done.
  split_and!.
  - by case_decide.
  - intros e. case_decide; [congruence | done].
  - case_decide as Hex.
    + split; [by intros [rows ?] |]. intros Hall. exfalso.
      apply Exists_exists in Hex as (c & Hc & Ht).
      by apply (proj1 (Forall_forall _ _) Hall c).
    + split; [| by eexists]. intros _. apply Forall_forall. intros c Hc Ht.
      apply Hex, Exists_exists. eauto.
  - intros rows. case_decide; [done |]. intros [= <-].
    split_and!; [by rewrite length_map | by rewrite map_map |].
    apply Forall2_map_diag. intros c _. apply profile_row_describes.
  - apply too_few_numbers_lone.
  - by vm_compute.
  - by vm_compute.
Qed.

End ProfileProperties.

Lemma profile_columns_rows_witness :
  (profile_columns (scalars := decimal_scalars) lone_number_frame = Raise TypeError
   ↔ Exists too_few_numbers (columns lone_number_frame))
  ∧ map Profile.column_name
        (returned (profile_columns (scalars := decimal_scalars) test_frame))
    = map name (columns test_frame)
  ∧ Forall2 (profile_describes (scalars := decimal_scalars)) (columns test_frame)
            (returned (profile_columns (scalars := decimal_scalars) test_frame)).
Proof.
  split.
  - apply (profile_columns_rows (scalars := decimal_scalars) lone_number_frame).
    apply (bool_decide_unpack _). vm_compute. exact I.
  - assert (unique_labels test_frame) as Hnd
      by (apply (bool_decide_unpack _); vm_compute; exact I).
    destruct (profile_columns_rows (scalars := decimal_scalars) test_frame Hnd)
      as (_ & _ & _ & Hrows & _).
    destruct (Hrows (returned (profile_columns (scalars := decimal_scalars) test_frame)))
      as (_ & Hnames & Hdesc); [by vm_compute | done].
Defined.

(** ** Renaming with suffixes *)

Lemma dict_set_absent {V} (d : list (string * V)) k v :
  k ∉ map fst d → dict_set d k v = d ++ [(k, v)].
Proof.
  induction d as [|[k' v'] d IH]; [done |]. simpl.
  intros [Hne Hd]%not_elem_of_cons. rewrite decide_False by done.
  by rewrite IH.
Qed.

Lemma dict_set_present {V} (d rest : list (string * V)) k v0 v :
  k ∉ map fst d → dict_set (d ++ (k, v0) :: rest) k v = d ++ (k, v) :: rest.
Proof.
  induction d as [|[k' v'] d IH]; simpl.
  - intros _. by rewrite decide_True.
  - intros [Hne Hd]%not_elem_of_cons. rewrite decide_False by done.
    by rewrite IH.
Qed.

Lemma dict_get_app_absent {V} (d rest : list (string * V)) k :
  k ∉ map fst d → dict_get (d ++ rest) k = dict_get rest k.
Proof.
  induction d as [|[k' v'] d IH]; [done |]. simpl.
  intros [Hne Hd]%not_elem_of_cons. rewrite decide_False by done. by apply IH.
Qed.

Lemma initial_rename_map (f : string → string) labels d :
  NoDup labels → (∀ l, l ∈ labels → l ∉ map fst d) →
  fold_left (λ d name, dict_set d name (f name)) labels d
  = d ++ map (λ l, (l, f l)) labels.
Proof.
  revert d. induction labels as [|l labels IH]; intros d Hnd Hd; simpl.
  - by rewrite app_nil_r.
  - apply NoDup_cons in Hnd as [Hl Hnd].
    rewrite dict_set_absent by (apply Hd; by left).
    rewrite IH; [by rewrite <- app_assoc | done |].
    intros l' Hl'. rewrite map_app. simpl. rewrite elem_of_app, elem_of_cons.
    intros [Hin | [-> | []%elem_of_nil]]; [| done].
    by apply (Hd l'); [right |].
Qed.

Lemma map_fst_renames before labels : map fst (renames before labels) = labels.
Proof.
  revert before. induction labels as [|l labels IH]; intros before; [done |].
  simpl. by rewrite IH.
Qed.

Lemma normalized_before_snoc before l s :
  normalized_before (before ++ [l]) s
  = normalized_before before s
    + (if decide (normalize_column_name l = s) then 1 else 0).
Proof.
  unfold normalized_before. rewrite filter_app, length_app. f_equal.
  rewrite filter_cons, filter_nil. by case_decide.
Qed.

(** The loop of [normalize_column_names]: with [seen] counting the
    normalised names of the labels already visited, it leaves the final
    names in [rename_map]. *)
Lemma collision_loop todo visited seen (R : list (string * string)) :
  NoDup todo → (∀ l, l ∈ todo → l ∉ map fst R) →
  (∀ s, seen !! s = if decide (normalized_before visited s = 0) then None
                    else Some (normalized_before visited s)) →
  snd (fold_left collision_step
         (map (λ l, (l, normalize_column_name l)) todo)
         (seen, R ++ map (λ l, (l, normalize_column_name l)) todo))
  = R ++ renames visited todo.
Proof.
  revert visited seen R. induction todo as [|l todo IH]; intros visited seen R Hnd HR Hseen;
    [done |].
  apply NoDup_cons in Hnd as [Hl Hnd].
  assert (∀ (v : string) l', l' ∈ todo → l' ∉ map fst (R ++ [(l, v)])) as HR'.
  { intros v l' Hl'. rewrite map_app. simpl. rewrite elem_of_app, elem_of_cons.
    intros [Hin | [-> | []%elem_of_nil]]; [| done].
    by apply (HR l'); [right |]. }
  cbn [map fold_left]. unfold collision_step at 2.
  rewrite (Hseen (normalize_column_name l)).
  set (s := normalize_column_name l).
  case_decide as Hk.
  - (* first column with this normalised name *)
    replace (R ++ (l, s) :: map (λ l0, (l0, normalize_column_name l0)) todo)
      with ((R ++ [(l, s)]) ++ map (λ l0, (l0, normalize_column_name l0)) todo)
      by (by rewrite <- app_assoc).
    rewrite (IH (visited ++ [l]) _ (R ++ [(l, s)])); [| done | by apply HR' |].
    + rewrite <- app_assoc. simpl. unfold new_name. fold s.
      by rewrite decide_True.
    + intros s'. rewrite normalized_before_snoc. fold s.
      destruct (decide (s = s')) as [<- | Hne].
      * rewrite lookup_insert_eq. case_decide; [lia | f_equal; lia].
      * rewrite lookup_insert_ne by done. rewrite Hseen, Nat.add_0_r. done.
  - (* a later one: its name is suffixed *)
    rewrite dict_set_present by (apply HR; by left).
    replace (R ++ (l, s +:+ "_" +:+ pretty (normalized_before visited s + 1))
               :: map (λ l0, (l0, normalize_column_name l0)) todo)
      with ((R ++ [(l, s +:+ "_" +:+ pretty (normalized_before visited s + 1))])
            ++ map (λ l0, (l0, normalize_column_name l0)) todo)
      by (by rewrite <- app_assoc).
    rewrite (IH (visited ++ [l]) _ (R ++ [(l, _)])); [| done | by apply HR' |].
    + rewrite <- app_assoc. simpl. unfold new_name. fold s.
      by rewrite decide_False.
    + intros s'. rewrite normalized_before_snoc. fold s.
      destruct (decide (s = s')) as [<- | Hne].
      * rewrite lookup_insert_eq. case_decide; [lia | f_equal; lia].
      * rewrite lookup_insert_ne by done. rewrite Hseen, Nat.add_0_r. done.
Qed.

Lemma dict_get_renames before labels i l :
  NoDup labels → labels !! i = Some l →
  dict_get (renames before labels) l = Some (new_name (before ++ take i labels) l).
Proof.
  revert before i. induction labels as [|l0 labels IH]; intros before i Hnd Hi; [done |].
  apply NoDup_cons in Hnd as [Hl0 Hnd]. destruct i as [|i]; simpl in *.
  - injection Hi as ->. by rewrite decide_True, app_nil_r.
  - rewrite decide_False
      by (intros ->; apply Hl0; by apply list_elem_of_lookup_2 in Hi).
    rewrite (IH _ i) by done. by rewrite <- app_assoc.
Qed.

Lemma normalize_column_names_renames df :
  unique_labels df →
  normalize_column_names df = rename_columns (renames [] (map name (columns df))) df.
Proof.
  intros Hnd. unfold normalize_column_names.
  rewrite (initial_rename_map normalize_column_name _ [] Hnd)
    by (intros; apply not_elem_of_nil).
  pose proof (collision_loop (map name (columns df)) [] ∅ [] Hnd) as Hloop.
  simpl in Hloop.
  destruct (fold_left collision_step _ _) as [seen rename_map]. simpl in *.
  rewrite Hloop; [done | intros; apply not_elem_of_nil |].
  intros s. by rewrite lookup_empty.
Qed.

Lemma new_name_first before label :
  normalize_column_name label ∉ map normalize_column_name before →
  new_name before label = normalize_column_name label.
Proof.
  intros Hout. unfold new_name. rewrite decide_True; [done |].
  unfold normalized_before.
  destruct (filter _ before) as [|l' rest] eqn:E; [done |]. exfalso. apply Hout.
  assert (l' ∈ filter (λ l, normalize_column_name l = normalize_column_name label) before)
    as [Heq Hin]%list_elem_of_filter by (rewrite E; by left).
  rewrite <- Heq. change (map normalize_column_name before)
    with (normalize_column_name <$> before). by apply list_elem_of_fmap_2.
Qed.

(** X1: on a table with distinct labels [normalize_column_names] keeps the
    row index, the column count, the dtypes and the cells, and names the
    column at position [i] by its normalised label, followed by [_k] when
    it is the [k]-th column (k at least two) whose label normalises to
    that name.  When no two labels normalise to the same name every column
    gets exactly its normalised label and the labels stay distinct. *)
Theorem normalize_column_names_numbering df :
  unique_labels df →
  index (normalize_column_names df) = index df
  ∧ length (columns (normalize_column_names df)) = length (columns df)
  ∧ (∀ i c, columns df !! i = Some c →
       columns (normalize_column_names df) !! i
       = Some {| name := new_name (take i (map name (columns df))) (name c);
                 dtype := dtype c; values := values c |})
  ∧ (NoDup (map normalize_column_name (map name (columns df))) →
       map name (columns (normalize_column_names df))
       = map normalize_column_name (map name (columns df))
       ∧ unique_labels (normalize_column_names df)).
Proof.
  intros Hnd. rewrite normalize_column_names_renames by done.
  unfold rename_columns. cbn [index columns].
  assert (∀ i c, columns df !! i = Some c →
            default (name c) (dict_get (renames [] (map name (columns df))) (name c))
            = new_name (take i (map name (columns df))) (name c)) as Hname.
  { intros i c Hc. rewrite (dict_get_renames [] _ i); [done | done |].
    change (map name (columns df)) with (name <$> columns df).
    by rewrite list_lookup_fmap, Hc. }
  split_and!.
  - done.
  - by rewrite length_map.
  - intros i c Hc.
    change (map ?f (columns df)) with (f <$> columns df).
    rewrite list_lookup_fmap, Hc. simpl. by rewrite (Hname i).
  - intros Hnorm.
    assert (map name (map (λ c, {| name := default (name c)
                                     (dict_get (renames [] (map name (columns df)))
                                        (name c));
                                   dtype := dtype c; values := values c |})
                          (columns df))
            = map normalize_column_name (map name (columns df))) as Heq.
    { rewrite !map_map. apply list_eq. intros i.
      change (map ?f (columns df)) with (f <$> columns df).
      rewrite !list_lookup_fmap.
      destruct (columns df !! i) as [c |] eqn:Hc; [| done]. simpl. f_equal.
      rewrite (Hname i c Hc). apply new_name_first.
      pose proof (take_drop_middle (columns df) i c Hc) as Hsplit.
      rewrite <- Hsplit in Hnorm. rewrite !map_app in Hnorm. simpl in Hnorm.
      apply NoDup_app in Hnorm as (_ & Hdisj & _).
      change (map name (columns df)) with (name <$> columns df).
      rewrite <- fmap_take.
      intros Hin. apply (Hdisj _ Hin). by left. }
    split; [done |]. unfold unique_labels. cbn [columns]. by rewrite Heq.
Qed.

Lemma normalize_column_names_numbering_witness :
  map name (columns (normalize_column_names repeated_rows_frame))
  = map normalize_column_name (map name (columns repeated_rows_frame))
  ∧ unique_labels (normalize_column_names repeated_rows_frame).
Proof.
  apply (normalize_column_names_numbering repeated_rows_frame).
  - apply (bool_decide_unpack _). vm_compute. exact I.
  - apply (bool_decide_unpack _). vm_compute. exact I.
Defined.

(** ** Standardising text *)

Section Standardize.
Context {scalars : Scalars}.

Lemma str_strip_not_padded s : ¬ padded (str_strip s).
Proof.
  unfold padded, str_strip. rewrite String.list_ascii_of_string_of_list_ascii.
  intros [(c & Hc & Hsp) | (c & Hc & Hsp)].
  - apply strip_head in Hc. congruence.
  - apply strip_last in Hc. congruence.
Qed.

Lemma strip_step_update df label :
  strip_step df label = update_step (λ s, Some (standardized s)) df label.
Proof.
  unfold strip_step, update_step. by destruct (get_column df label).
Qed.

Lemma strip_columns df :
  unique_labels df →
  strip_and_standardize_strings df
  = {| index := index df;
       columns := map (λ c, if decide (dtype c = DObject) then standardized c else c)
                      (columns df) |}.
Proof.
  intros Hnd. unfold strip_and_standardize_strings.
  rewrite (fold_left_ext _ (update_step (λ s, Some (standardized s))))
    by (intros; apply strip_step_update).
  rewrite update_loop; [| done | by apply NoDup_selected_labels].
  f_equal. apply map_ext_in. intros c Hc%list_elem_of_In. unfold select_dtypes.
  destruct (decide (dtype c = DObject)) as [Ht | Ht].
  - rewrite decide_True; [by destruct c |].
    apply (elem_of_selected_labels (λ c, dtype c ∈ [DObject])); [done .. |].
    rewrite Ht. by left.
  - rewrite decide_False; [done |].
    rewrite (elem_of_selected_labels (λ c, dtype c ∈ [DObject])) by done.
    by intros [? | []%elem_of_nil]%elem_of_cons.
Qed.

(** X2: on a table with distinct labels [strip_and_standardize_strings]
    keeps the row index, the labels and their order, and every column that
    is not of object dtype; an object column becomes a string column of
    the same length in which a null stays null, any other cell is the
    stripped text of the cell, or null when that text is empty, so no cell
    is left empty or padded with whitespace; and a second application
    changes nothing. *)
Theorem strip_and_standardize_strings_cells df :
  unique_labels df →
  index (strip_and_standardize_strings df) = index df
  ∧ map name (columns (strip_and_standardize_strings df)) = map name (columns df)
  ∧ (∀ i c, columns df !! i = Some c → dtype c ≠ DObject →
       columns (strip_and_standardize_strings df) !! i = Some c)
  ∧ (∀ i c, columns df !! i = Some c → dtype c = DObject →
       ∃ c', columns (strip_and_standardize_strings df) !! i = Some c'
         ∧ name c' = name c ∧ dtype c' = DString
         ∧ length (values c') = length (values c)
         ∧ ∀ j v, values c !! j = Some v →
             ∃ v', values c' !! j = Some v'
               ∧ (v = NA → v' = NA)
               ∧ (v ≠ NA →
                    v' = if decide (str_strip (py_str v) = "") then NA
                         else Str (str_strip (py_str v)))
               ∧ ∀ s, v' = Str s → s ≠ "" ∧ ¬ padded s)
  ∧ strip_and_standardize_strings (strip_and_standardize_strings df)
    = strip_and_standardize_strings df.
Proof.
  intros Hnd. rewrite strip_columns by done. cbn [index columns].
  set (F := λ c, if decide (dtype c = DObject) then standardized c else c).
  assert (∀ c, name (F c) = name c) as HF
    by (intros c; unfold F; by case_decide).
  assert (map name (map F (columns df)) = map name (columns df)) as Hnames
    by (rewrite map_map; by apply map_ext).
  split_and!.
  - done.
  - done.
  - intros i c Hc Ht. change (map F (columns df)) with (F <$> columns df).
    rewrite list_lookup_fmap, Hc. simpl. unfold F. by rewrite decide_False.
  - intros i c Hc Ht. exists (standardized c).
    change (map F (columns df)) with (F <$> columns df).
    rewrite list_lookup_fmap, Hc. simpl. unfold F. rewrite decide_True by done.
    split_and!; [done .. | by simpl; rewrite length_map |].
    intros j v Hv. eexists. split.
    { simpl. change (map ?f (values c)) with (f <$> values c).
      rewrite list_lookup_fmap, Hv. reflexivity. }
    destruct v as [|s|q]; simpl; unfold empty_to_na.
    + split_and!; [done | done |]. by intros s; case_decide.
    + split_and!; [done | |].
      * intros _. case_decide as H1; case_decide as H2; congruence.
      * intros s'. case_decide as H1; [done |]. intros [= <-].
        split; [congruence | apply str_strip_not_padded].
    + split_and!; [done | |].
      * intros _. case_decide as H1; case_decide as H2; congruence.
      * intros s'. case_decide as H1; [done |]. intros [= <-].
        split; [congruence | apply str_strip_not_padded].
  - rewrite (strip_columns {| index := index df; columns := map F (columns df) |})
      by (unfold unique_labels; cbn [columns]; by rewrite Hnames).
    cbn [index columns]. f_equal. rewrite map_map. apply map_ext.
    intros c. unfold F. by repeat case_decide.
Qed.
End Standardize.

Lemma strip_and_standardize_strings_cells_witness :
  strip_and_standardize_strings (scalars := decimal_scalars)
    (strip_and_standardize_strings (scalars := decimal_scalars) frame_a)
  = strip_and_standardize_strings (scalars := decimal_scalars) frame_a.
Proof.
  apply (strip_and_standardize_strings_cells (scalars := decimal_scalars) frame_a).
  apply (bool_decide_unpack _). vm_compute. exact I.
Defined.

(** ** Numeric coercion, again *)

Section CoercionStable.
Context {scalars : Scalars}.

(** X3: on a table with distinct labels [convert_mostly_numeric_columns]
    keeps the row index, the labels and the length of every column; a null
    cell stays null and a cell that already holds a number keeps it; and
    converting again at the same threshold changes nothing. *)
Theorem convert_mostly_numeric_columns_stable df threshold :
  unique_labels df →
  index (convert_mostly_numeric_columns df threshold) = index df
  ∧ map name (columns (convert_mostly_numeric_columns df threshold))
    = map name (columns df)
  ∧ (∀ i c, columns df !! i = Some c →
       ∃ c', columns (convert_mostly_numeric_columns df threshold) !! i = Some c'
         ∧ length (values c') = length (values c)
         ∧ ∀ j v, values c !! j = Some v →
             ∃ v', values c' !! j = Some v'
               ∧ (v = NA → v' = NA) ∧ (∀ q, v = Num q → v' = Num q))
  ∧ convert_mostly_numeric_columns
      (convert_mostly_numeric_columns df threshold) threshold
    = convert_mostly_numeric_columns df threshold.
Proof.
  intros Hnd. rewrite convert_columns by done. cbn [index columns].
  set (F := λ c, if decide (is_text c)
                 then updated (convert_choice threshold) c else c).
  assert (∀ c, F c = c ∨ (is_text c ∧ F c = to_numeric c)) as HF.
  { intros c. unfold F. case_decide as Ht; [| by left].
    unfold updated. rewrite convert_choice_spec. case_decide; [right | by left].
    by destruct c. }
  assert (∀ c, name (F c) = name c) as Hname
    by (intros c; destruct (HF c) as [-> | [_ ->]]; done).
  assert (map name (map F (columns df)) = map name (columns df)) as Hnames
    by (rewrite map_map; by apply map_ext).
  split_and!.
  - done.
  - done.
  - intros i c Hc. exists (F c).
    change (map F (columns df)) with (F <$> columns df).
    rewrite list_lookup_fmap, Hc. split; [done |].
    destruct (HF c) as [-> | [_ ->]].
    + split; [done |]. intros j v Hv. by exists v.
    + simpl. rewrite length_map. split; [done |]. intros j v Hv. eexists. split.
      * change (map ?f (values c)) with (f <$> values c).
        rewrite list_lookup_fmap, Hv. reflexivity.
      * split; [by intros -> | by intros q ->].
  - rewrite (convert_columns {| index := index df; columns := map F (columns df) |})
      by (unfold unique_labels; cbn [columns]; by rewrite Hnames).
    cbn [index columns]. f_equal. rewrite map_map. apply map_ext. intros c.
    fold F. destruct (HF c) as [Heq | [Ht Heq]]; rewrite Heq; [done |].
    destruct (HF (to_numeric c)) as [Heq' | [Ht' _]]; [done |].
    exfalso. by apply (to_numeric_not_text c).
Qed.
End CoercionStable.

(** ** Dropping empty columns *)

(** X4: [drop_empty_columns] keeps the row index and exactly the columns
    that hold a non-null cell, in their order; on a table whose columns
    have no cells it drops every column; it keeps columns aligned and
    labels distinct; and a second application changes nothing. *)
Theorem drop_empty_columns_keeps df :
  index (drop_empty_columns df) = index df
  ∧ sublist (columns (drop_empty_columns df)) (columns df)
  ∧ (∀ c, c ∈ columns (drop_empty_columns df)
          ↔ c ∈ columns df ∧ ∃ v, v ∈ values c ∧ v ≠ NA)
  ∧ ((∀ c, c ∈ columns df → values c = []) → columns (drop_empty_columns df) = [])
  ∧ (aligned df → aligned (drop_empty_columns df))
  ∧ (unique_labels df → unique_labels (drop_empty_columns df))
  ∧ drop_empty_columns (drop_empty_columns df) = drop_empty_columns df.
Proof.
  unfold drop_empty_columns, dropna_columns_all. cbn [index columns].
  assert (∀ c, Exists (λ v, notna v = true) (values c)
               ↔ ∃ v, v ∈ values c ∧ v ≠ NA) as Hex.
  { intros c. rewrite Exists_exists. split; intros (v & Hv & Hn); exists v;
      (split; [done |]); by destruct v. }
  split_and!.
  - done.
  - apply sublist_filter.
  - intros c. rewrite list_elem_of_filter, Hex. tauto.
  - intros Hempty. induction (columns df) as [|c cs IH]; [done |].
    rewrite filter_cons_False.
    + apply IH. intros c' Hc'. apply Hempty. by right.
    + rewrite (Hempty c) by (by left). by intros ?%Exists_nil.
  - unfold aligned, len. cbn [index columns]. intros Hal.
    apply Forall_forall. intros c [_ Hc]%list_elem_of_filter.
    by apply (proj1 (Forall_forall _ _) Hal).
  - unfold unique_labels. cbn [columns]. apply NoDup_selected_labels.
  - f_equal. induction (columns df) as [|c cs IH]; [done |].
    rewrite filter_cons. case_decide as Hc; [| done].
    rewrite filter_cons_True by done. by f_equal.
Qed.

Lemma convert_mostly_numeric_columns_stable_witness :
  convert_mostly_numeric_columns (scalars := decimal_scalars)
    (convert_mostly_numeric_columns (scalars := decimal_scalars)
       frame_a default_threshold)
    default_threshold
  = convert_mostly_numeric_columns (scalars := decimal_scalars)
      frame_a default_threshold.
Proof.
  apply (convert_mostly_numeric_columns_stable (scalars := decimal_scalars)
           frame_a default_threshold).
  apply (bool_decide_unpack _). vm_compute. exact I.
Defined.

Lemma drop_empty_columns_keeps_witness :
  aligned (drop_empty_columns repeated_rows_frame).
Proof.
  apply (drop_empty_columns_keeps repeated_rows_frame).
  apply (bool_decide_unpack _). vm_compute. exact I.
Defined.

(** ** Duplicate rows, column by column *)

Lemma mask_select_elem {A} (mask : list bool) (xs : list A) p x :
  mask !! p = Some true → xs !! p = Some x → x ∈ mask_select mask xs.
Proof.
  revert xs p. induction mask as [|b mask IH]; intros [|y xs] [|p]; simpl; try done.
  - intros [= ->] [= ->]. by left.
  - intros Hm Hx. destruct b; [right |]; by apply (IH xs p).
Qed.

Lemma map_eq_elem {A B} (f g : A → B) l x :
  map f l = map g l → x ∈ l → f x = g x.
Proof.
  induction l as [|y l IH]; simpl; [by intros _ ?%elem_of_nil |].
  intros [= Hy Hl] [-> | Hin]%elem_of_cons; [done | by apply IH].
Qed.

Lemma mask_sum_negb mask : mask_sum (map negb mask) + mask_sum mask = length mask.
Proof.
  induction mask as [|b mask IH]; [done |]. cbn [map length].
  rewrite !mask_sum_cons. destruct b; simpl; lia.
Qed.

Lemma duplicated_length df :
  aligned df → empty df = false → length (duplicated df) = len df.
Proof.
  intros Hal Hem. by rewrite duplicated_rows, duplicated_go_length, length_rows.
Qed.

Lemma nth_lookup_value (vs : list value) p v :
  p < length vs → nth p vs NA = v → vs !! p = Some v.
Proof.
  intros Hp <-. revert p Hp. induction vs as [|w vs IH]; intros [|p] Hp; simpl in *;
    try lia; [done |]. apply IH. lia.
Qed.

Lemma remove_duplicate_rows_names df :
  map name (columns (remove_duplicate_rows df)) = map name (columns df).
Proof.
  unfold remove_duplicate_rows, drop_duplicates. destruct (empty df); [done |].
  cbn [select_rows columns]. rewrite map_map. by apply map_ext.
Qed.

Lemma remove_duplicate_rows_aligned df :
  aligned df → aligned (remove_duplicate_rows df).
Proof.
  intros Hal. unfold remove_duplicate_rows, drop_duplicates.
  destruct (empty df) eqn:Hem; [done |].
  apply aligned_select_rows; [done |]. rewrite length_map. by apply duplicated_length.
Qed.

Lemma remove_duplicate_rows_index df :
  sublist (index (remove_duplicate_rows df)) (index df).
Proof.
  unfold remove_duplicate_rows, drop_duplicates. destruct (empty df); [done |].
  apply mask_select_sublist.
Qed.

Lemma remove_duplicate_rows_NoDup df :
  aligned df → NoDup (rows (remove_duplicate_rows df)).
Proof.
  intros Hal. unfold remove_duplicate_rows, drop_duplicates.
  destruct (empty df) eqn:Hem; [rewrite rows_empty by done; constructor |].
  rewrite rows_select_rows; [| done | rewrite length_map; by apply duplicated_length].
  rewrite duplicated_rows by done. apply kept_NoDup.
Qed.

Lemma remove_duplicate_rows_cells df :
  aligned df →
  Forall2 (λ c c', name c' = name c ∧ dtype c' = dtype c
                   ∧ sublist (values c') (values c)
                   ∧ ∀ v, v ∈ values c ↔ v ∈ values c')
          (columns df) (columns (remove_duplicate_rows df)).
Proof.
  intros Hal. unfold remove_duplicate_rows, drop_duplicates.
  destruct (empty df) eqn:Hem.
  { apply Forall2_same_length_lookup. split; [done |].
    intros i c c' Hc Hc'. by simplify_eq. }
  assert (columns df ≠ []) as Hne
    by (apply orb_false_iff in Hem as [_ Hc]; by apply bool_decide_eq_false in Hc).
  pose proof (duplicated_length df Hal Hem) as Hlen.
  set (keep := map negb (duplicated df)).
  cbn [select_rows columns]. apply Forall2_map_diag. intros c Hc. cbn [name dtype values].
  split_and!; [done | done | apply mask_select_sublist |].
  intros v. split.
  - intros Hv. apply list_elem_of_lookup in Hv as [p Hp].
    assert (length (values c) = len df) as Hlc
      by (by apply (proj1 (Forall_forall _ _) Hal)).
    assert (p < len df) as Hplt by (rewrite <- Hlc; by eapply lookup_lt_Some).
    assert (row_at df p ∈ rows df) as Hrow.
    { rewrite rows_nonempty by done.
      change (map (row_at df)) with (fmap (M := list) (row_at df)).
      apply list_elem_of_fmap_2, elem_of_seq. lia. }
    assert (row_at df p ∈ kept [] (rows df)) as Hkept
      by (apply elem_of_kept; split; [done | apply not_elem_of_nil]).
    unfold kept in Hkept. rewrite <- duplicated_rows in Hkept by done.
    fold keep in Hkept.
    apply mask_select_lookup in Hkept as (q & Hq & Hrq).
    rewrite rows_nonempty in Hrq by done.
    change (map (row_at df)) with (fmap (M := list) (row_at df)) in Hrq.
    apply list_lookup_fmap_Some in Hrq as (q' & Heq & Hq').
    apply lookup_seq in Hq' as [-> Hqlt]. simpl in Heq.
    unfold row_at in Heq.
    pose proof (map_eq_elem _ _ _ c Heq Hc) as Hcell. simpl in Hcell.
    apply (mask_select_elem keep (values c) q); [done |].
    apply nth_lookup_value; [lia |]. rewrite <- Hcell.
    by apply nth_lookup_Some with (d := NA) in Hp.
  - intros Hv. eapply elem_of_sublist; [exact Hv | apply mask_select_sublist].
Qed.

(** X5: on a table with aligned columns [remove_duplicate_rows] keeps the
    columns with their labels and types, keeps them aligned, and keeps a
    subsequence of the row labels; every column keeps a subsequence of its
    cells and loses no value: a value that occurs in a column still occurs
    in it afterwards. *)
Theorem remove_duplicate_rows_columns df :
  aligned df →
  aligned (remove_duplicate_rows df)
  ∧ sublist (index (remove_duplicate_rows df)) (index df)
  ∧ Forall2 (λ c c', name c' = name c ∧ dtype c' = dtype c
                     ∧ sublist (values c') (values c)
                     ∧ ∀ v, v ∈ values c ↔ v ∈ values c')
            (columns df) (columns (remove_duplicate_rows df)).
Proof.
  intros Hal. split_and!.
  - by apply remove_duplicate_rows_aligned.
  - apply remove_duplicate_rows_index.
  - by apply remove_duplicate_rows_cells.
Qed.

(** ** Counting duplicate rows *)

Lemma duplicated_go_none seen rows :
  mask_sum (duplicated_go seen rows) = 0 ↔ NoDup rows ∧ ∀ r, r ∈ rows → r ∉ seen.
Proof.
  revert seen. induction rows as [|r rows IH]; intros seen; simpl.
  - split; [| done]. intros _. split; [constructor | by intros r ?%elem_of_nil].
  - rewrite mask_sum_cons, NoDup_cons. case_bool_decide as Hr.
    + split; [lia |]. intros [_ Hdisj]. exfalso. apply (Hdisj r); [by left | done].
    + simpl. rewrite IH. split.
      * intros [Hnd Hdisj]. split_and!; [| done |].
        -- intros Hin. apply (Hdisj r Hin). by left.
        -- intros r' [-> | Hin]%elem_of_cons; [done |].
           intros Hs. apply (Hdisj r' Hin). by right.
      * intros [[Hnotin Hnd] Hdisj]. split; [done |].
        intros r' Hin [-> | Hs]%elem_of_cons; [done |].
        apply (Hdisj r'); [by right | done].
Qed.

Section DuplicateCount.
Context {scalars : Scalars}.

Lemma duplicate_issue_in_gather df fs i :
  unique_labels df →
  i ∈ gather_validation_issues df fs ∧ Issue.issue_type i = "duplicate_rows"
  ↔ i ∈ duplicate_check df [].
Proof.
  intros Hnd. rewrite gather_phases by done. rewrite app_assoc, !elem_of_app.
  destruct (duplicate_check_shape df) as [Hdup _].
  destruct (source_file_check_shape df (allowed_files fs)) as [Hsrc _].
  split.
  - intros [[Hi | [Hi | Hi]] Hty]; [| | done].
    + apply elem_of_app, missing_and_negative_kinds in Hi. rewrite Hty in Hi.
      by apply (bool_decide_pack _) in Hi.
    + apply (proj1 (Forall_forall _ _) Hsrc) in Hi as [_ Hk]. rewrite Hty in Hk.
      by apply (bool_decide_pack _) in Hk.
  - intros Hi. split; [tauto |].
    by apply (proj1 (Forall_forall _ _) Hdup) in Hi as [? _].
Qed.

(** X6: on a table with distinct labels and aligned columns the
    [duplicate_rows] issue is emitted exactly when two rows are equal; its
    count is the number of rows [remove_duplicate_rows] removes; and the
    table [remove_duplicate_rows] returns gives no such issue. *)
Theorem duplicate_rows_count df fs :
  unique_labels df → aligned df →
  len (remove_duplicate_rows df) + mask_sum (duplicated df) = len df
  ∧ ((∃ i, i ∈ gather_validation_issues df fs
           ∧ Issue.issue_type i = "duplicate_rows") ↔ ¬ NoDup (rows df))
  ∧ (∀ i, i ∈ gather_validation_issues df fs →
          Issue.issue_type i = "duplicate_rows" →
          Issue.count i = len df - len (remove_duplicate_rows df)
          ∧ Issue.pct i = pct_of (Issue.count i) df)
  ∧ (∀ i, i ∈ gather_validation_issues (remove_duplicate_rows df) fs →
          Issue.issue_type i ≠ "duplicate_rows").
Proof.
  intros Hnd Hal.
  assert (len (remove_duplicate_rows df) + mask_sum (duplicated df) = len df)
    as Hcount.
  { unfold remove_duplicate_rows, drop_duplicates.
    destruct (empty df) eqn:Hem.
    - unfold duplicated. rewrite Hem. unfold mask_sum. simpl. lia.
    - pose proof (duplicated_length df Hal Hem) as Hlen.
      unfold len at 1. cbn [select_rows index].
      rewrite mask_select_length by (by rewrite length_map, Hlen).
      by rewrite mask_sum_negb. }
  assert (mask_sum (duplicated df) = 0 ↔ NoDup (rows df)) as Hzero.
  { destruct (empty df) eqn:Hem.
    - unfold duplicated. rewrite Hem, rows_empty by done.
      split; [intros _; constructor | done].
    - rewrite duplicated_rows, duplicated_go_none by done.
      split; [tauto |]. intros Hn. split; [done |]. intros r _. apply not_elem_of_nil. }
  split_and!.
  - done.
  - split.
    + intros (i & Hi). apply duplicate_issue_in_gather in Hi; [| done].
      destruct (duplicate_check_shape df) as [Hdup _].
      apply (proj1 (Forall_forall _ _) Hdup) in Hi as (_ & _ & Hc & Hpos).
      intros Hn. apply Hzero in Hn. lia.
    + intros Hn. unfold duplicate_check.
      assert (0 < mask_sum (duplicated df)) as Hpos.
      { destruct (decide (mask_sum (duplicated df) = 0)) as [Hz | Hz]; [| lia].
        by apply Hzero in Hz. }
      eexists. apply duplicate_issue_in_gather; [done |].
      unfold duplicate_check. rewrite decide_True by done. by left.
  - intros i Hi Hty.
    pose proof (proj1 (duplicate_issue_in_gather df fs i Hnd) (conj Hi Hty)) as Hd.
    unfold duplicate_check in Hd. case_decide; [| by apply elem_of_nil in Hd].
    apply list_elem_of_singleton in Hd as ->. simpl. split; [lia | done].
  - intros i Hi Hty.
    pose proof (remove_duplicate_rows_aligned df Hal) as Hal'.
    assert (unique_labels (remove_duplicate_rows df)) as Hnd'
      by (unfold unique_labels; by rewrite remove_duplicate_rows_names).
    pose proof (proj1 (duplicate_issue_in_gather _ fs i Hnd') (conj Hi Hty)) as Hd.
    destruct (duplicate_check_shape (remove_duplicate_rows df)) as [Hdup _].
    apply (proj1 (Forall_forall _ _) Hdup) in Hd as (_ & _ & Hc & Hpos).
    rewrite Hc in Hpos.
    assert (duplicated (remove_duplicate_rows df)
            = replicate (length (duplicated (remove_duplicate_rows df))) false)
      as Hrep.
    { destruct (empty (remove_duplicate_rows df)) eqn:Hem.
      - unfold duplicated. by rewrite Hem.
      - rewrite duplicated_rows by done. rewrite duplicated_go_length.
        apply duplicated_go_NoDup; [| intros r _; apply not_elem_of_nil].
        by apply remove_duplicate_rows_NoDup. }
    rewrite Hrep, mask_sum_all_false in Hpos. lia.
Qed.
End DuplicateCount.

Lemma remove_duplicate_rows_columns_witness :
  aligned (remove_duplicate_rows repeated_rows_frame).
Proof.
  apply (remove_duplicate_rows_columns repeated_rows_frame).
  apply (bool_decide_unpack _). vm_compute. exact I.
Defined.

Lemma duplicate_rows_count_witness :
  len (remove_duplicate_rows repeated_rows_frame)
  + mask_sum (duplicated repeated_rows_frame)
  = len repeated_rows_frame.
Proof.
  apply (duplicate_rows_count (scalars := decimal_scalars)
           repeated_rows_frame test_dir).
  - apply (bool_decide_unpack _). vm_compute. exact I.
  - apply (bool_decide_unpack _). vm_compute. exact I.
Defined.

(** ** The cleaning pipeline *)

Lemma normalize_column_names_rename df :
  ∃ rename_map, normalize_column_names df = rename_columns rename_map df.
Proof.
  unfold normalize_column_names.
  destruct (fold_left collision_step _ _) as [seen rename_map]. by eexists.
Qed.

Lemma map_columns_aligned (F : Series → Series) df :
  (∀ c, length (values (F c)) = length (values c)) →
  aligned df → aligned {| index := index df; columns := map F (columns df) |}.
Proof.
  unfold aligned, len. cbn [index columns]. intros HF Hal. apply Forall_fmap.
  eapply Forall_impl; [exact Hal |]. intros c Hc. simpl. by rewrite HF.
Qed.

Lemma map_columns_names (F : Series → Series) cols :
  (∀ c, name (F c) = name c) → map name (map F cols) = map name cols.
Proof. intros HF. rewrite map_map. by apply map_ext. Qed.

Section CleaningPipeline.
Context {scalars : Scalars}.

Lemma strip_shape df :
  unique_labels df → aligned df →
  index (strip_and_standardize_strings df) = index df
  ∧ map name (columns (strip_and_standardize_strings df)) = map name (columns df)
  ∧ aligned (strip_and_standardize_strings df)
  ∧ Forall (λ c, dtype c ≠ DObject) (columns (strip_and_standardize_strings df)).
Proof.
  intros Hnd Hal. rewrite strip_columns by done. cbn [index columns]. split_and!.
  - done.
  - apply map_columns_names. intros c. by case_decide.
  - apply map_columns_aligned; [| done]. intros c. case_decide; [| done].
    simpl. by rewrite length_map.
  - apply Forall_fmap, Forall_forall. intros c _. simpl. by case_decide.
Qed.

Lemma convert_shape df threshold :
  unique_labels df → aligned df →
  index (convert_mostly_numeric_columns df threshold) = index df
  ∧ map name (columns (convert_mostly_numeric_columns df threshold))
    = map name (columns df)
  ∧ aligned (convert_mostly_numeric_columns df threshold)
  ∧ (Forall (λ c, dtype c ≠ DObject) (columns df) →
     Forall (λ c, dtype c ≠ DObject)
            (columns (convert_mostly_numeric_columns df threshold))).
Proof.
  intros Hnd Hal. rewrite convert_columns by done. cbn [index columns].
  set (F := λ c, if decide (is_text c)
                 then updated (convert_choice threshold) c else c).
  assert (∀ c, F c = c ∨ F c = to_numeric c) as HF.
  { intros c. unfold F. case_decide as Ht; [| by left].
    unfold updated. rewrite convert_choice_spec. case_decide; [right | by left].
    by destruct c. }
  split_and!.
  - done.
  - apply map_columns_names. intros c. by destruct (HF c) as [-> | ->].
  - apply map_columns_aligned; [| done]. intros c.
    destruct (HF c) as [-> | ->]; [done |]. simpl. by rewrite length_map.
  - intros Hty. apply Forall_fmap. eapply Forall_impl; [exact Hty |].
    intros c Hc. simpl. destruct (HF c) as [-> | ->]; [done |].
    simpl. by case_decide.
Qed.

(** X7: on a table with aligned columns whose normalised labels are
    distinct, [clean_dataframe] returns a table with aligned columns and
    distinct labels in which no two rows are equal, no column is of object
    dtype and every column holds a non-null cell; its row labels are a
    subsequence of the input's and its labels a subsequence of the
    normalised labels. *)
Theorem clean_dataframe_invariants df :
  aligned df → unique_labels (normalize_column_names df) →
  aligned (clean_dataframe df)
  ∧ unique_labels (clean_dataframe df)
  ∧ NoDup (rows (clean_dataframe df))
  ∧ sublist (index (clean_dataframe df)) (index df)
  ∧ sublist (map name (columns (clean_dataframe df)))
            (map name (columns (normalize_column_names df)))
  ∧ (∀ c, c ∈ columns (clean_dataframe df) →
          dtype c ≠ DObject ∧ ∃ v, v ∈ values c ∧ v ≠ NA).
Proof.
  intros Hal Hnd1. unfold clean_dataframe.
  set (step1 := normalize_column_names df) in *.
  assert (index step1 = index df ∧ aligned step1) as [Hi1 Hal1].
  { subst step1. destruct (normalize_column_names_rename df) as [rm ->].
    split; [done |]. unfold rename_columns.
    by apply (map_columns_aligned
                (λ c, {| name := default (name c) (dict_get rm (name c));
                         dtype := dtype c; values := values c |})). }
  destruct (strip_shape step1 Hnd1 Hal1) as (Hi2 & Hn2 & Hal2 & Hty2).
  set (step2 := strip_and_standardize_strings step1) in *.
  assert (unique_labels step2) as Hnd2 by (unfold unique_labels; by rewrite Hn2).
  destruct (convert_shape step2 default_threshold Hnd2 Hal2) as (Hi3 & Hn3 & Hal3 & Hty3).
  specialize (Hty3 Hty2).
  set (step3 := convert_mostly_numeric_columns step2 default_threshold) in *.
  set (step4 := drop_empty_columns step3).
  assert (sublist (columns step4) (columns step3)) as Hsub4 by apply sublist_filter.
  assert (aligned step4) as Hal4.
  { unfold aligned, len in *. apply Forall_forall.
    intros c [_ Hc]%list_elem_of_filter.
    by apply (proj1 (Forall_forall _ _) Hal3). }
  assert (sublist (map name (columns step4)) (map name (columns step1))) as Hn4.
  { rewrite <- Hn2, <- Hn3. by apply (fmap_sublist name). }
  pose proof (remove_duplicate_rows_cells step4 Hal4) as Hcells.
  split_and!.
  - by apply remove_duplicate_rows_aligned.
  - unfold unique_labels. rewrite remove_duplicate_rows_names.
    eapply sublist_NoDup; [exact Hnd1 | exact Hn4].
  - by apply remove_duplicate_rows_NoDup.
  - etrans; [apply remove_duplicate_rows_index |].
    subst step4. cbn [drop_empty_columns dropna_columns_all index].
    by rewrite Hi3, Hi2, Hi1.
  - by rewrite remove_duplicate_rows_names.
  - intros c' Hc'. apply list_elem_of_lookup in Hc' as [k Hk].
    destruct (Forall2_lookup_r _ _ _ _ _ Hcells Hk) as (c & Hc & _ & Hd & _ & Hv).
    apply list_elem_of_lookup_2 in Hc.
    apply list_elem_of_filter in Hc as [Hex Hc].
    split.
    + rewrite Hd. by apply (proj1 (Forall_forall _ _) Hty3).
    + apply Exists_exists in Hex as (v & Hin & Hn). exists v.
      split; [by apply Hv | by destruct v].
Qed.
End CleaningPipeline.

Lemma clean_dataframe_invariants_witness :
  NoDup (rows (clean_dataframe (scalars := decimal_scalars) repeated_rows_frame)).
Proof.
  apply (clean_dataframe_invariants (scalars := decimal_scalars)
           repeated_rows_frame).
  - apply (bool_decide_unpack _). vm_compute. exact I.
  - apply (bool_decide_unpack _). vm_compute. exact I.
Defined.

(** ** Ingestion: the merged table *)

Lemma read_loop_reads fs file_names dataframes :
  (∀ f, f ∈ file_names → eligible f → ∃ df, read_csv fs f = Return df) →
  read_loop fs file_names dataframes
  = Return (dataframes
            ++ map (λ f, tagged (read_frame fs f) f) (filter eligible file_names)).
Proof.
  revert dataframes. induction file_names as [|f rest IH]; intros acc Hok.
  { simpl. by rewrite app_nil_r. }
  assert (∀ g, g ∈ rest → eligible g → ∃ df, read_csv fs g = Return df) as Hrest
    by (intros g Hg; apply Hok; by right).
  destruct (decide (eligible f)) as [Hel | Hn].
  - rewrite filter_cons_True by done. destruct Hel as [Hcsv Hex].
    destruct (Hok f) as [df Hdf]; [by left | done |].
    simpl. rewrite Hcsv. simpl. rewrite decide_False by done.
    rewrite Hdf, IH by done. unfold read_frame, tagged. rewrite Hdf.
    by rewrite <- app_assoc.
  - rewrite read_loop_filter, filter_cons_False, <- read_loop_filter by done.
    by apply IH.
Qed.

Lemma get_set_column_in cols label s :
  name s = label → get_column_in (set_column_in cols label s) label = Some s.
Proof.
  intros Hs. induction cols as [|c cols IH]; simpl.
  - by rewrite decide_True.
  - case_decide as Hc; simpl; [by rewrite decide_True |].
    by rewrite decide_False.
Qed.

Lemma Forall_set_column_in (P : Series → Prop) cols label s :
  Forall P cols → P s → Forall P (set_column_in cols label s).
Proof.
  intros Hall Hs. induction Hall as [|c cols Hc Hall IH]; simpl.
  - by constructor.
  - case_decide; by constructor.
Qed.

Lemma get_column_tagged df f :
  get_column (tagged df f) "source_file"
  = Some {| name := "source_file"; dtype := DObject;
            values := replicate (len df) (Str f) |}.
Proof. unfold get_column, tagged, set_column. simpl. by apply get_set_column_in. Qed.

Lemma aligned_tagged df f : aligned df → aligned (tagged df f).
Proof.
  unfold aligned, tagged, set_column, len. simpl. intros Hal.
  apply Forall_set_column_in; [done |]. simpl. apply length_replicate.
Qed.

Lemma flat_map_map {A B C} (g : B → list C) (h : A → B) l :
  flat_map g (map h l) = flat_map (λ x, g (h x)) l.
Proof. induction l as [|x l IH]; [done |]. simpl. by rewrite IH. Qed.

Lemma concat_unique_labels dfs : unique_labels (concat dfs).
Proof.
  unfold unique_labels, concat. cbn [columns]. rewrite map_map. simpl.
  rewrite map_id. apply unique_NoDup.
Qed.

Lemma length_concat_values label dfs :
  Forall aligned dfs →
  length (concat_values label dfs) = sum_list (map len dfs).
Proof.
  unfold concat_values. induction 1 as [|df dfs Hal _ IH]; [done |].
  simpl. rewrite length_app, IH. f_equal.
  destruct (get_column df label) as [c |] eqn:Hc; [| apply length_replicate].
  apply get_column_in_Some in Hc as [Hc _].
  by apply (proj1 (Forall_forall _ _) Hal).
Qed.

Lemma concat_aligned dfs : Forall aligned dfs → aligned (concat dfs).
Proof.
  intros Hal. unfold aligned, concat, len. cbn [index columns].
  rewrite length_seq. apply Forall_fmap, Forall_forall. intros label _. simpl.
  by apply length_concat_values.
Qed.

Lemma get_column_concat dfs label :
  label ∈ flat_map (λ df, map name (columns df)) dfs →
  get_column (concat dfs) label
  = Some {| name := label; dtype := concat_dtype label dfs;
            values := concat_values label dfs |}.
Proof.
  intros Hin. apply (elem_of_unique (A := string)) in Hin.
  unfold get_column, concat. cbn [columns].
  induction (unique (flat_map (λ df, map name (columns df)) dfs)) as [|l ls IH];
    [by apply elem_of_nil in Hin |].
  simpl. case_decide as Hl; [by subst |].
  apply IH. by apply elem_of_cons in Hin as [-> | Hin].
Qed.

Lemma concat_dtype_constant label dfs d :
  (∀ df, df ∈ dfs → dtype <$> get_column df label = Some d) →
  d = DObject → concat_dtype label dfs = DObject.
Proof.
  intros Hall ->. unfold concat_dtype.
  assert (∀ d, d ∈ unique (omap (λ df, dtype <$> get_column df label) dfs) →
               d = DObject) as Hd.
  { intros d Hd.
    apply (elem_of_unique (A := Dtype)), list_elem_of_omap in Hd as (df & Hdf & Hd).
    rewrite (Hall df Hdf) in Hd. congruence. }
  destruct (unique _) as [|d [|d' l]] eqn:E.
  - by rewrite decide_False by (by intros [? _]).
  - apply Hd. by left.
  - rewrite decide_False; [done |]. intros [_ Hn].
    apply Forall_cons in Hn as [Hn _]. rewrite (Hd d) in Hn by (by left).
    by apply (bool_decide_pack _) in Hn.
Qed.

Lemma eligible_last f :
  eligible f →
  ∃ c, last (String.list_ascii_of_string f) = Some c ∧ isspace c = false.
Proof.
  intros [Hcsv _]. unfold endswith, str_lower in Hcsv.
  apply bool_decide_eq_true in Hcsv.
  rewrite String.list_ascii_of_string_of_list_ascii in Hcsv.
  set (cs := String.list_ascii_of_string f) in *.
  assert (last (map lower_char cs) = Some "v"%char) as Hlast.
  { rewrite <- (take_drop (length (map lower_char cs)
                           - length (String.list_ascii_of_string ".csv"))
                          (map lower_char cs)).
    rewrite Hcsv. simpl. by rewrite last_app. }
  change (map lower_char cs) with (lower_char <$> cs) in Hlast.
  rewrite fmap_last in Hlast. destruct (last cs) as [c |]; [| done].
  exists c. split; [done |]. injection Hlast as Hc. revert Hc. clear.
  by_cases_on_char c.
Qed.

Lemma strip_nil (p : ascii → bool) s : strip p s = [] → Forall (λ c, p c = true) s.
Proof.
  unfold strip. intros Hs.
  destruct (lstrip_suffix p s) as [k1 [H1 A1]].
  destruct (rstrip_prefix p (lstrip p s)) as [k2 [H2 A2]].
  rewrite Hs in H2. simpl in H2. rewrite H1, H2. by apply Forall_app.
Qed.

Lemma eligible_not_blank f : eligible f → str_strip f ≠ "".
Proof.
  intros Hel Hs. destruct (eligible_last f Hel) as (c & Hc & Hsp).
  unfold str_strip in Hs.
  assert (strip isspace (String.list_ascii_of_string f) = []) as Hnil.
  { rewrite <- (String.list_ascii_of_string_of_list_ascii (strip _ _)).
    by rewrite Hs. }
  apply strip_nil in Hnil. apply last_Some_elem_of in Hc.
  apply (proj1 (Forall_forall _ _) Hnil) in Hc. congruence.
Qed.

Lemma mask_sum_none {T} (f : T → bool) l :
  Forall (λ x, f x = false) l → mask_sum (map f l) = 0.
Proof.
  induction 1 as [|x l Hx _ IH]; [done |]. cbn [map].
  by rewrite mask_sum_cons, Hx, IH.
Qed.

Lemma inputs_eligible names f : f ∈ inputs names ↔ f ∈ names ∧ eligible f.
Proof. unfold inputs. rewrite list_elem_of_filter, elem_of_sorted. tauto. Qed.

Lemma read_all_faf5_csvs_reads fs names :
  isdir fs = true → listdir fs = Some names →
  (∀ f, f ∈ names → eligible f → ∃ df, read_csv fs f = Return df) →
  read_all_faf5_csvs fs
  = Return (match input_frames fs names with
            | [] => empty_frame
            | _ => concat (input_frames fs names)
            end).
Proof.
  intros Hdir Hls Hok. unfold read_all_faf5_csvs. rewrite Hdir, Hls. simpl.
  rewrite read_loop_reads by (intros f Hf; apply Hok; by apply elem_of_sorted).
  simpl. fold (inputs names). fold (input_frames fs names).
  by destruct (input_frames fs names).
Qed.

Lemma input_frames_source_file fs names :
  concat_values "source_file" (input_frames fs names)
  = flat_map (λ f, replicate (len (read_frame fs f)) (Str f)) (inputs names).
Proof.
  unfold concat_values, input_frames. rewrite flat_map_map.
  induction (inputs names) as [|f l IH]; [done |]. simpl.
  by rewrite IH, get_column_tagged.
Qed.

Lemma input_frames_len fs names :
  sum_list (map len (input_frames fs names))
  = sum_list (map (λ f, len (read_frame fs f)) (inputs names)).
Proof. unfold input_frames. by rewrite map_map. Qed.

(** X8: when the directory lists, holds an eligible file and every
    eligible file parses to a frame with aligned columns,
    [read_all_faf5_csvs] returns the concatenation of the frames of the
    eligible files taken in sorted order, each tagged with its file name.
    The merged table has as many rows as the files together, carries the
    row labels [0 .. n-1], has distinct labels and aligned columns, and
    its [source_file] column holds, file after file, the name of the file
    once for each of its rows. *)
Theorem read_all_faf5_csvs_merges fs names :
  isdir fs = true → listdir fs = Some names →
  (∃ f, f ∈ names ∧ eligible f) →
  (∀ f, f ∈ names → eligible f → ∃ df, read_csv fs f = Return df ∧ aligned df) →
  ∃ merged,
    read_all_faf5_csvs fs = Return merged
    ∧ merged = concat (input_frames fs names)
    ∧ len merged = sum_list (map (λ f, len (read_frame fs f)) (inputs names))
    ∧ index merged = seq 0 (len merged)
    ∧ aligned merged
    ∧ unique_labels merged
    ∧ ∃ c, get_column merged "source_file" = Some c
           ∧ dtype c = DObject
           ∧ values c
             = flat_map (λ f, replicate (len (read_frame fs f)) (Str f))
                        (inputs names).
Proof.
  intros Hdir Hls (f0 & Hf0 & Hel0) Hok.
  assert (f0 ∈ inputs names) as Hin0 by (by apply inputs_eligible).
  assert (input_frames fs names ≠ []) as Hne.
  { unfold input_frames. destruct (inputs names); [by apply elem_of_nil in Hin0 | done]. }
  exists (concat (input_frames fs names)).
  assert (len (concat (input_frames fs names))
          = sum_list (map (λ f, len (read_frame fs f)) (inputs names))) as Hlen.
  { unfold len, concat. cbn [index]. by rewrite length_seq, input_frames_len. }
  split_and!.
  - rewrite (read_all_faf5_csvs_reads fs names Hdir Hls).
    + by destruct (input_frames fs names).
    + intros f Hf Hel. destruct (Hok f Hf Hel) as (df & Hdf & _). by exists df.
  - done.
  - done.
  - rewrite Hlen. unfold concat. cbn [index]. by rewrite input_frames_len.
  - apply concat_aligned. unfold input_frames. apply Forall_fmap, Forall_forall.
    intros f [Hf Hel]%inputs_eligible. simpl. apply aligned_tagged.
    destruct (Hok f Hf Hel) as (df & Hdf & Hal). unfold read_frame. by rewrite Hdf.
  - apply concat_unique_labels.
  - eexists. split_and!.
    + apply get_column_concat.
      unfold input_frames. rewrite flat_map_map. apply list_elem_of_In, in_flat_map.
      exists f0. split; [by apply list_elem_of_In |].
      apply list_elem_of_In.
      pose proof (get_column_tagged (read_frame fs f0) f0) as Hc.
      apply get_column_in_Some in Hc as [Hc _].
      change (map name ?l) with (name <$> l).
      by apply (list_elem_of_fmap_2' name _ _ _ Hc).
    + simpl. apply (concat_dtype_constant _ _ DObject); [| done].
      unfold input_frames. intros df (f & -> & _)%list_elem_of_fmap.
      by rewrite get_column_tagged.
    + simpl. apply input_frames_source_file.
Qed.

Lemma read_all_faf5_csvs_merges_witness :
  ∃ merged,
    read_all_faf5_csvs mixed_case_dir = Return merged
    ∧ merged
      = concat (input_frames mixed_case_dir
                  ["faf5_merged.csv"; "FAF5_MERGED.csv"; "notes.txt"; "DATA.CSV"])
    ∧ len merged
      = sum_list (map (λ f, len (read_frame mixed_case_dir f))
                      (inputs ["faf5_merged.csv"; "FAF5_MERGED.csv";
                               "notes.txt"; "DATA.CSV"]))
    ∧ index merged = seq 0 (len merged)
    ∧ aligned merged
    ∧ unique_labels merged
    ∧ ∃ c, get_column merged "source_file" = Some c
           ∧ dtype c = DObject
           ∧ values c
             = flat_map (λ f, replicate (len (read_frame mixed_case_dir f)) (Str f))
                        (inputs ["faf5_merged.csv"; "FAF5_MERGED.csv";
                                 "notes.txt"; "DATA.CSV"]).
Proof.
  apply (read_all_faf5_csvs_merges mixed_case_dir
           ["faf5_merged.csv"; "FAF5_MERGED.csv"; "notes.txt"; "DATA.CSV"]).
  - reflexivity.
  - reflexivity.
  - exists "DATA.CSV". split.
    + apply (bool_decide_unpack _). vm_compute. exact I.
    + apply (bool_decide_unpack _). vm_compute. exact I.
  - intros f _ _. exists one_row_frame. split; [reflexivity |].
    apply (bool_decide_unpack _). vm_compute. exact I.
Defined.

(** ** Ingestion and validation together *)

Section MergedChecks.
Context {scalars : Scalars}.

Lemma gather_kinds df fs i :
  unique_labels df → i ∈ gather_validation_issues df fs →
  Issue.issue_type i ∈ ["missing_values"; "negative_values"; "duplicate_rows"]
  ∨ i ∈ source_file_check df (allowed_files fs) [].
Proof.
  intros Hnd. rewrite gather_phases by done. rewrite app_assoc, !elem_of_app.
  intros [Hi | [Hi | Hi]]; [left | by right | left].
  - apply elem_of_app, missing_and_negative_kinds in Hi. set_solver.
  - destruct (duplicate_check_shape df) as [Hdup _].
    apply (proj1 (Forall_forall _ _) Hdup) in Hi as [-> _]. set_solver.
Qed.

(** X9: the merged table passes the source_file check against the
    directory it was read from: when the directory holds an eligible file
    and every eligible file parses, [gather_validation_issues] on the
    result of [read_all_faf5_csvs] reports no [source_file_missing],
    [source_file_null], [source_file_empty] or [source_file_invalid]
    issue. *)
Theorem merged_passes_source_file_check fs names merged :
  isdir fs = true → listdir fs = Some names →
  (∃ f, f ∈ names ∧ eligible f) →
  (∀ f, f ∈ names → eligible f → ∃ df, read_csv fs f = Return df) →
  read_all_faf5_csvs fs = Return merged →
  ∀ i, i ∈ gather_validation_issues merged fs →
       Issue.issue_type i ∉ source_file_kinds.
Proof.
  intros Hdir Hls (f0 & Hf0 & Hel0) Hok Hread i Hi.
  rewrite (read_all_faf5_csvs_reads fs names Hdir Hls Hok) in Hread.
  assert (f0 ∈ inputs names) as Hin0 by (by apply inputs_eligible).
  assert (merged = concat (input_frames fs names)) as ->.
  { unfold input_frames in *.
    destruct (inputs names); [by apply elem_of_nil in Hin0 |]. by injection Hread. }
  clear Hread.
  apply gather_kinds in Hi; [| apply concat_unique_labels].
  destruct Hi as [Hi | Hi].
  { intros Hk.
    repeat (apply elem_of_cons in Hi as [Hi | Hi];
            [rewrite Hi in Hk; by apply (bool_decide_pack _) in Hk |]).
    by apply elem_of_nil in Hi. }
  exfalso. revert Hi. unfold source_file_check.
  rewrite get_column_concat.
  2:{ unfold input_frames. rewrite flat_map_map. apply list_elem_of_In, in_flat_map.
      exists f0. split; [by apply list_elem_of_In |]. apply list_elem_of_In.
      pose proof (get_column_tagged (read_frame fs f0) f0) as Hc.
      apply get_column_in_Some in Hc as [Hc _].
      change (map name ?l) with (name <$> l).
      by apply (list_elem_of_fmap_2' name _ _ _ Hc). }
  cbn [values]. rewrite input_frames_source_file.
  set (cells := flat_map _ (inputs names)).
  assert (Forall (λ v, ∃ f, v = Str f ∧ f ∈ names ∧ eligible f)
                 (map astype_string cells)) as Hcells.
  { apply Forall_fmap, Forall_forall. intros v Hv.
    apply list_elem_of_In, in_flat_map in Hv as (f & Hf & Hv).
    apply list_elem_of_In, elem_of_replicate in Hv as [-> _].
    apply list_elem_of_In, inputs_eligible in Hf. by exists f. }
  rewrite (mask_sum_none isna), (mask_sum_none is_blank),
    (mask_sum_none (is_invalid (allowed_files fs))).
  - repeat case_decide; try lia; by intros ?%elem_of_nil.
  - eapply Forall_impl; [exact Hcells |]. intros v (f & -> & Hf & Hel). simpl.
    apply bool_decide_eq_false. intros Hn. apply Hn.
    by apply (elem_of_allowed_files fs names).
  - eapply Forall_impl; [exact Hcells |]. intros v (f & -> & Hf & Hel). simpl.
    apply bool_decide_eq_false. by apply eligible_not_blank.
  - eapply Forall_impl; [exact Hcells |]. by intros v (f & -> & _).
Qed.

(** X10: when every eligible file of the directory parses to a frame
    without rows (a file holding only its header line), the merged table
    has no rows, [main] takes the branch of the missing input and returns
    without writing any file. *)
Theorem header_only_inputs_write_nothing fs names :
  isdir fs = true → listdir fs = Some names →
  (∀ f, f ∈ names → eligible f →
        ∃ df, read_csv fs f = Return df ∧ len df = 0) →
  ∃ merged, read_all_faf5_csvs fs = Return merged
            ∧ len merged = 0
            ∧ main fs = Return ((), fs).
Proof.
  intros Hdir Hls Hok.
  assert (∀ f, f ∈ names → eligible f → ∃ df, read_csv fs f = Return df) as Hok'.
  { intros f Hf Hel. destruct (Hok f Hf Hel) as (df & Hdf & _). by exists df. }
  pose proof (read_all_faf5_csvs_reads fs names Hdir Hls Hok') as Hread.
  eexists. split; [exact Hread |].
  assert (sum_list (map len (input_frames fs names)) = 0) as Hsum.
  { rewrite input_frames_len.
    assert (Forall (λ f, len (read_frame fs f) = 0) (inputs names)) as Hall.
    { apply Forall_forall. intros f [Hf Hel]%inputs_eligible.
      destruct (Hok f Hf Hel) as (df & Hdf & Hlen). unfold read_frame. by rewrite Hdf. }
    induction Hall as [|f l Hf _ IH]; [done |]. simpl. by rewrite Hf, IH. }
  assert (index (match input_frames fs names with
                 | [] => empty_frame
                 | _ => concat (input_frames fs names)
                 end) = []) as Hidx.
  { destruct (input_frames fs names) eqn:E; [done |].
    unfold concat. cbn [index]. by rewrite Hsum. }
  split.
  - unfold len. by rewrite Hidx.
  - unfold main, bind, reading. rewrite Hread. unfold empty. by rewrite Hidx.
Qed.
End MergedChecks.

(** ** The listing *)

Lemma StronglySorted_filter {A} (R : relation A) (P : A → Prop)
    `{∀ x, Decision (P x)} l :
  StronglySorted R l → StronglySorted R (filter P l).
Proof.
  induction 1 as [|x l Hl IH Hx]; [constructor |].
  rewrite filter_cons. case_decide; [| done]. constructor; [done |].
  apply Forall_forall. intros y [_ Hy]%list_elem_of_filter.
  by apply (proj1 (Forall_forall _ _) Hx).
Qed.

Lemma StronglySorted_sorted names : StronglySorted String.le (sorted names).
Proof. apply StronglySorted_merge_sort; apply _. Qed.

Lemma inputs_Permutation names1 names2 :
  filter eligible names1 ≡ₚ filter eligible names2 →
  inputs names1 = inputs names2.
Proof.
  intros Hperm. unfold inputs.
  apply (StronglySorted_unique String.le);
    [apply StronglySorted_filter, StronglySorted_sorted ..|].
  unfold sorted. by rewrite !merge_sort_Permutation.
Qed.

Lemma read_loop_ext fs1 fs2 file_names dataframes :
  (∀ f, eligible f → read_csv fs1 f = read_csv fs2 f) →
  read_loop fs1 file_names dataframes = read_loop fs2 file_names dataframes.
Proof.
  intros Hread. revert dataframes.
  induction file_names as [|f rest IH]; intros acc; [done |]. simpl.
  destruct (endswith (str_lower f) ".csv") eqn:Hcsv; simpl; [| apply IH].
  case_decide as Hex; [apply IH |].
  rewrite Hread by done. destruct (read_csv fs2 f); [done | apply IH].
Qed.

Lemma read_all_faf5_csvs_ext fs1 fs2 names1 names2 :
  isdir fs1 = isdir fs2 → (∀ f, eligible f → read_csv fs1 f = read_csv fs2 f) →
  listdir fs1 = Some names1 → listdir fs2 = Some names2 →
  filter eligible names1 ≡ₚ filter eligible names2 →
  read_all_faf5_csvs fs1 = read_all_faf5_csvs fs2.
Proof.
  intros Hdir Hread Hl1 Hl2 Hperm. unfold read_all_faf5_csvs.
  rewrite Hdir, Hl1, Hl2. destruct (negb (isdir fs2)); [done |].
  rewrite (read_loop_filter fs1), (read_loop_filter fs2).
  fold (inputs names1). fold (inputs names2).
  by rewrite (inputs_Permutation _ _ Hperm), (read_loop_ext fs1 fs2).
Qed.

Lemma allowed_files_ext fs1 fs2 names1 names2 :
  listdir fs1 = Some names1 → listdir fs2 = Some names2 →
  filter eligible names1 ≡ₚ filter eligible names2 →
  allowed_files fs1 = allowed_files fs2.
Proof.
  intros Hl1 Hl2 Hperm. apply set_eq. intros f.
  rewrite (elem_of_allowed_files fs1 names1), (elem_of_allowed_files fs2 names2)
    by done.
  assert (∀ names, f ∈ names ∧ eligible f ↔ f ∈ filter eligible names) as Hf
    by (intros; rewrite list_elem_of_filter; tauto).
  rewrite !Hf. by rewrite Hperm.
Qed.

Section Listing.
Context {scalars : Scalars}.

Lemma gather_validation_issues_ext df fs1 fs2 :
  allowed_files fs1 = allowed_files fs2 →
  gather_validation_issues df fs1 = gather_validation_issues df fs2.
Proof. intros Heq. unfold gather_validation_issues. by rewrite Heq. Qed.

(** X11: only the eligible entries of the listing matter, not their order
    and not the other entries: two directories whose listings have the
    same eligible names, in any order, and whose eligible files read alike
    give the same result of [read_all_faf5_csvs] (the same merged table or
    the same error) and the same validation issues for every table. *)
Theorem listing_order_is_irrelevant fs1 fs2 names1 names2 :
  listdir fs1 = Some names1 → listdir fs2 = Some names2 →
  filter eligible names1 ≡ₚ filter eligible names2 →
  isdir fs1 = isdir fs2 → (∀ f, eligible f → read_csv fs1 f = read_csv fs2 f) →
  read_all_faf5_csvs fs1 = read_all_faf5_csvs fs2
  ∧ ∀ df, gather_validation_issues df fs1 = gather_validation_issues df fs2.
Proof.
  intros Hl1 Hl2 Hperm Hdir Hread. split.
  - by apply (read_all_faf5_csvs_ext fs1 fs2 names1 names2).
  - intros df. apply gather_validation_issues_ext.
    by apply (allowed_files_ext fs1 fs2 names1 names2).
Qed.
End Listing.

Lemma read_loop_first_failure fs file_names dataframes f exc :
  read_loop fs file_names dataframes = Raise (RuntimeError f exc) →
  ∃ l1 l2, file_names = l1 ++ f :: l2
           ∧ eligible f ∧ read_csv fs f = Raise exc
           ∧ ∀ g, g ∈ l1 → eligible g → ∃ df, read_csv fs g = Return df.
Proof.
  revert dataframes. induction file_names as [|g rest IH]; intros acc; [done |].
  simpl. destruct (endswith (str_lower g) ".csv") eqn:Hcsv; simpl.
  2:{ intros (l1 & l2 & -> & Hel & Hr & Hbefore)%IH. exists (g :: l1), l2.
      split_and!; [done .. |]. intros h [-> | Hh]%elem_of_cons; [| by apply Hbefore].
      intros [Hh _]. congruence. }
  case_decide as Hex.
  { intros (l1 & l2 & -> & Hel & Hr & Hbefore)%IH. exists (g :: l1), l2.
    split_and!; [done .. |]. intros h [-> | Hh]%elem_of_cons; [| by apply Hbefore].
    by intros [_ Hh]. }
  destruct (read_csv fs g) as [e | df] eqn:Hg.
  - intros [= -> ->]. exists [], rest. split_and!; try done.
    by intros h ?%elem_of_nil.
  - intros (l1 & l2 & -> & Hel & Hr & Hbefore)%IH. exists (g :: l1), l2.
    split_and!; [done .. |]. intros h [-> | Hh]%elem_of_cons; [| by apply Hbefore].
    intros _. by exists df.
Qed.

(** X12: when [read_all_faf5_csvs] raises [RuntimeError] it names the
    first eligible file, in sorted order of the names, that fails to
    parse, and carries the failure of that file: every eligible file of
    the listing that fails to parse has a name at or after the reported
    one. *)
Theorem read_all_faf5_csvs_first_failure fs f exc :
  read_all_faf5_csvs fs = Raise (RuntimeError f exc) →
  ∃ names, listdir fs = Some names
           ∧ f ∈ names ∧ eligible f ∧ read_csv fs f = Raise exc
           ∧ ∀ g e, g ∈ names → eligible g → read_csv fs g = Raise e →
                    String.le f g.
Proof.
  unfold read_all_faf5_csvs. destruct (negb (isdir fs)); [done |].
  destruct (listdir fs) as [names |]; [| done].
  destruct (read_loop fs (sorted names) []) as [e | dfs] eqn:E;
    [| by destruct dfs].
  intros [= ->]. exists names. split; [done |].
  apply read_loop_first_failure in E as (l1 & l2 & Hl & Hel & Hr & Hbefore).
  pose proof (StronglySorted_sorted names) as Hsorted. rewrite Hl in Hsorted.
  split_and!; [| done | done |].
  - apply elem_of_sorted. rewrite Hl. set_solver.
  - intros g e Hg Helg Hrg. apply elem_of_sorted in Hg. rewrite Hl in Hg.
    apply elem_of_app in Hg as [Hg | Hg].
    { destruct (Hbefore g Hg Helg) as [df Hdf]. congruence. }
    apply StronglySorted_app_1_r, StronglySorted_inv in Hsorted as [_ Hle].
    apply elem_of_cons in Hg as [-> | Hg]; [done |].
    by apply (proj1 (Forall_forall _ _) Hle).
Qed.

Lemma merged_passes_source_file_check_witness :
  Forall (λ i, Issue.issue_type i ∉ source_file_kinds)
         (gather_validation_issues (scalars := decimal_scalars)
            mixed_case_merged mixed_case_dir).
Proof.
  apply Forall_forall.
  apply (merged_passes_source_file_check (scalars := decimal_scalars) mixed_case_dir
           ["faf5_merged.csv"; "FAF5_MERGED.csv"; "notes.txt"; "DATA.CSV"]).
  - reflexivity.
  - reflexivity.
  - exists "DATA.CSV". split.
    + apply (bool_decide_unpack _). vm_compute. exact I.
    + apply (bool_decide_unpack _). vm_compute. exact I.
  - intros f _ _. exists one_row_frame. reflexivity.
  - vm_compute. reflexivity.
Defined.

Lemma header_only_inputs_write_nothing_witness :
  ∃ merged, read_all_faf5_csvs header_only_dir = Return merged
            ∧ len merged = 0
            ∧ main (scalars := decimal_scalars) header_only_dir
              = Return ((), header_only_dir).
Proof.
  apply (header_only_inputs_write_nothing (scalars := decimal_scalars)
           header_only_dir ["a.csv"; "notes.txt"]).
  - reflexivity.
  - reflexivity.
  - intros f _ _. exists header_only_frame. split; reflexivity.
Defined.

Lemma listing_order_is_irrelevant_witness :
  read_all_faf5_csvs mixed_case_dir = read_all_faf5_csvs relisted_dir
  ∧ ∀ df, gather_validation_issues (scalars := decimal_scalars) df mixed_case_dir
          = gather_validation_issues (scalars := decimal_scalars) df relisted_dir.
Proof.
  apply (listing_order_is_irrelevant (scalars := decimal_scalars)
           mixed_case_dir relisted_dir
           ["faf5_merged.csv"; "FAF5_MERGED.csv"; "notes.txt"; "DATA.CSV"]
           ["DATA.CSV"; "readme.md"; "faf5_merged.csv"]).
  - reflexivity.
  - reflexivity.
  - assert (filter eligible ["faf5_merged.csv"; "FAF5_MERGED.csv"; "notes.txt"; "DATA.CSV"]
            = ["faf5_merged.csv"; "DATA.CSV"]) as -> by (vm_compute; reflexivity).
    assert (filter eligible ["DATA.CSV"; "readme.md"; "faf5_merged.csv"]
            = ["DATA.CSV"; "faf5_merged.csv"]) as -> by (vm_compute; reflexivity).
    apply perm_swap.
  - reflexivity.
  - intros f _. reflexivity.
Defined.

Lemma read_all_faf5_csvs_first_failure_witness :
  ∃ names, listdir broken_dir = Some names
           ∧ "b.csv" ∈ names ∧ eligible "b.csv"
           ∧ read_csv broken_dir "b.csv" = Raise "EmptyDataError"
           ∧ ∀ g e, g ∈ names → eligible g → read_csv broken_dir g = Raise e →
                    String.le "b.csv" g.
Proof.
  apply (read_all_faf5_csvs_first_failure broken_dir "b.csv" "EmptyDataError").
  vm_compute. reflexivity.
Defined.

(** ** The run *)

Lemma write_all_fields files fs :
  isdir (write_all files fs) = isdir fs
  ∧ read_csv (write_all files fs) = read_csv fs
  ∧ written (write_all files fs) = written fs ++ files.
Proof.
  revert fs. induction files as [|[f t] files IH]; intros fs.
  { simpl. by rewrite app_nil_r. }
  destruct (IH (to_csv f t fs)) as (Hd & Hr & Hw). unfold write_all in *.
  cbn [fold_left fst snd]. rewrite Hd, Hr, Hw. simpl. by rewrite <- app_assoc.
Qed.

Lemma listdir_write_all files fs names :
  listdir fs = Some names →
  Forall (λ file, ¬ eligible file.1) files →
  ∃ names', listdir (write_all files fs) = Some names'
            ∧ filter eligible names' = filter eligible names
            ∧ (∀ f, f ∈ names' ↔ f ∈ names ∨ f ∈ files.*1)
            ∧ Forall (λ file, file.1 ∈ names') files.
Proof.
  revert fs names. induction files as [|[f t] files IH]; intros fs names Hls Hout.
  { exists names. split_and!; [done | done | | done].
    intros f. rewrite elem_of_nil. tauto. }
  apply Forall_cons in Hout as [Hf Hout]. simpl in Hf.
  set (names1 := if decide (f ∈ names) then names else names ++ [f]).
  assert (listdir (to_csv f t fs) = Some names1) as Hls1
    by (unfold to_csv; simpl; by rewrite Hls).
  assert (filter eligible names1 = filter eligible names) as Hf1.
  { subst names1. case_decide; [done |].
    by rewrite filter_app, filter_cons_False, filter_nil, app_nil_r. }
  assert (∀ g, g ∈ names1 ↔ g ∈ names ∨ g = f) as Hin1.
  { intros g. subst names1. case_decide; [| set_solver].
    split; [tauto |]. by intros [? | ->]. }
  destruct (IH (to_csv f t fs) names1 Hls1 Hout) as (names' & Hls' & Hf' & Hin' & Hall').
  exists names'. split_and!.
  - done.
  - by rewrite Hf'.
  - intros g. rewrite Hin', Hin1. cbn [fmap list_fmap fst]. rewrite elem_of_cons. tauto.
  - apply Forall_cons. split; [| done]. simpl. apply Hin'. left. apply Hin1. by right.
Qed.

Lemma listdir_write_all_present files fs names :
  listdir fs = Some names → Forall (λ file, file.1 ∈ names) files →
  listdir (write_all files fs) = Some names.
Proof.
  revert fs. induction files as [|[f t] files IH]; intros fs Hls Hall; [done |].
  apply Forall_cons in Hall as [Hf Hall]. simpl in Hf.
  unfold write_all. cbn [fold_left fst snd]. apply IH; [| done].
  unfold to_csv. simpl. rewrite Hls. simpl. by rewrite decide_True.
Qed.

Lemma allowed_files_to_csv f t fs :
  ¬ eligible f → allowed_files (to_csv f t fs) = allowed_files fs.
Proof.
  intros Hf. unfold allowed_files, to_csv. simpl.
  destruct (listdir fs) as [names |]; [| done]. simpl.
  case_decide; [done |].
  rewrite filter_app, filter_cons_False, filter_nil, app_nil_r; done.
Qed.

Lemma allowed_files_write_all files fs :
  Forall (λ file, ¬ eligible file.1) files →
  allowed_files (write_all files fs) = allowed_files fs.
Proof.
  revert fs. induction files as [|[f t] files IH]; intros fs Hout; [done |].
  apply Forall_cons in Hout as [Hf Hout]. unfold write_all. cbn [fold_left fst snd].
  fold (write_all files (to_csv f t fs)). by rewrite IH, allowed_files_to_csv.
Qed.

Lemma excluded_not_eligible f : f ∈ excluded_filenames → ¬ eligible f.
Proof. by intros Hf [_ Hn]. Qed.

Lemma read_all_faf5_csvs_returns fs merged :
  read_all_faf5_csvs fs = Return merged →
  isdir fs = true ∧ ∃ names, listdir fs = Some names.
Proof.
  unfold read_all_faf5_csvs. destruct (isdir fs); [| done].
  destruct (listdir fs) as [names |]; [| done]. intros _. split; [done |]. by eexists.
Qed.

Section Run.
Context {scalars : Scalars}.

Lemma outputs_names fs merged :
  Forall (λ file, file.1 ∈ excluded_filenames) (outputs fs merged).
Proof.
  unfold outputs. simpl.
  repeat (apply Forall_cons; split;
          [simpl; apply (bool_decide_unpack _); vm_compute; exact I |]).
  apply Forall_nil_2.
Qed.

Lemma outputs_not_eligible fs merged :
  Forall (λ file, ¬ eligible file.1) (outputs fs merged).
Proof.
  eapply Forall_impl; [apply outputs_names |].
  intros file. apply excluded_not_eligible.
Qed.

Lemma outputs_ext fs1 fs2 merged :
  allowed_files fs1 = allowed_files fs2 → outputs fs1 merged = outputs fs2 merged.
Proof.
  intros Heq. unfold outputs.
  by rewrite (gather_validation_issues_ext _ fs1 fs2 Heq).
Qed.

Lemma clean_dataframe_labels df :
  unique_labels (normalize_column_names df) →
  sublist (map name (columns (clean_dataframe df)))
          (map name (columns (normalize_column_names df)))
  ∧ map name (columns (strip_and_standardize_strings (normalize_column_names df)))
    = map name (columns (normalize_column_names df)).
Proof.
  intros Hnd1. unfold clean_dataframe.
  set (step1 := normalize_column_names df) in *.
  assert (map name (columns (strip_and_standardize_strings step1))
          = map name (columns step1)) as Hn2.
  { rewrite strip_columns by done. cbn [columns].
    apply map_columns_names. intros c. by case_decide. }
  set (step2 := strip_and_standardize_strings step1) in *.
  assert (unique_labels step2) as Hnd2 by (unfold unique_labels; by rewrite Hn2).
  assert (map name (columns (convert_mostly_numeric_columns step2 default_threshold))
          = map name (columns step2)) as Hn3.
  { rewrite convert_columns by done. cbn [columns].
    apply map_columns_names. intros c. case_decide; [apply name_updated | done]. }
  split; [| done].
  rewrite remove_duplicate_rows_names. unfold drop_empty_columns, dropna_columns_all.
  cbn [columns]. rewrite <- Hn2, <- Hn3. apply (fmap_sublist name), sublist_filter.
Qed.

Lemma clean_dataframe_unique_labels df :
  unique_labels (normalize_column_names df) → unique_labels (clean_dataframe df).
Proof.
  intros Hnd. unfold unique_labels.
  eapply sublist_NoDup; [exact Hnd | by apply clean_dataframe_labels].
Qed.

Lemma run_clean_dataframe_returns df out :
  run_clean_dataframe df = Return out → out = clean_dataframe df.
Proof. unfold run_clean_dataframe. repeat case_decide; congruence. Qed.

Lemma run_clean_dataframe_unique df :
  unique_labels (normalize_column_names df) →
  run_clean_dataframe df = Return (clean_dataframe df).
Proof.
  intros Hnd. unfold run_clean_dataframe.
  rewrite decide_False.
  2:{ intros (c & _ & _ & Hr)%Exists_exists.
      by apply unique_labels_not_repeated in Hr. }
  rewrite decide_False; [done |].
  intros (c & _ & _ & Hr)%Exists_exists.
  apply unique_labels_not_repeated in Hr; [done |].
  unfold unique_labels. by rewrite (proj2 (clean_dataframe_labels df Hnd)).
Qed.

Lemma gather_after_write df f t fs :
  f ∈ excluded_filenames →
  gather_validation_issues df (to_csv f t fs) = gather_validation_issues df fs.
Proof.
  intros Hf. apply gather_validation_issues_ext, allowed_files_to_csv.
  by apply excluded_not_eligible.
Qed.

Lemma main_run fs merged profile_df :
  read_all_faf5_csvs fs = Return merged → empty merged = false →
  run_clean_dataframe merged = Return (clean_dataframe merged) →
  profile_columns (clean_dataframe merged) = Return profile_df →
  main fs = Return ((), write_all (outputs fs merged) fs).
Proof.
  intros Hread Hem Hclean Hprof. unfold main, bind, reading. rewrite Hread, Hem.
  unfold save_merged_dataframe, save_cleaned_dataframe, validation_reports,
    save_validation_profiles, save_validation_issues, writing, bind, computing,
    reading, ret.
  rewrite Hclean, Hprof.
  unfold write_all, outputs. rewrite Hprof. cbn [fold_left app fst snd returned].
  by rewrite !gather_after_write by (apply (bool_decide_unpack _); vm_compute; exact I).
Qed.

(** A run fails in cleaning after it has written the merged table, and in
    profiling after it has written the cleaned table too. *)
Lemma main_fails_cleaning fs merged e :
  read_all_faf5_csvs fs = Return merged → empty merged = false →
  run_clean_dataframe merged = Raise e →
  main fs = Raise (e, to_csv "FAF5_MERGED.csv" (Frame merged) fs).
Proof.
  intros Hread Hem Hclean. unfold main, bind, reading. rewrite Hread, Hem.
  unfold save_merged_dataframe, writing, bind, computing, reading.
  by rewrite Hclean.
Qed.

Lemma main_fails_profiling fs merged e :
  read_all_faf5_csvs fs = Return merged → empty merged = false →
  run_clean_dataframe merged = Return (clean_dataframe merged) →
  profile_columns (clean_dataframe merged) = Raise e →
  main fs
  = Raise (e, to_csv "FAF5_MERGED_CLEANED.csv" (Frame (clean_dataframe merged))
                (to_csv "FAF5_MERGED.csv" (Frame merged) fs)).
Proof.
  intros Hread Hem Hclean Hprof. unfold main, bind, reading. rewrite Hread, Hem.
  unfold save_merged_dataframe, save_cleaned_dataframe, validation_reports,
    writing, bind, computing, reading.
  by rewrite Hclean, Hprof.
Qed.

Lemma main_returns fs fs' :
  main fs = Return ((), fs') →
  ∃ merged, read_all_faf5_csvs fs = Return merged
    ∧ (empty merged = true ∧ fs' = fs
       ∨ empty merged = false
         ∧ run_clean_dataframe merged = Return (clean_dataframe merged)
         ∧ (∃ profile_df, profile_columns (clean_dataframe merged) = Return profile_df)
         ∧ fs' = write_all (outputs fs merged) fs).
Proof.
  intros Hmain.
  destruct (read_all_faf5_csvs fs) as [e | merged] eqn:Hread.
  { unfold main, bind, reading in Hmain. by rewrite Hread in Hmain. }
  exists merged. split; [done |].
  destruct (empty merged) eqn:Hem.
  { left. split; [done |]. unfold main, bind, reading in Hmain.
    rewrite Hread, Hem in Hmain. by injection Hmain. }
  right. split; [done |].
  destruct (run_clean_dataframe merged) as [e | cleaned] eqn:Hclean.
  { by rewrite (main_fails_cleaning fs merged e) in Hmain. }
  apply run_clean_dataframe_returns in Hclean as Heq. subst cleaned.
  destruct (profile_columns (clean_dataframe merged)) as [e | profile_df] eqn:Hprof.
  { by rewrite (main_fails_profiling fs merged e) in Hmain. }
  rewrite (main_run fs merged profile_df) in Hmain by done.
  split_and!; [done | by eexists | congruence].
Qed.

(** X13: when ingestion returns a merged table that is not empty, [main]
    first writes the merged table.  When the normalised labels are
    distinct and no column of the cleaned table is a masked numeric
    column with a non-null cell and fewer than two numbers, [main]
    returns after writing six files in this order: the merged table, the
    cleaned table, the column profile and the issues, and the column
    profile and the issues once more.  Both reports are those of the
    cleaned table, the issues being checked against the listing as it
    was before the run, so the second pair repeats the first.  The run
    adds the four reserved names to the listing and nothing else, and
    leaves every other file as it was.  When the normalised labels of an
    object column repeat, [main] raises AttributeError in cleaning, with
    the merged table written and nothing else.  When the normalised
    labels are distinct and the cleaned table has such a masked column,
    [main] raises TypeError in profiling, with the merged and the cleaned
    table written and no report.  In every case [main] returns exactly
    when both cleaning and profiling return. *)
Theorem main_outputs fs merged :
  read_all_faf5_csvs fs = Return merged → empty merged = false →
  (unique_labels (normalize_column_names merged) →
   Forall (λ c, ¬ too_few_numbers c) (columns (clean_dataframe merged)) →
   ∃ profile_df fs' names names',
     profile_columns (clean_dataframe merged) = Return profile_df
     ∧ main fs = Return ((), fs')
     ∧ written fs' = written fs ++ outputs fs merged
     ∧ isdir fs' = isdir fs
     ∧ (∀ f, f ∉ excluded_filenames → read_csv fs' f = read_csv fs f)
     ∧ listdir fs = Some names ∧ listdir fs' = Some names'
     ∧ (∀ f, f ∈ names' ↔ f ∈ names ∨ f ∈ excluded_filenames)
     ∧ filter eligible names' = filter eligible names)
  ∧ (Exists (λ c, dtype c = DObject
                  ∧ repeated (normalize_column_names merged) (name c))
            (columns (normalize_column_names merged)) →
     ∃ fs', main fs = Raise (AttributeError, fs')
            ∧ written fs' = written fs ++ [("FAF5_MERGED.csv", Frame merged)])
  ∧ (unique_labels (normalize_column_names merged) →
     Exists too_few_numbers (columns (clean_dataframe merged)) →
     ∃ fs', main fs = Raise (TypeError, fs')
            ∧ written fs'
              = written fs
                ++ [("FAF5_MERGED.csv", Frame merged);
                    ("FAF5_MERGED_CLEANED.csv", Frame (clean_dataframe merged))])
  ∧ ((∃ fs', main fs = Return ((), fs'))
     ↔ run_clean_dataframe merged = Return (clean_dataframe merged)
       ∧ ∃ profile_df, profile_columns (clean_dataframe merged) = Return profile_df).
Proof.
  intros Hread Hem. split_and!.
  - intros Hnd Hok.
    pose proof (run_clean_dataframe_unique merged Hnd) as Hclean.
    pose proof (clean_dataframe_unique_labels merged Hnd) as Hnd'.
    assert (∃ profile_df, profile_columns (clean_dataframe merged) = Return profile_df)
      as [profile_df Hprof].
    { rewrite profile_columns_eq by done. rewrite decide_False; [by eexists |].
      intros (c & Hc & Ht)%Exists_exists.
      by apply (proj1 (Forall_forall _ _) Hok c). }
    destruct (read_all_faf5_csvs_returns fs merged Hread) as (_ & names & Hls).
    destruct (listdir_write_all (outputs fs merged) fs names Hls
                (outputs_not_eligible fs merged)) as (names' & Hls' & Hf' & Hin' & _).
    destruct (write_all_fields (outputs fs merged) fs) as (Hd & Hr & Hw).
    exists profile_df, (write_all (outputs fs merged) fs), names, names'.
    split_and!; try done; try (by intros f _; rewrite Hr).
    + by apply (main_run fs merged profile_df).
    + intros f. rewrite Hin'. unfold outputs, excluded_filenames. simpl.
      rewrite !elem_of_cons, !elem_of_nil. tauto.
  - intros Hex. eexists. split.
    + apply main_fails_cleaning; [done | done |].
      unfold run_clean_dataframe. by rewrite decide_True.
    + done.
  - intros Hnd Hex.
    pose proof (run_clean_dataframe_unique merged Hnd) as Hclean.
    pose proof (clean_dataframe_unique_labels merged Hnd) as Hnd'.
    eexists. split.
    + apply main_fails_profiling; [done | done | done |].
      rewrite profile_columns_eq by done. by rewrite decide_True.
    + simpl. by rewrite <- app_assoc.
  - split.
    + intros [fs' Hmain].
      destruct (main_returns fs fs' Hmain)
        as (merged' & Hread' & [[Hem' _] | (_ & Hclean & Hprof & _)]);
        assert (merged' = merged) as -> by congruence; [congruence | done].
    + intros [Hclean [profile_df Hprof]]. eexists.
      by apply (main_run fs merged profile_df).
Qed.

(** X14: the outputs of a run do not feed back into the next one: after a
    run of [main] that returns, [read_all_faf5_csvs] gives the result it
    gave before the run, a second run returns too, writes the same files
    with the same contents again, and leaves the listing as the first run
    left it. *)
Theorem main_rerun fs fs' :
  main fs = Return ((), fs') →
  ∃ files fs'',
    written fs' = written fs ++ files
    ∧ read_all_faf5_csvs fs' = read_all_faf5_csvs fs
    ∧ main fs' = Return ((), fs'')
    ∧ written fs'' = written fs' ++ files
    ∧ listdir fs'' = listdir fs'.
Proof.
  intros Hmain.
  pose proof (main_returns fs fs' Hmain)
    as (merged & Hread & [[Hem ->] | (Hem & Hclean & [profile_df Hprof] & ->)]).
  { exists [], fs. by rewrite app_nil_r. }
  clear Hmain.
  destruct (read_all_faf5_csvs_returns fs merged Hread) as (_ & names & Hls).
  destruct (listdir_write_all (outputs fs merged) fs names Hls
              (outputs_not_eligible fs merged)) as (names' & Hls' & Hf' & _ & Hall').
  destruct (write_all_fields (outputs fs merged) fs) as (Hd & Hr & Hw).
  set (fs' := write_all (outputs fs merged) fs) in *.
  assert (read_all_faf5_csvs fs' = Return merged) as Hread'.
  { rewrite <- Hread.
    apply (read_all_faf5_csvs_ext fs' fs names' names);
      [done | by intros f _; rewrite Hr | done | done | by rewrite Hf']. }
  assert (outputs fs' merged = outputs fs merged) as Hout.
  { apply outputs_ext. apply allowed_files_write_all, outputs_not_eligible. }
  exists (outputs fs merged), (write_all (outputs fs' merged) fs').
  split_and!.
  - done.
  - by rewrite Hread', Hread.
  - by apply (main_run fs' merged profile_df).
  - destruct (write_all_fields (outputs fs' merged) fs') as (_ & _ & Hw').
    by rewrite Hw', Hout.
  - rewrite Hout. rewrite Hls'. by apply listdir_write_all_present.
Qed.
End Run.

Lemma main_outputs_witness :
  ∃ profile_df fs' names names',
    profile_columns (scalars := decimal_scalars)
      (clean_dataframe (scalars := decimal_scalars) mixed_case_merged)
    = Return profile_df
    ∧ main (scalars := decimal_scalars) mixed_case_dir = Return ((), fs')
    ∧ written fs'
      = written mixed_case_dir
        ++ outputs (scalars := decimal_scalars) mixed_case_dir mixed_case_merged
    ∧ isdir fs' = isdir mixed_case_dir
    ∧ (∀ f, f ∉ excluded_filenames → read_csv fs' f = read_csv mixed_case_dir f)
    ∧ listdir mixed_case_dir = Some names ∧ listdir fs' = Some names'
    ∧ (∀ f, f ∈ names' ↔ f ∈ names ∨ f ∈ excluded_filenames)
    ∧ filter eligible names' = filter eligible names.
Proof.
  apply (main_outputs (scalars := decimal_scalars) mixed_case_dir mixed_case_merged).
  - vm_compute. reflexivity.
  - reflexivity.
  - apply (bool_decide_unpack _). vm_compute. exact I.
  - apply (bool_decide_unpack _). vm_compute. exact I.
Defined.

Lemma main_rerun_witness :
  ∃ files fs'',
    written (write_all (outputs (scalars := decimal_scalars)
                          mixed_case_dir mixed_case_merged) mixed_case_dir)
    = written mixed_case_dir ++ files
    ∧ read_all_faf5_csvs
        (write_all (outputs (scalars := decimal_scalars)
                      mixed_case_dir mixed_case_merged) mixed_case_dir)
      = read_all_faf5_csvs mixed_case_dir
    ∧ main (scalars := decimal_scalars)
        (write_all (outputs (scalars := decimal_scalars)
                      mixed_case_dir mixed_case_merged) mixed_case_dir)
      = Return ((), fs'')
    ∧ written fs''
      = written (write_all (outputs (scalars := decimal_scalars)
                              mixed_case_dir mixed_case_merged) mixed_case_dir)
        ++ files
    ∧ listdir fs''
      = listdir (write_all (outputs (scalars := decimal_scalars)
                              mixed_case_dir mixed_case_merged) mixed_case_dir).
Proof.
  apply (main_rerun (scalars := decimal_scalars) mixed_case_dir).
  vm_compute. reflexivity.
Defined.

(** ** The source_file column: presence, nulls and blanks *)

Section SourceFile.
Context {scalars : Scalars}.

Lemma source_issue_in_gather df fs i :
  unique_labels df → Issue.issue_type i ∈ source_file_kinds →
  i ∈ gather_validation_issues df fs
  ↔ i ∈ source_file_check df (allowed_files fs) [].
Proof.
  intros Hnd Hk. split.
  - intros [Hi | Hi]%gather_kinds; [| done | done]. exfalso.
    repeat (apply elem_of_cons in Hi as [Hi | Hi];
            [rewrite Hi in Hk; by apply (bool_decide_pack _) in Hk |]).
    by apply elem_of_nil in Hi.
  - intros Hi. rewrite gather_phases by done. rewrite !elem_of_app. tauto.
Qed.

Lemma source_null_count vs :
  mask_sum (map isna (map astype_string vs)) = length (filter (λ v, v = NA) vs).
Proof.
  rewrite map_map, mask_sum_filter. f_equal. apply list_filter_iff.
  intros v. by destruct v.
Qed.

Lemma source_blank_count vs :
  mask_sum (map is_blank (map astype_string vs)) = length (filter blank vs).
Proof.
  rewrite map_map, mask_sum_filter. f_equal. apply list_filter_iff.
  intros v. destruct v; simpl; unfold blank; simpl;
    rewrite ?bool_decide_eq_true; done.
Qed.

(** X15: on a table with distinct labels, [gather_validation_issues]
    reports [source_file_missing] exactly when no column is labelled
    [source_file]; the issue then counts every row, its share is 1 (0 for
    a table without rows), and it is the only source_file issue.  When
    the column exists, [source_file_null] is reported exactly when the
    column holds a null and counts the nulls, and [source_file_empty] is
    reported exactly when some cell is blank once stripped and counts
    those cells. *)
Theorem source_file_presence_checks df fs :
  unique_labels df →
  ((∃ i, i ∈ gather_validation_issues df fs
         ∧ Issue.issue_type i = "source_file_missing")
   ↔ "source_file" ∉ map name (columns df))
  ∧ ("source_file" ∉ map name (columns df) →
     ∀ i, i ∈ gather_validation_issues df fs →
          Issue.issue_type i ∈ source_file_kinds →
          Issue.issue_type i = "source_file_missing"
          ∧ Issue.column i = "source_file"
          ∧ Issue.count i = len df
          ∧ Issue.pct i = if decide (len df = 0) then 0%Qc else 1%Qc)
  ∧ (∀ c, get_column df "source_file" = Some c →
       ((∃ i, i ∈ gather_validation_issues df fs
              ∧ Issue.issue_type i = "source_file_null") ↔ has_null c)
       ∧ ((∃ i, i ∈ gather_validation_issues df fs
                ∧ Issue.issue_type i = "source_file_empty")
          ↔ Exists blank (values c))
       ∧ (∀ i, i ∈ gather_validation_issues df fs →
               Issue.issue_type i = "source_file_null" →
               Issue.count i = length (filter (λ v, v = NA) (values c))
               ∧ Issue.pct i = pct_of (Issue.count i) df)
       ∧ (∀ i, i ∈ gather_validation_issues df fs →
               Issue.issue_type i = "source_file_empty" →
               Issue.count i = length (filter blank (values c))
               ∧ Issue.pct i = pct_of (Issue.count i) df)).
Proof.
  intros Hnd.
  assert (∀ i k, k ∈ source_file_kinds → Issue.issue_type i = k →
            i ∈ gather_validation_issues df fs
            ↔ i ∈ source_file_check df (allowed_files fs) []) as Hin.
  { intros i k Hk Hty. apply source_issue_in_gather; [done | by rewrite Hty]. }
  assert ("source_file_missing" ∈ source_file_kinds) as Hk1
    by (apply (bool_decide_unpack _); vm_compute; exact I).
  assert ("source_file_null" ∈ source_file_kinds) as Hk2
    by (apply (bool_decide_unpack _); vm_compute; exact I).
  assert ("source_file_empty" ∈ source_file_kinds) as Hk3
    by (apply (bool_decide_unpack _); vm_compute; exact I).
  split_and!.
  - rewrite <- get_column_in_None. fold (get_column df "source_file"). split.
    + intros (i & Hi & Hty). apply (Hin i _ Hk1 Hty) in Hi. revert Hi.
      unfold source_file_check.
      destruct (get_column df "source_file") as [c |]; [| done].
      repeat case_decide; rewrite ?elem_of_app, ?elem_of_cons, ?elem_of_nil;
        intros Hi; exfalso; repeat destruct Hi as [Hi | Hi]; try done;
        subst i; done.
    + intros Hnone.
      exists {| Issue.issue_type := "source_file_missing";
                Issue.column := "source_file";
                Issue.count := len df;
                Issue.pct := if decide (len df = 0) then 0%Qc else 1%Qc;
                Issue.details := Text "Column 'source_file' not found" |}.
      split.
      * apply source_issue_in_gather; [done | exact Hk1 |].
        unfold source_file_check. rewrite Hnone. by left.
      * done.
  - intros Hnone%get_column_in_None i Hi Hk.
    apply source_issue_in_gather in Hi; [| done | done]. revert Hi.
    unfold source_file_check, get_column. rewrite Hnone.
    by intros ->%list_elem_of_singleton.
  - intros c Hc.
    assert (∀ i, i ∈ source_file_check df (allowed_files fs) [] →
              Issue.issue_type i = "source_file_null" →
              has_null c
              ∧ Issue.count i = length (filter (λ v, v = NA) (values c))
              ∧ Issue.pct i = pct_of (Issue.count i) df) as Hnull.
    { intros i. unfold source_file_check. rewrite Hc, source_null_count.
      intros Hi Hty. assert (0 < length (filter (λ v, v = NA) (values c))
                              → has_null c) as Hpos.
      { intros (v & Hv & ->)%length_filter_pos. done. }
      revert Hi.
      repeat case_decide; rewrite ?elem_of_app, ?elem_of_cons, ?elem_of_nil;
        intros Hi; repeat destruct Hi as [Hi | Hi]; try done;
        subst i; try done; simpl; auto. }
    assert (∀ i, i ∈ source_file_check df (allowed_files fs) [] →
              Issue.issue_type i = "source_file_empty" →
              Exists blank (values c)
              ∧ Issue.count i = length (filter blank (values c))
              ∧ Issue.pct i = pct_of (Issue.count i) df) as Hempty.
    { intros i. unfold source_file_check. rewrite Hc, source_blank_count.
      intros Hi Hty. assert (0 < length (filter blank (values c))
                              → Exists blank (values c)) as Hpos.
      { intros Hp%length_filter_pos. by apply Exists_exists. }
      revert Hi.
      repeat case_decide; rewrite ?elem_of_app, ?elem_of_cons, ?elem_of_nil;
        intros Hi; repeat destruct Hi as [Hi | Hi]; try done;
        subst i; try done; simpl; auto. }
    split_and!.
    + split.
      * intros (i & Hi & Hty). apply (Hin i _ Hk2 Hty) in Hi.
        by apply Hnull in Hi as [? _].
      * intros Hn.
        assert (0 < length (filter (λ v, v = NA) (values c))) as Hpos
          by (apply length_filter_pos; by exists NA).
        exists {| Issue.issue_type := "source_file_null";
                  Issue.column := "source_file";
                  Issue.count := length (filter (λ v, v = NA) (values c));
                  Issue.pct := pct_of (length (filter (λ v, v = NA) (values c))) df;
                  Issue.details := Text "Null values present in 'source_file'" |}.
        split.
        -- apply source_issue_in_gather; [done | exact Hk2 |].
           unfold source_file_check. rewrite Hc, source_null_count.
           rewrite (decide_True (P := 0 < length _)) by done.
           repeat case_decide; rewrite ?elem_of_app, ?elem_of_cons; eauto 6.
        -- done.
    + split.
      * intros (i & Hi & Hty). apply (Hin i _ Hk3 Hty) in Hi.
        by apply Hempty in Hi as [? _].
      * intros Hex.
        assert (0 < length (filter blank (values c))) as Hpos
          by (apply length_filter_pos; by apply Exists_exists).
        exists {| Issue.issue_type := "source_file_empty";
                  Issue.column := "source_file";
                  Issue.count := length (filter blank (values c));
                  Issue.pct := pct_of (length (filter blank (values c))) df;
                  Issue.details :=
                    Text "Empty string values present in 'source_file'" |}.
        split.
        -- apply source_issue_in_gather; [done | exact Hk3 |].
           unfold source_file_check. rewrite Hc, source_blank_count.
           rewrite (decide_True (P := 0 < length (filter blank _))) by done.
           repeat case_decide; rewrite ?elem_of_app, ?elem_of_cons; eauto 6.
        -- done.
    + intros i Hi Hty. apply (Hin i _ Hk2 Hty) in Hi.
      by apply Hnull in Hi as [_ ?].
    + intros i Hi Hty. apply (Hin i _ Hk3 Hty) in Hi.
      by apply Hempty in Hi as [_ ?].
Qed.
End SourceFile.

Lemma source_file_presence_checks_witness :
  (∃ i, i ∈ gather_validation_issues (scalars := decimal_scalars) test_frame test_dir
        ∧ Issue.issue_type i = "source_file_missing")
  ↔ "source_file" ∉ map name (columns test_frame).
Proof.
  apply (source_file_presence_checks (scalars := decimal_scalars) test_frame test_dir).
  apply (bool_decide_unpack _). vm_compute. exact I.
Defined.

(** ** Reports on a table without rows, and the counts of a profile *)

Lemma mask_sum_notna_isna vs :
  mask_sum (map notna vs) + mask_sum (map isna vs) = length vs.
Proof.
  assert (map notna vs = map negb (map isna vs)) as ->
    by (rewrite map_map; by apply map_ext).
  by rewrite mask_sum_negb, length_map.
Qed.

Section Reports.
Context {scalars : Scalars}.

(** X16: on a table with distinct labels and aligned columns that has no
    rows, [gather_validation_issues] divides by nothing: it reports no
    issue when a [source_file] column exists, and otherwise the single
    [source_file_missing] issue with count 0 and share 0; and
    [profile_columns] returns, giving every column the counts 0, no
    unique value, a null share of [round(0, 6)], and no minimum, maximum,
    mean or standard deviation for a column of numbers, an empty sample
    for any other. *)
Theorem no_rows_reports df fs :
  unique_labels df → aligned df → len df = 0 →
  ("source_file" ∈ map name (columns df) → gather_validation_issues df fs = [])
  ∧ (∀ i, i ∈ gather_validation_issues df fs →
          Issue.issue_type i = "source_file_missing"
          ∧ Issue.count i = 0 ∧ Issue.pct i = 0%Qc)
  ∧ ∃ rows,
      profile_columns df = Return rows
      ∧ Forall2 (λ c p, Profile.column_name p = name c
                        ∧ Profile.count p = 0
                        ∧ Profile.non_null_count p = 0
                        ∧ Profile.null_count p = 0
                        ∧ Profile.null_pct p = round6 0%Qc
                        ∧ Profile.num_unique p = 0
                        ∧ Profile.summary p
                          = if decide (is_number c)
                            then Numeric None None None None else Samples "")
                (columns df) rows.
Proof.
  intros Hnd Hal Hlen.
  assert (∀ c, c ∈ columns df → values c = []) as Hnil.
  { intros c Hc. apply (proj1 (Forall_forall _ _) Hal) in Hc.
    rewrite Hlen in Hc. by apply nil_length_inv. }
  assert (gather_validation_issues df fs
          = source_file_check df (allowed_files fs) []) as Hg.
  { rewrite gather_phases by done.
    rewrite (filter_none (λ c, 0 < null_count_of c)).
    2:{ intros c Hc. unfold null_count_of. rewrite (Hnil c Hc).
        unfold mask_sum. simpl. lia. }
    unfold select_dtypes. rewrite list_filter_filter.
    rewrite (filter_none (λ c, 0 < negative_count_of c ∧ dtype c ∈ number)).
    2:{ intros c Hc [Hn _]. unfold negative_count_of in Hn.
        rewrite (Hnil c Hc) in Hn. unfold mask_sum in Hn. simpl in Hn. lia. }
    simpl. unfold duplicate_check, duplicated, empty.
    assert (index df = []) as -> by (by apply nil_length_inv).
    simpl. by rewrite ?app_nil_r. }
  assert (∀ c, get_column df "source_file" = Some c →
               source_file_check df (allowed_files fs) [] = []) as Hsome.
  { intros c Hc. unfold source_file_check. rewrite Hc.
    apply get_column_in_Some in Hc as [Hc _]. rewrite (Hnil c Hc). simpl.
    repeat case_decide; try done; exfalso; unfold mask_sum in *; simpl in *; lia. }
  split_and!.
  - intros Hin. rewrite Hg.
    destruct (get_column df "source_file") as [c |] eqn:Hc; [by apply (Hsome c) |].
    by apply get_column_in_None in Hc.
  - intros i. rewrite Hg.
    destruct (get_column df "source_file") as [c |] eqn:Hc.
    { rewrite (Hsome c eq_refl). by intros ?%elem_of_nil. }
    unfold source_file_check. rewrite Hc. intros ->%list_elem_of_singleton.
    simpl. by rewrite decide_True.
  - rewrite profile_columns_eq by done. rewrite decide_False.
    2:{ intros (c & Hc & _ & Hne & _)%Exists_exists. by rewrite (Hnil c Hc) in Hne. }
    eexists. split; [reflexivity |].
    apply Forall2_map_diag. intros c Hc.
    unfold profile_row, summary_of. rewrite (Hnil c Hc). cbn.
    split_and!; try done; by case_decide.
Qed.

(** X17: on a table with distinct labels [profile_columns] returns
    unless some column is a masked numeric column with a non-null cell
    and fewer than two numbers, and every profile row it returns
    carries the dtype of its column; its null count is
    the number of null cells and, with the non-null count, adds up to
    the row count; its null share is the rounded quotient of null count
    and row count, or the rounded zero for a column without cells; and
    its number of unique values is the number of distinct non-null
    values, which is at most the non-null count and at least one when
    the column holds a non-null cell. *)
Theorem profile_columns_counts df :
  unique_labels df →
  (Forall (λ c, ¬ too_few_numbers c) (columns df) →
   ∃ rows, profile_columns df = Return rows)
  ∧ ∀ rows, profile_columns df = Return rows →
  Forall2 (λ c p, Profile.dtype p = dtype c
                  ∧ Profile.null_count p = length (filter (λ v, v = NA) (values c))
                  ∧ Profile.non_null_count p + Profile.null_count p
                    = Profile.count p
                  ∧ Profile.null_pct p
                    = round6 (if decide (Profile.count p = 0) then 0%Qc
                              else (Qc_of_nat (Profile.null_count p)
                                    / Qc_of_nat (Profile.count p))%Qc)
                  ∧ (∃ distinct, NoDup distinct
                       ∧ (∀ v, v ∈ distinct ↔ v ∈ values c ∧ v ≠ NA)
                       ∧ Profile.num_unique p = length distinct)
                  ∧ Profile.num_unique p ≤ Profile.non_null_count p
                  ∧ (0 < Profile.non_null_count p → 0 < Profile.num_unique p))
          (columns df) rows.
Proof.
  intros Hnd. rewrite profile_columns_eq by done. split.
  { intros Hok. rewrite decide_False; [by eexists |].
    intros (c & Hc & Ht)%Exists_exists.
    by apply (proj1 (Forall_forall _ _) Hok c). }
  intros rows. case_decide; [done |]. intros [= <-].
  apply Forall2_map_diag. intros c _. unfold profile_row. cbn.
  assert (mask_sum (map notna (values c)) = length (dropna (values c))) as Hnn
    by apply mask_sum_filter.
  split_and!.
  - done.
  - apply (null_count_of_filter c).
  - apply mask_sum_notna_isna.
  - done.
  - exists (unique (dropna (values c))). split_and!; [apply unique_NoDup | | done].
    intros v. rewrite elem_of_unique. unfold dropna. rewrite list_elem_of_filter.
    destruct v; simpl; naive_solver.
  - rewrite Hnn. apply sublist_length, unique_sublist.
  - rewrite Hnn. destruct (dropna (values c)) as [|v vs]; simpl; lia.
Qed.
End Reports.

Lemma no_rows_reports_witness :
  Forall (λ i, Issue.issue_type i = "source_file_missing"
               ∧ Issue.count i = 0 ∧ Issue.pct i = 0%Qc)
         (gather_validation_issues (scalars := decimal_scalars)
            header_only_frame test_dir).
Proof.
  apply Forall_forall.
  apply (no_rows_reports (scalars := decimal_scalars) header_only_frame test_dir).
  - apply (bool_decide_unpack _). vm_compute. exact I.
  - apply (bool_decide_unpack _). vm_compute. exact I.
  - reflexivity.
Defined.

Lemma profile_columns_counts_witness :
  Forall2 (λ c p, Profile.dtype p = dtype c
                  ∧ Profile.null_count p = length (filter (λ v, v = NA) (values c))
                  ∧ Profile.non_null_count p + Profile.null_count p
                    = Profile.count p
                  ∧ Profile.null_pct p
                    = round6 (Scalars := decimal_scalars)
                        (if decide (Profile.count p = 0) then 0%Qc
                         else (Qc_of_nat (Profile.null_count p)
                               / Qc_of_nat (Profile.count p))%Qc)
                  ∧ (∃ distinct, NoDup distinct
                       ∧ (∀ v, v ∈ distinct ↔ v ∈ values c ∧ v ≠ NA)
                       ∧ Profile.num_unique p = length distinct)
                  ∧ Profile.num_unique p ≤ Profile.non_null_count p
                  ∧ (0 < Profile.non_null_count p → 0 < Profile.num_unique p))
          (columns test_frame)
          (returned (profile_columns (scalars := decimal_scalars) test_frame)).
Proof.
  assert (unique_labels test_frame) as Hnd
    by (apply (bool_decide_unpack _); vm_compute; exact I).
  apply (proj2 (profile_columns_counts (scalars := decimal_scalars) test_frame Hnd)).
  vm_compute. reflexivity.
Defined.
